(** * Merge-on-write delete-bitmap engine of [BaseTablet]

    A shallow embedding of the parts of [be/src/olap/base_tablet.cpp] that
    maintain the versioned delete bitmap of a merge-on-write tablet, and of
    the compaction budget rule exercised by
    [be/test/olap/compaction_task_test.cpp].

    Conventions.
    - A [Status] is modelled by its error code; messages are dropped.
    - [DCHECK]s are no-ops (release build); an out-of-range [vector] index is
      undefined behaviour and is modelled by [None].
    - Logging, metrics, stop watches and debug points ([DBUG_EXECUTE_IF]) are
      omitted: they do not change the values computed. *)

From stdpp Require Import gmap list sorting functions.
From Stdlib Require Import ZArith NArith String Lia.

Local Open Scope N_scope.

(** ** Status codes ([common/status.h], only the codes this file uses) *)

Inductive Status :=
  | OK
  | KEY_NOT_FOUND
  | KEY_ALREADY_EXISTS
  | META_INVALID_ARGUMENT
  | CAPTURE_ROWSET_ERROR
  | MEM_LIMIT_EXCEEDED
  | NOT_IMPLEMENTED_ERROR
  | NOT_FOUND
  | IO_ERROR
  | INTERNAL_ERROR.

#[global] Instance Status_eq_dec : EqDecision Status.
Proof. solve_decision. Defined.

Definition ok (s : Status) : bool := bool_decide (s = OK).
Definition is_code (c s : Status) : bool := bool_decide (s = c).

(** ** Identifiers and row locations *)

(** [RowsetId] is an opaque, totally ordered identifier in the source (a
    struct of integers); only equality and order are used here. *)
Abbreviation RowsetId := N (only parsing).

Definition UINT32_MAX : N := 4294967295.
Definition INT64_MAX : N := 9223372036854775807.

Record RowLocation := mkRowLocation {
  loc_rowset_id : RowsetId;
  loc_segment_id : N;
  loc_row_id : N;
}.

#[global] Instance RowLocation_eq_dec : EqDecision RowLocation.
Proof. solve_decision. Defined.

#[global] Instance RowLocation_countable : Countable RowLocation.
Proof.
  refine (inj_countable'
            (fun l => (loc_rowset_id l, loc_segment_id l, loc_row_id l))
            (fun t => mkRowLocation t.1.1 t.1.2 t.2) _).
  by intros [].
Defined.

(** ** DeleteBitmap

    The class is declared in [olap/tablet_meta.h], which is not part of the
    excerpt; [base_tablet.cpp] only calls it. *)

(** A key is [(rowset id, segment id, version)]. *)
Abbreviation BitmapKey := (N * N * N)%type (only parsing).

(** Modelled from the spec: DeleteBitmap, "mapping (rowset-id, segment-id,
    version) -> bitmap of row ordinals"; an ordered map from keys to sets of
    row ids. *)
Abbreviation DeleteBitmap := (gmap (N * N * N) (gset N)) (only parsing).

(** Modelled from the spec: the constants of DeleteBitmap.  The source says
    of the temporary version "just set 0 as a unified temporary version
    number"; the reserved segment id and the sentinel row id are the largest
    32-bit value but one.  No theorem below depends on the chosen values. *)
Definition TEMP_VERSION_COMMON : N := 0.
Definition INVALID_SEGMENT_ID : N := UINT32_MAX - 1.
Definition ROWSET_SENTINEL_MARK : N := UINT32_MAX - 1.

Module DeleteBitmap.

(** Modelled from the spec: [add(key, row_id)]. *)
Definition add (key : BitmapKey) (row_id : N) (bm : DeleteBitmap) : DeleteBitmap :=
  <[key := {[row_id]} ∪ default ∅ (bm !! key)]> bm.

(** Modelled from the spec: [contains(key, row_id) -> bool]. *)
Definition contains (key : BitmapKey) (row_id : N) (bm : DeleteBitmap) : bool :=
  match bm !! key with
  | Some rows => bool_decide (row_id ∈ rows)
  | None => false
  end.

(** [delete_bitmap.contains(key)] on the underlying [std::map]: is the key
    present at all. *)
Definition has_key (key : BitmapKey) (bm : DeleteBitmap) : bool :=
  bool_decide (is_Some (bm !! key)).

(** Modelled from the spec: [get_agg(key, up_to_version)], "aggregate all
    versions <= given version for a segment", queried for one row. *)
Definition contains_agg_without_cache (key : BitmapKey) (row_id : N)
    (bm : DeleteBitmap) : bool :=
  existsb (fun kv : N * N * N * gset N =>
             bool_decide (kv.1.1 = key.1) && bool_decide (kv.1.2 ≤ key.2)
             && bool_decide (row_id ∈ kv.2))
          (map_to_list bm).

Section Ranges.
(** Modelled from the spec: [remove(range)] and [subset(lo_key, hi_key)] act
    on the keys between two bounds in the lexicographic key order.  Whether
    the upper bound itself belongs to the range is fixed by the absent
    declaration, so the range test is a parameter. *)
Variable in_key_range : BitmapKey -> BitmapKey -> BitmapKey -> bool.

Definition remove (lo hi : BitmapKey) (bm : DeleteBitmap) : DeleteBitmap :=
  filter (fun kv => in_key_range lo hi kv.1 = false) bm.

Definition subset (lo hi : BitmapKey) (bm : DeleteBitmap) : DeleteBitmap :=
  filter (fun kv => in_key_range lo hi kv.1 = true) bm.
End Ranges.

(** Lexicographic order on keys. *)
Definition key_ltb (a b : BitmapKey) : bool :=
  (a.1.1 <? b.1.1)
  || ((a.1.1 =? b.1.1) && ((a.1.2 <? b.1.2)
                           || ((a.1.2 =? b.1.2) && (a.2 <? b.2)))).

Definition key_leb (a b : BitmapKey) : bool := negb (key_ltb b a).

(** The range [lo <= k < hi]. *)
Definition half_open_range (lo hi k : BitmapKey) : bool :=
  key_leb lo k && key_ltb k hi.

(** Modelled from the spec: the range [lo <= k <= hi] of a [subset] that
    selects both bounds, as the version ranges "[start_version,end_version]"
    of the spec include both ends. *)
Definition closed_range (lo hi k : BitmapKey) : bool :=
  key_leb lo k && key_leb k hi.

End DeleteBitmap.

(** ** Tablet state *)

(** Modelled from the spec: the tablet state enum "RUNNING, NOT_READY,
    SHUTDOWN" (declared outside the excerpt). *)
Inductive TabletState := TABLET_RUNNING | TABLET_NOTREADY | TABLET_SHUTDOWN.

#[global] Instance TabletState_eq_dec : EqDecision TabletState.
Proof. solve_decision. Defined.

(** The part of [TabletMeta] that [set_tablet_state] touches, together with
    the tablet's own delete bitmap. *)
Record TabletMeta := mkTabletMeta {
  tablet_state : TabletState;
  meta_delete_bitmap : gmap (N * N * N) (gset N);
}.

Definition meta_set_tablet_state (state : TabletState) (m : TabletMeta) : TabletMeta :=
  {| tablet_state := state; meta_delete_bitmap := meta_delete_bitmap m |}.

(** [BaseTablet::set_tablet_state] *)
Definition set_tablet_state (m : TabletMeta) (state : TabletState) : Status * TabletMeta :=
  if bool_decide (tablet_state m = TABLET_SHUTDOWN) && negb (bool_decide (state = TABLET_SHUTDOWN))
  then (META_INVALID_ARGUMENT, m)
  else (OK, meta_set_tablet_state state m).

(** ** Sentinel marks and the correctness check *)

(** [BaseTablet::add_sentinel_mark_to_delete_bitmap] *)
Definition add_sentinel_mark_to_delete_bitmap (bm : DeleteBitmap) (rowsetids : gset N)
    : DeleteBitmap :=
  set_fold (fun rowsetid acc =>
              DeleteBitmap.add (rowsetid, INVALID_SEGMENT_ID, TEMP_VERSION_COMMON)
                               ROWSET_SENTINEL_MARK acc)
           bm rowsetids.

(** The first loop of [BaseTablet::check_delete_bitmap_correctness]. *)
Definition missing_ids (bm : DeleteBitmap) (rowset_ids : gset N) : gset N :=
  set_fold (fun rowsetid acc =>
              if negb (DeleteBitmap.has_key
                         (rowsetid, INVALID_SEGMENT_ID, TEMP_VERSION_COMMON) bm)
              then {[rowsetid]} ∪ acc else acc)
           ∅ rowset_ids.

(** [BaseTablet::check_delete_bitmap_correctness]; the JSON report built for
    the log is omitted. *)
Definition check_delete_bitmap_correctness (bm : DeleteBitmap) (rowset_ids : gset N)
    : Status :=
  if negb (bool_decide (missing_ids bm rowset_ids = ∅)) then INTERNAL_ERROR else OK.

(** [BaseTablet::_rowset_ids_difference]; the two output sets are passed in
    and only inserted into. *)
Definition _rowset_ids_difference (cur pre to_add to_del : gset N) : gset N * gset N :=
  let to_add' :=
    set_fold (fun id acc => if bool_decide (id ∈ pre) then acc else {[id]} ∪ acc)
             to_add cur in
  let to_del' :=
    set_fold (fun id acc => if bool_decide (id ∈ cur) then acc else {[id]} ∪ acc)
             to_del pre in
  (to_add', to_del').

(** ** Schemas, segments and rowsets

    These classes are declared outside the excerpt; the records keep the
    accessors that [base_tablet.cpp] calls, under the accessors' names. *)

(** A cell of a column: null, or a value (values are integers here; the
    logic below never inspects them, except the delete sign, which is an
    [Int8]). *)
Inductive Cell := Null | Val (z : Z).

#[global] Instance Cell_eq_dec : EqDecision Cell.
Proof. solve_decision. Defined.

Record TabletColumn := mkTabletColumn {
  col_length : nat;            (* [length()] *)
  has_default_value : bool;
  is_nullable : bool;
  is_seqeunce_col : bool;      (* spelled as in the source *)
  get_default : Cell;          (* [get_vec_type()->get_default()] *)
}.

Record TabletSchema := mkTabletSchema {
  has_sequence_col : bool;
  sequence_col_idx : nat;
  column : nat -> TabletColumn;
  cluster_key_uids : list N;
}.

Record KeyBoundsPB := mkKeyBoundsPB {
  min_key : string;
  max_key : string;
}.

(** A [Slice]: a pointer and a size.  The pointer is given by the buffer it
    points into and its distance from the start of that buffer.  Distances
    and sizes are [size_t] values: they are computed modulo [2^64]. *)
Record Slice := mkSlice {
  slice_buffer : string;
  slice_offset : Z;
  slice_size : Z;
}.

(** [Slice::to_string()]: the bytes that the slice covers.  A slice that
    does not lie within its buffer has none (reading it is out of bounds). *)
Definition slice_to_string (s : Slice) : option string :=
  if (0 <=? slice_offset s)%Z && (0 <=? slice_size s)%Z
     && (slice_offset s + slice_size s <=? Z.of_nat (String.length (slice_buffer s)))%Z
  then Some (String.substring (Z.to_nat (slice_offset s)) (Z.to_nat (slice_size s))
                              (slice_buffer s))
  else None.

(** A loaded segment: its id, the point lookup of its primary-key index
    ([Segment::lookup_row_key], given the encoded key, [with_seq_col] and
    [with_rowid]; it yields a status and the location it wrote), the keys of
    the index in index order, and [read_key_by_rowid]. *)
Record Segment := mkSegment {
  seg_id : N;
  seg_lookup_row_key : string -> bool -> bool -> Status * RowLocation;
  seg_pk_index : list string;
  seg_load_pk_index_and_bf : Status;
  seg_read_key_by_rowid : N -> Status * string;
}.

Record Rowset := mkRowset {
  rowset_id : RowsetId;
  num_segments : nat;
  segments_key_bounds : list KeyBoundsPB;
  is_segments_key_bounds_truncated : bool;
  end_version : Z;
  produced_by_compaction : bool;
  (* the outcome of loading the rowset's segments from storage *)
  load_segments : Status * list Segment;
}.

(** [std::vector<std::unique_ptr<SegmentCacheHandle>>]: position [i] holds
    the segments loaded for the [i]-th candidate rowset, or nothing
    ([nullptr]). *)
Abbreviation SegmentCaches := (gmap nat (list Segment)) (only parsing).

(** ** Primary-key lookup *)

Section Lookup.

(** [key_is_not_in_segment] of [util/key_util.h] and
    [PrimaryKeyIndexReader::ROW_ID_LENGTH] are declared outside the excerpt
    and are parameters of the model. *)
Variable key_is_not_in_segment : Slice -> KeyBoundsPB -> bool -> bool.
Variable ROW_ID_LENGTH : nat.

(** [Slice(key.data, key.size - n)].  The size is computed in [size_t]: for
    a key shorter than [n] bytes it wraps around, and the slice extends
    beyond the key. *)
Definition drop_suffix (n : nat) (key : string) : Slice :=
  mkSlice key 0 ((Z.of_nat (String.length key) - Z.of_nat n) mod 2 ^ 64).

(** The loop [for (int j = num_segments - 1; j >= 0; j--)] that fills
    [picked_segments], over the ids in the order the loop visits them. *)
Fixpoint pick_segments (key_without_seq : Slice) (rs : Rowset) (ids : list nat)
    : option (list nat) :=
  match ids with
  | [] => Some []
  | j :: rest =>
      bounds ← segments_key_bounds rs !! j;
      picked ← pick_segments key_without_seq rs rest;
      Some (if key_is_not_in_segment key_without_seq bounds
                 (is_segments_key_bounds_truncated rs)
            then picked else j :: picked)
  end.

Definition descending_ids (n : nat) : list nat := rev (seq 0 n).

(** How the loop over the picked segments of one rowset ends. *)
Inductive SegmentScan :=
  | ScanReturn (s : Status) (found : option RowLocation)  (* [return s] *)
  | ScanNextRowset.                                      (* fell out of the loop *)

(** The loop [for (auto id : picked_segments)]. *)
Fixpoint scan_picked_segments (encoded_key : string) (schema : TabletSchema)
    (with_seq_col with_rowid : bool) (version : N) (bm : DeleteBitmap)
    (segments : list Segment) (picked : list nat) : option SegmentScan :=
  match picked with
  | [] => Some ScanNextRowset
  | id :: rest =>
      seg ← segments !! id;
      let '(s, loc) := seg_lookup_row_key seg encoded_key with_seq_col with_rowid in
      if is_code KEY_NOT_FOUND s then
        scan_picked_segments encoded_key schema with_seq_col with_rowid version bm
                             segments rest
      else if negb (ok s) && negb (is_code KEY_ALREADY_EXISTS s) then
        Some (ScanReturn s None)
      else if ok s && DeleteBitmap.contains_agg_without_cache
                        (loc_rowset_id loc, loc_segment_id loc, version)
                        (loc_row_id loc) bm then
        if has_sequence_col schema then
          scan_picked_segments encoded_key schema with_seq_col with_rowid version bm
                               segments rest
        else Some ScanNextRowset              (* [break] *)
      else Some (ScanReturn s (Some loc))
  end.

(** The result of [lookup_row_key]: the status, the location and rowset
    written through the out-parameters (only when a row is returned), and
    the segment caches. *)
Record LookupResult := mkLookupResult {
  lr_status : Status;
  lr_found : option (RowLocation * Rowset);
  lr_caches : gmap nat (list Segment);
}.

(** The loop [for (size_t i = 0; i < specified_rowsets.size(); i++)], from
    index [i] on. *)
Fixpoint lookup_in_rowsets (encoded_key : string) (key_without_seq : Slice)
    (schema : TabletSchema)
    (with_seq_col with_rowid : bool) (version : N) (bm : DeleteBitmap)
    (i : nat) (rowsets : list Rowset) (caches : SegmentCaches)
    : option LookupResult :=
  match rowsets with
  | [] => Some (mkLookupResult KEY_NOT_FOUND None caches)
  | rs :: rest =>
      picked ← pick_segments key_without_seq rs (descending_ids (num_segments rs));
      match picked with
      | [] => lookup_in_rowsets encoded_key key_without_seq schema with_seq_col
                                with_rowid version bm (S i) rest caches
      | _ :: _ =>
          let loaded :=
            match caches !! i with
            | Some segments => (OK, segments, caches)
            | None =>
                let '(st, segments) := load_segments rs in
                (st, segments, <[i := segments]> caches)
            end in
          let '(st, segments, caches') := loaded in
          if negb (ok st) then Some (mkLookupResult st None caches')
          else
            scan ← scan_picked_segments encoded_key schema with_seq_col with_rowid
                                        version bm segments picked;
            match scan with
            | ScanReturn s None => Some (mkLookupResult s None caches')
            | ScanReturn s (Some loc) => Some (mkLookupResult s (Some (loc, rs)) caches')
            | ScanNextRowset =>
                lookup_in_rowsets encoded_key key_without_seq schema with_seq_col
                                  with_rowid version bm (S i) rest caches'
            end
      end
  end.

(** [BaseTablet::lookup_row_key].  [tablet_schema] and [meta] stand for
    [_tablet_meta->tablet_schema()] and [_tablet_meta]; [latest_schema] and
    [delete_bitmap] are the optional arguments ([nullptr] is [None]). *)
Definition lookup_row_key (tablet_schema : TabletSchema) (meta : TabletMeta)
    (encoded_key : string) (latest_schema : option TabletSchema) (with_seq_col : bool)
    (specified_rowsets : list Rowset) (version : N) (segment_caches : SegmentCaches)
    (with_rowid : bool) (delete_bitmap : option (gmap (N * N * N) (gset N)))
    : option LookupResult :=
  let schema := default tablet_schema latest_schema in
  let seq_col_length :=
    if has_sequence_col schema && with_seq_col
    then (col_length (column schema (sequence_col_idx schema)) + 1)%nat else 0%nat in
  let rowid_length :=
    if with_rowid && negb (bool_decide (cluster_key_uids schema = []))
    then ROW_ID_LENGTH else 0%nat in
  let key_without_seq := drop_suffix (seq_col_length + rowid_length) encoded_key in
  let tablet_delete_bitmap := default (meta_delete_bitmap meta) delete_bitmap in
  lookup_in_rowsets encoded_key key_without_seq schema with_seq_col with_rowid
                    version tablet_delete_bitmap 0 specified_rowsets segment_caches.

End Lookup.

(** ** Delete-bitmap calculation for one segment *)

(** Modelled from the spec: PartialUpdateInfo, "update column ids, missing
    column ids, default values, mode (FIXED/FLEXIBLE)"; [UPSERT] is the mode
    of a write that is not a partial update. *)
Inductive UniqueKeyUpdateMode := UPSERT | UPDATE_FIXED_COLUMNS | UPDATE_FLEXIBLE_COLUMNS.

#[global] Instance UniqueKeyUpdateMode_eq_dec : EqDecision UniqueKeyUpdateMode.
Proof. solve_decision. Defined.

Record PartialUpdateInfo := mkPartialUpdateInfo {
  partial_update_mode : UniqueKeyUpdateMode;
  update_cids : list nat;
  missing_cids : list nat;
  default_values : list string;
  max_version_in_flush_phase : Z;
}.

Definition is_fixed_partial_update (info : PartialUpdateInfo) : bool :=
  bool_decide (partial_update_mode info = UPDATE_FIXED_COLUMNS).
Definition is_flexible_partial_update (info : PartialUpdateInfo) : bool :=
  bool_decide (partial_update_mode info = UPDATE_FLEXIBLE_COLUMNS).

Record RowsetWriter := mkRowsetWriter {
  is_partial_update : bool;
  get_partial_update_info : PartialUpdateInfo;
}.

(** Modelled from the spec: a read plan holds the "row locations to fetch";
    [prepare_to_read(loc, pos)] records that row [pos] of the block to build
    is read from [loc]. *)
Abbreviation FixedReadPlan := (list (RowLocation * N)) (only parsing).

Definition prepare_to_read (loc : RowLocation) (pos : N) (plan : FixedReadPlan)
    : FixedReadPlan :=
  plan ++ [(loc, pos)].

(** The configuration flags read by the functions below ([common/config.h]). *)
Record Config := mkConfig {
  enable_merge_on_write_correctness_check : bool;
}.

(** The local variables of [calc_segment_delete_bitmap] that its loops
    update, with the delete bitmap it writes to.  [conflict_rows] and
    [new_generated_rows] only feed the log line and are left out. *)
Record CalcState := mkCalcState {
  cs_delete_bitmap : gmap (N * N * N) (gset N);
  cs_read_plan_ori : list (RowLocation * N);
  cs_read_plan_update : list (RowLocation * N);
  cs_rids_be_overwritten : gset N;
  cs_rsid_to_rowset : gmap N Rowset;
  cs_pos : N;
  cs_row_id : N;
  cs_segment_caches : gmap nat (list Segment);
}.

Definition with_row_id (row_id : N) (st : CalcState) : CalcState :=
  mkCalcState (cs_delete_bitmap st) (cs_read_plan_ori st) (cs_read_plan_update st)
              (cs_rids_be_overwritten st) (cs_rsid_to_rowset st) (cs_pos st)
              row_id (cs_segment_caches st).

Definition with_segment_caches (caches : SegmentCaches) (st : CalcState) : CalcState :=
  mkCalcState (cs_delete_bitmap st) (cs_read_plan_ori st) (cs_read_plan_update st)
              (cs_rids_be_overwritten st) (cs_rsid_to_rowset st) (cs_pos st)
              (cs_row_id st) caches.

Definition with_delete_bitmap (bm : DeleteBitmap) (st : CalcState) : CalcState :=
  mkCalcState bm (cs_read_plan_ori st) (cs_read_plan_update st)
              (cs_rids_be_overwritten st) (cs_rsid_to_rowset st) (cs_pos st)
              (cs_row_id st) (cs_segment_caches st).

(** How one pass through the body of the loop over the keys ends. *)
Inductive KeyStep :=
  | StepReturn (s : Status) (st : CalcState)   (* [return s] *)
  | StepNext (st : CalcState).                 (* [continue], or the end of the body *)

Section CalcSegment.

Variable key_is_not_in_segment : Slice -> KeyBoundsPB -> bool -> bool.
Variable ROW_ID_LENGTH : nat.
(** The key coder of the row-id suffix of a clustered key
    ([decode_ascending], declared outside the excerpt). *)
Variable decode_ascending : Slice -> Status * N.
(** The tail of the partial-update path: build the block from the read
    plans, sort it and flush it through the rowset writer.  Only its status
    matters to the delete bitmap; the block itself is modelled by
    [generate_new_block_for_partial_update] below. *)
Variable flush_partial_update_block : CalcState -> Status.

Variable config : Config.
Variable tablet_schema : TabletSchema.     (* [_tablet_meta->tablet_schema()] *)
Variable meta : TabletMeta.                (* [_tablet_meta] *)

(* the arguments of [calc_segment_delete_bitmap] *)
Variable rowset : Rowset.
Variable rowset_schema : TabletSchema.     (* [rowset->tablet_schema()], after the
                                              variant columns are dropped *)
Variable seg : Segment.
Variable specified_rowsets : list Rowset.
Variable end_version : Z.
Variable rowset_writer : option RowsetWriter.
Variable tablet_delete_bitmap : option (gmap (N * N * N) (gset N)).

Definition writer_is_partial_update : bool :=
  match rowset_writer with
  | Some w => is_partial_update w
  | None => false
  end.

(** [have_input_seq_column], as set before the loop. *)
Definition calc_have_input_seq_column : bool :=
  match rowset_writer with
  | Some w =>
      if is_partial_update w then
        let info := get_partial_update_info w in
        if is_fixed_partial_update info && has_sequence_col rowset_schema then
          has_sequence_col rowset_schema
          && bool_decide (sequence_col_idx rowset_schema ∈ update_cids info)
        else false
      else false
  | None => false
  end.

(** [dummy_version.first - 1], converted to the unsigned version of a
    bitmap key. *)
Definition lookup_version : N := Z.to_N ((end_version + 1 - 1) mod 2 ^ 64).

(** The row id of the key under the cursor: the running counter, or for a
    clustered-key table the id decoded from the key's suffix.  All lengths
    are [size_t] values; the slice handed to the decoder starts
    [key_without_seq.size + seq_col_length + 1] bytes after the start of the
    key and has [rowid_length - 1] bytes. *)
Definition key_row_id (key : string) (row_id : N) : Status * N :=
  if negb (bool_decide (cluster_key_uids tablet_schema = [])) then
    let seq_col_length :=
      if has_sequence_col tablet_schema
      then (col_length (column tablet_schema (sequence_col_idx tablet_schema)) + 1)%nat
      else 0%nat in
    let rowid_length := ROW_ID_LENGTH in
    let key_without_seq := drop_suffix (seq_col_length + rowid_length) key in
    let rowid_slice :=
      mkSlice key
              ((slice_size key_without_seq + Z.of_nat seq_col_length + 1) mod 2 ^ 64)
              ((Z.of_nat rowid_length - 1) mod 2 ^ 64) in
    let '(s, decoded) := decode_ascending rowid_slice in
    if ok s then (OK, decoded) else (s, row_id)
  else (OK, row_id).

Definition new_row_key : BitmapKey := (rowset_id rowset, seg_id seg, TEMP_VERSION_COMMON).

Definition old_row_key (loc : RowLocation) : BitmapKey :=
  (loc_rowset_id loc, loc_segment_id loc, TEMP_VERSION_COMMON).

(** What the body does with the outcome of the lookup (from [bool
    expected_st] to the end of the body); [st] already carries the row id
    and the segment caches. *)
Definition apply_lookup (status : Status) (found : option (RowLocation * Rowset))
    (st : CalcState) : option KeyStep :=
  let row_id := cs_row_id st in
  let expected_st :=
    ok status || is_code KEY_NOT_FOUND status || is_code KEY_ALREADY_EXISTS status in
  if negb expected_st then Some (StepReturn status st)
  else if is_code KEY_NOT_FOUND status then Some (StepNext st)
  else if is_code KEY_ALREADY_EXISTS status
          && (negb writer_is_partial_update
              || (match rowset_writer with
                  | Some w => is_fixed_partial_update (get_partial_update_info w)
                  | None => false
                  end && calc_have_input_seq_column)) then
    Some (StepNext (with_delete_bitmap
                      (DeleteBitmap.add new_row_key row_id (cs_delete_bitmap st)) st))
  else
    '(loc, rowset_find) ← found;
    match rowset_writer with
    | Some w =>
        if is_partial_update w then
          let pos := cs_pos st in
          let read_plan_ori := prepare_to_read loc pos (cs_read_plan_ori st) in
          let read_plan_update :=
            prepare_to_read (mkRowLocation (rowset_id rowset) (seg_id seg) row_id) pos
                            (cs_read_plan_update st) in
          let rids :=
            if is_code KEY_ALREADY_EXISTS status
               && is_flexible_partial_update (get_partial_update_info w)
            then {[pos]} ∪ cs_rids_be_overwritten st else cs_rids_be_overwritten st in
          let rsid_to_rowset := <[rowset_id rowset_find := rowset_find]> (cs_rsid_to_rowset st) in
          let bm := DeleteBitmap.add (old_row_key loc) (loc_row_id loc) (cs_delete_bitmap st) in
          let bm := DeleteBitmap.add new_row_key row_id bm in
          Some (StepNext (mkCalcState bm read_plan_ori read_plan_update rids rsid_to_rowset
                                      ((pos + 1) mod 2 ^ 32) row_id (cs_segment_caches st)))
        else
          Some (StepNext (with_delete_bitmap
                            (DeleteBitmap.add (old_row_key loc) (loc_row_id loc)
                                              (cs_delete_bitmap st)) st))
    | None =>
        Some (StepNext (with_delete_bitmap
                          (DeleteBitmap.add (old_row_key loc) (loc_row_id loc)
                                            (cs_delete_bitmap st)) st))
    end.

(** The lookup made for one key: against the tablet's own bitmap, or against
    [tablet_delete_bitmap] when one is passed. *)
Definition lookup_for_key (key : string) (st : CalcState) : option LookupResult :=
  lookup_row_key key_is_not_in_segment ROW_ID_LENGTH tablet_schema meta key
                 (Some rowset_schema) true specified_rowsets lookup_version
                 (cs_segment_caches st) true tablet_delete_bitmap.

(** The body of [for (size_t i = 0; i < num_read; i++, row_id++)] for one
    key, without the increment. *)
Definition process_key (key : string) (st : CalcState) : option KeyStep :=
  let '(s, row_id) := key_row_id key (cs_row_id st) in
  if negb (ok s) then Some (StepReturn s st)
  else
    let st := with_row_id row_id st in
    (* same row in segments should be filtered *)
    if DeleteBitmap.contains new_row_key row_id (cs_delete_bitmap st) then Some (StepNext st)
    else
      r ← lookup_for_key key st;
      apply_lookup (lr_status r) (lr_found r) (with_segment_caches (lr_caches r) st).

(** The loop over the keys of one batch. *)
Fixpoint process_keys (keys : list string) (st : CalcState) : option KeyStep :=
  match keys with
  | [] => Some (StepNext st)
  | key :: rest =>
      step ← process_key key st;
      match step with
      | StepReturn s st' => Some (StepReturn s st')
      | StepNext st' =>
          process_keys rest (with_row_id ((cs_row_id st' + 1) mod 2 ^ 32) st')
      end
  end.

Definition batch_size : nat := 1024.

(** The loop [while (remaining > 0)].  Each round reads [num_to_read] keys
    from the ordinal the iterator was positioned at; the source asserts
    that this ordinal is [total - remaining], and the model takes it from
    there.  Creating the iterator, seeking and reading the batch are taken
    to succeed.  [fuel] bounds the number of rounds. *)
Fixpoint process_batches (fuel : nat) (remaining : nat) (st : CalcState)
    : option KeyStep :=
  match fuel with
  | O => if bool_decide (remaining = 0%nat) then Some (StepNext st) else None
  | S fuel' =>
      if bool_decide (remaining = 0%nat) then Some (StepNext st)
      else
        let total := List.length (seg_pk_index seg) in
        let num_to_read := Nat.min batch_size remaining in
        let current_ordinal := (total - remaining)%nat in
        let index_column := take num_to_read (drop current_ordinal (seg_pk_index seg)) in
        let num_read := num_to_read in
        (* exclude last_key, last_key will be read in next batch. *)
        let num_read :=
          if bool_decide (num_read = batch_size) && negb (bool_decide (num_read = remaining))
          then (num_read - 1)%nat else num_read in
        step ← process_keys (take num_read index_column) st;
        match step with
        | StepReturn s st' => Some (StepReturn s st')
        | StepNext st' => process_batches fuel' (remaining - num_read) st'
        end
  end.

Definition initial_state (delete_bitmap : DeleteBitmap) : CalcState :=
  mkCalcState delete_bitmap [] [] ∅ {[rowset_id rowset := rowset]} 0 0 ∅.

(** [BaseTablet::calc_segment_delete_bitmap]: the status returned and the
    delete bitmap as the call leaves it. *)
Definition calc_segment_delete_bitmap (delete_bitmap : DeleteBitmap)
    : option (Status * gmap (N * N * N) (gset N)) :=
  if negb (ok (seg_load_pk_index_and_bf seg))
  then Some (seg_load_pk_index_and_bf seg, delete_bitmap)
  else
    let total := List.length (seg_pk_index seg) in
    step ← process_batches total total (initial_state delete_bitmap);
    match step with
    | StepReturn s st => Some (s, cs_delete_bitmap st)
    | StepNext st =>
        let bm :=
          if enable_merge_on_write_correctness_check config then
            add_sentinel_mark_to_delete_bitmap
              (cs_delete_bitmap st) (list_to_set (rowset_id <$> specified_rowsets))
          else cs_delete_bitmap st in
        if bool_decide (0 < cs_pos st) then
          let s := flush_partial_update_block st in
          if negb (ok s) then Some (s, bm) else Some (OK, bm)
        else Some (OK, bm)
    end.

End CalcSegment.

(** The loop of [calc_delete_bitmap] over the segments, run in the calling
    thread ([token == nullptr]); [calc] is [calc_segment_delete_bitmap] for
    one segment. *)
Fixpoint calc_segments
    (calc : Segment -> DeleteBitmap -> option (Status * gmap (N * N * N) (gset N)))
    (segments : list Segment) (delete_bitmap : DeleteBitmap)
    : option (Status * gmap (N * N * N) (gset N)) :=
  match segments with
  | [] => Some (OK, delete_bitmap)
  | segment :: rest =>
      '(s, bm) ← calc segment delete_bitmap;
      if negb (ok s) then Some (s, bm) else calc_segments calc rest bm
  end.

(** [BaseTablet::calc_delete_bitmap] with [token == nullptr].  With a token
    the per-segment calls are handed to a thread pool instead. *)
Definition calc_delete_bitmap
    (key_is_not_in_segment : Slice -> KeyBoundsPB -> bool -> bool)
    (ROW_ID_LENGTH : nat) (decode_ascending : Slice -> Status * N)
    (flush_partial_update_block : CalcState -> Status) (config : Config) (tablet_schema : TabletSchema)
    (meta : TabletMeta) (rowset : Rowset) (rowset_schema : TabletSchema)
    (segments : list Segment) (specified_rowsets : list Rowset)
    (delete_bitmap : DeleteBitmap) (end_version : Z)
    (rowset_writer : option RowsetWriter)
    (tablet_delete_bitmap : option (gmap (N * N * N) (gset N)))
    : option (Status * gmap (N * N * N) (gset N)) :=
  if bool_decide (List.length specified_rowsets = 0%nat)
     || bool_decide (List.length segments = 0%nat)
  then Some (OK, delete_bitmap)
  else
    calc_segments
      (fun segment bm =>
         calc_segment_delete_bitmap key_is_not_in_segment ROW_ID_LENGTH decode_ascending
           flush_partial_update_block config tablet_schema meta rowset rowset_schema
           segment specified_rowsets end_version rowset_writer tablet_delete_bitmap bm)
      segments delete_bitmap.

(** ** Commit-phase and publish-phase reconciliation *)

(** The tablet as these functions see it: its meta, the rowsets of
    [_rs_version_map] in map order, [max_version_unlocked()], and the
    outcome of [get_all_rs_id_unlocked] (it walks the version graph, which
    is outside the excerpt). *)
Record Tablet := mkTablet {
  tablet_meta : TabletMeta;
  rs_version_map : list Rowset;
  max_version_unlocked : Z;
  get_all_rs_id_unlocked : Z -> Status * gset N;
}.

(** [std::sort] with the comparator [lhs->end_version() > rhs->end_version()]. *)
Definition end_version_ge (lhs rhs : Rowset) : Prop :=
  (end_version rhs <= end_version lhs)%Z.

#[global] Instance end_version_ge_dec : RelDecision end_version_ge.
Proof. intros lhs rhs. unfold end_version_ge. apply _. Defined.

Definition sort_by_end_version_desc (rowsets : list Rowset) : list Rowset :=
  merge_sort end_version_ge rowsets.

(** [BaseTablet::get_rowset_by_ids]; [None] is the null pointer. *)
Definition get_rowset_by_ids (tablet : Tablet) (specified_rowset_ids : option (gset N))
    : list Rowset :=
  sort_by_end_version_desc
    (List.filter (fun rs =>
                    match specified_rowset_ids with
                    | None => true
                    | Some ids => bool_decide (rowset_id rs ∈ ids)
                    end)
                 (rs_version_map tablet)).

Section Reconcile.

Variable in_key_range : BitmapKey -> BitmapKey -> BitmapKey -> bool.

(** The loop [for (const auto& to_del : rowset_ids_to_del)
    delete_bitmap->remove({to_del, 0, 0}, {to_del, UINT32_MAX, INT64_MAX})]. *)
Definition remove_rowsets (rowset_ids_to_del : gset N) (bm : DeleteBitmap) : DeleteBitmap :=
  set_fold (fun to_del acc =>
              DeleteBitmap.remove in_key_range (to_del, 0, 0) (to_del, UINT32_MAX, INT64_MAX) acc)
           bm rowset_ids_to_del.

(** What the reconciliation hands to the calculation. *)
Record Reconciled := mkReconciled {
  rowset_ids_to_add : gset N;
  rowset_ids_to_del : gset N;
  working_bitmap : gmap (N * N * N) (gset N);
  rowsets_skip_alignment : list Rowset;
  base_rowsets : list Rowset;            (* [specified_rowsets] *)
}.

(** [commit_phase_update_delete_bitmap], from the snapshot of the rowset ids
    to the call of [calc_delete_bitmap]. *)
Definition commit_phase_reconcile (tablet : Tablet) (cur_rowset_ids pre_rowset_ids : gset N)
    (delete_bitmap : DeleteBitmap) : Reconciled :=
  let '(to_add, to_del) := _rowset_ids_difference cur_rowset_ids pre_rowset_ids ∅ ∅ in
  let specified_rowsets := get_rowset_by_ids tablet (Some to_add) in
  mkReconciled to_add to_del (remove_rowsets to_del delete_bitmap) [] specified_rowsets.

(** [BaseTablet::commit_phase_update_delete_bitmap].  [calc] stands for the
    call of [calc_delete_bitmap] with the base rowsets, the bitmap and the
    version; the result carries the bitmap and the new [pre_rowset_ids]. *)
Definition commit_phase_update_delete_bitmap
    (calc : list Rowset -> DeleteBitmap -> Z -> option (Status * gmap (N * N * N) (gset N)))
    (tablet : Tablet) (pre_rowset_ids : gset N) (delete_bitmap : DeleteBitmap)
    : option (Status * gmap (N * N * N) (gset N) * gset N) :=
  if bool_decide (tablet_state (tablet_meta tablet) = TABLET_NOTREADY)
  then Some (OK, delete_bitmap, pre_rowset_ids)
  else
    let cur_version := max_version_unlocked tablet in
    let '(st, cur_rowset_ids) := get_all_rs_id_unlocked tablet cur_version in
    if negb (ok st) then Some (st, delete_bitmap, pre_rowset_ids)
    else
      let r := commit_phase_reconcile tablet cur_rowset_ids pre_rowset_ids delete_bitmap in
      '(s, bm) ← calc (base_rowsets r) (working_bitmap r) cur_version;
      if negb (ok s) then Some (s, bm, pre_rowset_ids)
      else Some (OK, bm, cur_rowset_ids).

(** The transaction as [update_delete_bitmap] reads it. *)
Record TabletTxnInfo := mkTabletTxnInfo {
  txn_rowset_ids : gset N;
  txn_delete_bitmap : gmap (N * N * N) (gset N);
  txn_partial_update_info : option PartialUpdateInfo;
  is_txn_load : bool;
  invisible_rowsets : list Rowset;
}.

Definition txn_is_partial_update (txn_info : TabletTxnInfo) : bool :=
  match txn_partial_update_info txn_info with
  | Some info => negb (bool_decide (partial_update_mode info = UPSERT))
  | None => false
  end.

(** [update_delete_bitmap], from [_rowset_ids_difference] to the calls of
    [calc_delete_bitmap]. *)
Definition publish_phase_reconcile (tablet : Tablet) (txn_info : TabletTxnInfo)
    (cur_rowset_ids : gset N) : Reconciled :=
  let delete_bitmap := txn_delete_bitmap txn_info in
  let '(to_add, to_del) :=
    _rowset_ids_difference cur_rowset_ids (txn_rowset_ids txn_info) ∅ ∅ in
  let bm := remove_rowsets to_del delete_bitmap in
  let specified_rowsets := get_rowset_by_ids tablet (Some to_add) in
  let specified_rowsets :=
    if is_txn_load txn_info
    then sort_by_end_version_desc (specified_rowsets ++ invisible_rowsets txn_info)
    else specified_rowsets in
  match txn_partial_update_info txn_info with
  | Some info =>
      if txn_is_partial_update txn_info then
        let skip rs :=
          bool_decide (end_version rs <= max_version_in_flush_phase info)%Z
          && produced_by_compaction rs in
        let rowsets_skip_alignment := List.filter skip specified_rowsets in
        let remained_rowsets := List.filter (fun rs => negb (skip rs)) specified_rowsets in
        match rowsets_skip_alignment with
        | [] => mkReconciled to_add to_del bm [] specified_rowsets
        | _ :: _ => mkReconciled to_add to_del bm rowsets_skip_alignment remained_rowsets
        end
      else mkReconciled to_add to_del bm [] specified_rowsets
  | None => mkReconciled to_add to_del bm [] specified_rowsets
  end.

End Reconcile.

(** ** Compaction: carrying the delete bitmap over to the output rowset *)

(** The entries of a bitmap in key order, and the rows of one entry in
    ascending order: the orders in which the source iterates them. *)
Definition entry_le (a b : N * N * N * gset N) : Prop :=
  DeleteBitmap.key_leb a.1 b.1 = true.

#[global] Instance entry_le_dec : RelDecision entry_le.
Proof. intros a b. unfold entry_le. apply _. Defined.

Definition sorted_entries (bm : DeleteBitmap) : list (N * N * N * gset N) :=
  merge_sort entry_le (map_to_list bm).

Definition sorted_rows (rows : gset N) : list N := merge_sort N.le (elements rows).

(** [std::map<RowsetSharedPtr, std::list<std::pair<RowLocation, RowLocation>>>]:
    the list stands for the map in its iteration order; a rowset is
    identified by its id. *)
Abbreviation LocationMap := (list (Rowset * list (RowLocation * RowLocation))) (only parsing).

(** The statement that appends [(src, dst)] to the list the location map
    holds for [rowset]. *)
Fixpoint location_map_emplace (rowset : Rowset) (pair : RowLocation * RowLocation)
    (location_map : LocationMap) : LocationMap :=
  match location_map with
  | [] => [(rowset, [pair])]
  | (rs, locations) :: rest =>
      if bool_decide (rowset_id rs = rowset_id rowset)
      then (rs, locations ++ [pair]) :: rest
      else (rs, locations) :: location_map_emplace rowset pair rest
  end.

(** The three outputs of [calc_compaction_output_rowset_delete_bitmap]; the
    first two are optional ([nullptr] is [None]). *)
Record CompactionOut := mkCompactionOut {
  missed_rows : option (gset RowLocation);
  location_map : option (list (Rowset * list (RowLocation * RowLocation)));
  output_rowset_delete_bitmap : gmap (N * N * N) (gset N);
}.

Section Compaction.

Variable in_key_range : BitmapKey -> BitmapKey -> BitmapKey -> bool.
(** [RowIdConversion::get(src, &dst)]: [Some dst] when it returns 0. *)
Variable rowid_conversion : RowLocation -> option RowLocation.

(** The body of the innermost loop, for one marked row. *)
Definition convert_row (rowset : Rowset) (seg_id cur_version : N) (out : CompactionOut)
    (row_id : N) : CompactionOut :=
  let src := mkRowLocation (rowset_id rowset) seg_id row_id in
  match rowid_conversion src with
  | None =>
      mkCompactionOut (union {[src]} <$> missed_rows out) (location_map out)
                      (output_rowset_delete_bitmap out)
  | Some dst =>
      mkCompactionOut
        (missed_rows out)
        (location_map_emplace rowset (src, dst) <$> location_map out)
        (DeleteBitmap.add (loc_rowset_id dst, loc_segment_id dst, cur_version)
                          (loc_row_id dst) (output_rowset_delete_bitmap out))
  end.

(** The loop over the versions of one segment. *)
Definition convert_entry (rowset : Rowset) (seg_id : N) (out : CompactionOut)
    (entry : N * N * N * gset N) : CompactionOut :=
  foldl (convert_row rowset seg_id entry.1.2) out (sorted_rows entry.2).

(** The loop over the segments of one input rowset. *)
Definition convert_segment (input_delete_bitmap : DeleteBitmap) (start_version end_version : N)
    (rowset : Rowset) (out : CompactionOut) (seg_id : nat) : CompactionOut :=
  let subset_map :=
    DeleteBitmap.subset in_key_range
      (rowset_id rowset, N.of_nat seg_id, start_version)
      (rowset_id rowset, N.of_nat seg_id, end_version) input_delete_bitmap in
  foldl (convert_entry rowset (N.of_nat seg_id)) out (sorted_entries subset_map).

Definition convert_rowset (input_delete_bitmap : DeleteBitmap) (start_version end_version : N)
    (out : CompactionOut) (rowset : Rowset) : CompactionOut :=
  foldl (convert_segment input_delete_bitmap start_version end_version rowset) out
        (seq 0 (num_segments rowset)).

(** [BaseTablet::calc_compaction_output_rowset_delete_bitmap] *)
Definition calc_compaction_output_rowset_delete_bitmap (input_rowsets : list Rowset)
    (start_version end_version : N) (input_delete_bitmap : DeleteBitmap)
    (out : CompactionOut) : CompactionOut :=
  foldl (convert_rowset input_delete_bitmap start_version end_version) out input_rowsets.

End Compaction.

(** ** Compaction: checking the row-id conversion *)

(** How the loop over the locations of one source rowset ends. *)
Inductive PairScan :=
  | PairsReturn (s : Status)   (* [return s] *)
  | PairsDone.                 (* end of the list, or [break] *)

(** The loop [for (auto& [src, dst] : locations)]. *)
Fixpoint check_locations (segments dst_segments : list Segment)
    (locations : list (RowLocation * RowLocation)) : option PairScan :=
  match locations with
  | [] => Some PairsDone
  | (src, dst) :: rest =>
      src_segment ← segments !! N.to_nat (loc_segment_id src);
      let '(s, src_key) := seg_read_key_by_rowid src_segment (loc_row_id src) in
      if is_code NOT_IMPLEMENTED_ERROR s then Some PairsDone
      else if negb (ok s) then Some (PairsReturn s)
      else
        dst_segment ← dst_segments !! N.to_nat (loc_segment_id dst);
        let '(s, dst_key) := seg_read_key_by_rowid dst_segment (loc_row_id dst) in
        if negb (ok s) then Some (PairsReturn s)
        else if negb (bool_decide (src_key = dst_key))
        then Some (PairsReturn INTERNAL_ERROR)
        else check_locations segments dst_segments rest
  end.

(** The loop [for (auto [src_rowset, locations] : location_map)];
    [input_rowsets_segment] caches the segments loaded per rowset id. *)
Fixpoint check_location_map (dst_segments : list Segment)
    (input_rowsets_segment : gmap N (list Segment))
    (location_map : LocationMap) : option Status :=
  match location_map with
  | [] => Some OK
  | (src_rowset, locations) :: rest =>
      let cached := default [] (input_rowsets_segment !! rowset_id src_rowset) in
      let '(st, segments) :=
        match cached with
        | [] => load_segments src_rowset
        | _ :: _ => (OK, cached)
        end in
      if negb (ok st) then Some st
      else
        scan ← check_locations segments dst_segments locations;
        match scan with
        | PairsReturn s => Some s
        | PairsDone =>
            check_location_map dst_segments
              (<[rowset_id src_rowset := segments]> input_rowsets_segment) rest
        end
  end.

(** [BaseTablet::check_rowid_conversion] *)
Definition check_rowid_conversion (dst_rowset : Rowset) (location_map : LocationMap)
    : option Status :=
  match location_map with
  | [] => Some OK
  | _ :: _ =>
      let '(st, dst_segments) := load_segments dst_rowset in
      if negb (ok st) then Some st
      else check_location_map dst_segments ∅ location_map
  end.

(** ** The per-round budget of the compaction producer *)

(** Modelled from the spec: the producer loop of the compaction scheduler
    ([StorageEngine::_compaction_tasks_producer_callback]) is outside the
    excerpt; only its test is present.  "empty queue -> double the budget
    (bounded at a configured ceiling), queue depth >= configured high-water
    mark -> halve the budget (bounded at a configured floor), otherwise hold
    steady." *)
Definition adjust_compaction_num_per_round (floor ceiling high_water : Z)
    (budget queue_depth : Z) : Z :=
  if (queue_depth =? 0)%Z then Z.min (2 * budget) ceiling
  else if (high_water <=? queue_depth)%Z then Z.max (budget / 2) floor
  else budget.

(** ** Rebuilding the rows of a fixed partial update *)

Record ColumnWithTypeAndName := mkColumn {
  col_name : string;
  col_data : list Cell;
}.

Abbreviation Block := (list ColumnWithTypeAndName) (only parsing).

(** The name of the hidden delete-sign column ([DELETE_SIGN], declared
    outside the excerpt). *)
Definition DELETE_SIGN : string := "__DORIS_DELETE_SIGN__".

(** [BaseTablet::get_delete_sign_column_data]; [None] is the null pointer. *)
Definition get_delete_sign_column_data (block : Block) (rows_at_least : nat)
    : option (list Cell) :=
  match List.find (fun c => String.eqb (col_name c) DELETE_SIGN) block with
  | Some delete_sign_column =>
      if bool_decide (rows_at_least <= List.length (col_data delete_sign_column))%nat
      then Some (col_data delete_sign_column) else None
  | None => None
  end.

(** A delete sign read as a condition ([signs[idx]], [signs[idx] != 0]). *)
Definition sign_is_set (c : Cell) : bool :=
  match c with
  | Val z => negb (z =? 0)%Z
  | Null => false
  end.

(** [column->insert_default()]: null for a nullable column, the type's
    default otherwise. *)
Definition insert_default (rs_column : TabletColumn) : Cell :=
  if is_nullable rs_column then Null else get_default rs_column.

(** The columns of the block under construction, by column id. *)
Abbreviation MutableColumns := (nat -> list Cell) (only parsing).

Definition append_cell (cid : nat) (c : Cell) (columns : MutableColumns) : MutableColumns :=
  <[cid := columns cid ++ [c]]> columns.

Fixpoint foldlM {A B : Type} (f : B -> A -> option B) (l : list A) (b : B) : option B :=
  match l with
  | [] => Some b
  | a :: rest => b' ← f b a; foldlM f rest b'
  end.

Section PartialUpdate.

(** Parsing a declared default ([IDataType::from_string]) and executing a
    read plan ([FixedReadPlan::read_columns_by_plan], given the plan, the
    column ids, whether the delete sign is read too, and the delete signs
    of the new rows) are outside the excerpt.  The reader yields a status,
    the block it filled and the index from rows of the final block to rows
    of that block. *)
Variable from_string : TabletColumn -> string -> Status * Cell.
Variable read_columns_by_plan :
  FixedReadPlan -> list nat -> bool -> option (list Cell) -> Status * Block * gmap nat nat.

Variable rowset_schema : TabletSchema.
Variable partial_update_info : PartialUpdateInfo.

(** [BaseTablet::generate_default_value_block], from position [i] on: one
    column per id, holding the parsed default when the column declares one. *)
Fixpoint generate_default_value_block (cids : list nat) (i : nat)
    : option (Status * list (list Cell)) :=
  match cids with
  | [] => Some (OK, [])
  | cid :: rest =>
      let column := column rowset_schema cid in
      if has_default_value column then
        default_value ← default_values partial_update_info !! i;
        let '(s, c) := from_string column default_value in
        if negb (ok s) then Some (s, [])
        else
          '(s', columns) ← generate_default_value_block rest (S i);
          Some (s', [c] :: columns)
      else
        '(s', columns) ← generate_default_value_block rest (S i);
        Some (s', [] :: columns)
  end.

Definition have_input_seq_column : bool :=
  if has_sequence_col rowset_schema
  then bool_decide (sequence_col_idx rowset_schema ∈ update_cids partial_update_info)
  else false.

(** The first loop nest: the update columns are copied from the rows read
    from the current rowset. *)
Definition fill_update_cell (update_block : Block) (read_index_update : gmap nat nat)
    (i : nat) (columns : MutableColumns) (idx : nat) : option (nat -> list Cell) :=
  cid ← update_cids partial_update_info !! i;
  col ← update_block !! i;
  c ← col_data col !! default 0%nat (read_index_update !! idx);
  Some (append_cell cid c columns).

Section MissingCell.

Variable new_block_delete_signs old_block_delete_signs : option (list Cell).
Variable old_block : Block.
Variable read_index_old : gmap nat nat.
Variable default_value_block : list (list Cell).

(** [bool new_row_delete_sign] *)
Definition new_row_delete_sign (idx : nat) : option bool :=
  match new_block_delete_signs with
  | Some signs => sign_is_set <$> signs !! idx
  | None => Some false
  end.

(** [bool old_row_delete_sign]; [read_index_old.at(idx)] throws when the
    index has no entry. *)
Definition old_row_delete_sign (idx : nat) : option bool :=
  match old_block_delete_signs with
  | Some signs => r ← read_index_old !! idx; sign_is_set <$> signs !! r
  | None => Some false
  end.

(** [bool use_default], given [old_row_delete_sign]. *)
Definition use_default (rs_column : TabletColumn) (old_sign : bool) : bool :=
  if old_sign then
    if negb (has_sequence_col rowset_schema) then true
    else if have_input_seq_column || negb (is_seqeunce_col rs_column) then true
    else false
  else false.

(** The value the [use_default] branch inserts into column [i]. *)
Definition default_cell (rs_column : TabletColumn) (i : nat) : option Cell :=
  if has_default_value rs_column then
    column ← default_value_block !! i; column !! 0%nat
  else if is_nullable rs_column then Some Null
  else Some (get_default rs_column).

(** The value read from the old row into column [i]. *)
Definition old_cell (i idx : nat) : option Cell :=
  col ← old_block !! i;
  col_data col !! default 0%nat (read_index_old !! idx).

(** The body of the second loop nest: the cell of missing column [i] in row
    [idx] of the final block. *)
Definition missing_cell (i idx : nat) : option Cell :=
  cid ← missing_cids partial_update_info !! i;
  let rs_column := column rowset_schema cid in
  new_sign ← new_row_delete_sign idx;
  if new_sign : bool then Some (insert_default rs_column)
  else
    old_sign ← old_row_delete_sign idx;
    if use_default rs_column old_sign then default_cell rs_column i
    else old_cell i idx.

Definition fill_missing_cell (i : nat) (columns : MutableColumns) (idx : nat)
    : option (nat -> list Cell) :=
  cid ← missing_cids partial_update_info !! i;
  c ← missing_cell i idx;
  Some (append_cell cid c columns).

End MissingCell.

(** [BaseTablet::generate_new_block_for_partial_update]: the status and the
    columns of [output_block]. *)
Definition generate_new_block_for_partial_update
    (read_plan_ori read_plan_update : FixedReadPlan) (full_mutable_columns : MutableColumns)
    : option (Status * (nat -> list Cell)) :=
  let missing := missing_cids partial_update_info in
  let update := update_cids partial_update_info in
  let '(s, update_block, read_index_update) :=
    read_columns_by_plan read_plan_update update false None in
  if negb (ok s) then Some (s, full_mutable_columns)
  else
    let update_rows := size read_index_update in
    columns ← foldlM (fun columns i =>
                        foldlM (fill_update_cell update_block read_index_update i)
                               (seq 0 update_rows) columns)
                     (seq 0 (List.length update)) full_mutable_columns;
    let new_block_delete_signs :=
      if has_sequence_col rowset_schema then None
      else get_delete_sign_column_data update_block update_rows in
    let '(s, old_block, read_index_old) :=
      read_columns_by_plan read_plan_ori missing true new_block_delete_signs in
    if negb (ok s) then Some (s, columns)
    else
      let old_rows := size read_index_old in
      let old_block_delete_signs := get_delete_sign_column_data old_block old_rows in
      '(s, default_value_block) ← generate_default_value_block missing 0;
      if negb (ok s) then Some (s, columns)
      else if negb (bool_decide (old_rows <= update_rows)%nat) then None  (* [CHECK] *)
      else
        columns ← foldlM (fun columns i =>
                            foldlM (fill_missing_cell new_block_delete_signs
                                      old_block_delete_signs old_block read_index_old
                                      default_value_block i)
                                   (seq 0 update_rows) columns)
                         (seq 0 (List.length missing)) columns;
        Some (OK, columns).

End PartialUpdate.

(** ** Vocabulary of the statements below *)

(** The state a step of the key loop leaves behind. *)
Definition step_state (step : KeyStep) : CalcState :=
  match step with
  | StepReturn _ st => st
  | StepNext st => st
  end.

(** Row [row_id] of segment [seg_id] of the input rowset [rs] carries a
    delete mark at a version [v] that the range from [start_version] to
    [end_version] selects. *)
Definition marked_in_range (in_key_range : BitmapKey -> BitmapKey -> BitmapKey -> bool)
    (input_rowsets : list Rowset) (start_version end_version : N)
    (input_delete_bitmap : DeleteBitmap) (rs : Rowset) (seg_id : nat) (v row_id : N)
    : Prop :=
  rs ∈ input_rowsets
  /\ (seg_id < num_segments rs)%nat
  /\ (exists rows, input_delete_bitmap !! (rowset_id rs, N.of_nat seg_id, v) = Some rows
                   /\ row_id ∈ rows)
  /\ in_key_range (rowset_id rs, N.of_nat seg_id, start_version)
                  (rowset_id rs, N.of_nat seg_id, end_version)
                  (rowset_id rs, N.of_nat seg_id, v) = true.

(** A property of the compaction output that every step of the innermost
    loop keeps. *)
Definition kept_by_steps (rowid_conversion : RowLocation -> option RowLocation)
    (Q : CompactionOut -> Prop) : Prop :=
  forall rs seg_id v out row_id,
    Q out -> Q (convert_row rowid_conversion rs seg_id v out row_id).

(** The pairs of one source rowset that [check_rowid_conversion] verifies:
    those before the first pair whose source segment cannot read keys by
    row id (an index of an old version). *)
Fixpoint verified_pairs (segments : list Segment)
    (locations : list (RowLocation * RowLocation)) : list (RowLocation * RowLocation) :=
  match locations with
  | [] => []
  | (src, dst) :: rest =>
      match segments !! N.to_nat (loc_segment_id src) with
      | Some src_segment =>
          if is_code NOT_IMPLEMENTED_ERROR
               (seg_read_key_by_rowid src_segment (loc_row_id src)).1
          then [] else (src, dst) :: verified_pairs segments rest
      | None => []
      end
  end.

(** The key read at the source row id equals the key read at the
    destination row id. *)
Definition keys_agree (segments dst_segments : list Segment)
    (pair : RowLocation * RowLocation) : bool :=
  match segments !! N.to_nat (loc_segment_id pair.1),
        dst_segments !! N.to_nat (loc_segment_id pair.2) with
  | Some src_segment, Some dst_segment =>
      bool_decide ((seg_read_key_by_rowid src_segment (loc_row_id pair.1)).2
                   = (seg_read_key_by_rowid dst_segment (loc_row_id pair.2)).2)
  | _, _ => false
  end.

Definition all_verified_agree (dst_segments : list Segment) (location_map : LocationMap)
    : bool :=
  forallb (fun entry : Rowset * list (RowLocation * RowLocation) =>
             forallb (keys_agree (load_segments entry.1).2 dst_segments)
                     (verified_pairs (load_segments entry.1).2 entry.2))
          location_map.

(** No segment fails to load and no key fails to be read: every location
    names a segment that exists, a source read ends in OK or
    NOT_IMPLEMENTED_ERROR, a destination read in OK. *)
Definition reads_succeed (dst_segments : list Segment) (location_map : LocationMap) : Prop :=
  forall entry, entry ∈ location_map ->
    (load_segments entry.1).1 = OK
    /\ forall pair, pair ∈ entry.2 ->
         exists src_segment dst_segment,
           (load_segments entry.1).2 !! N.to_nat (loc_segment_id pair.1) = Some src_segment
           /\ dst_segments !! N.to_nat (loc_segment_id pair.2) = Some dst_segment
           /\ ((seg_read_key_by_rowid src_segment (loc_row_id pair.1)).1 = OK
               \/ (seg_read_key_by_rowid src_segment (loc_row_id pair.1)).1
                  = NOT_IMPLEMENTED_ERROR)
           /\ (seg_read_key_by_rowid dst_segment (loc_row_id pair.2)).1 = OK.

(** *** The candidates of a lookup, in scan order *)

Section Candidates.

Variable key_is_not_in_segment : Slice -> KeyBoundsPB -> bool -> bool.
Variable encoded_key : string.
Variable key_without_seq : Slice.
Variable with_seq_col with_rowid : bool.
Variable version : N.
Variable bm : gmap (N * N * N) (gset N).

(** The ids of the segments of [rs] that the bounds check does not rule out,
    highest id first. *)
Definition picked_ids (rs : Rowset) : list nat :=
  List.filter (fun j => match segments_key_bounds rs !! j with
                        | Some bounds =>
                            negb (key_is_not_in_segment key_without_seq bounds
                                    (is_segments_key_bounds_truncated rs))
                        | None => false
                        end)
              (descending_ids (num_segments rs)).

Definition rowset_candidates (rs : Rowset) : list Segment :=
  omap (fun j => (load_segments rs).2 !! j) (picked_ids rs).

Definition candidates (rowsets : list Rowset) : list (Rowset * Segment) :=
  List.concat ((fun rs => (fun sg => (rs, sg)) <$> rowset_candidates rs) <$> rowsets).

(** What the primary-key index of a candidate segment answers. *)
Definition probe (sg : Segment) : Status * RowLocation :=
  seg_lookup_row_key sg encoded_key with_seq_col with_rowid.

(** The segment holds the key, with status OK, at a row that the delete
    bitmap aggregated up to [version] covers. *)
Definition is_deleted_hit (sg : Segment) : bool :=
  ok (probe sg).1
  && DeleteBitmap.contains_agg_without_cache
       (loc_rowset_id (probe sg).2, loc_segment_id (probe sg).2, version)
       (loc_row_id (probe sg).2) bm.

(** The segment holds an occurrence that the lookup reports: it is found
    and is not a deleted hit, that is, it is live or KEY_ALREADY_EXISTS. *)
Definition is_reported (sg : Segment) : bool :=
  negb (is_code KEY_NOT_FOUND (probe sg).1) && negb (is_deleted_hit sg).

(** The candidates of one rowset whose index the scan consults, as long as
    none of them makes it return: in a schema with sequence column all of
    them; otherwise those down to the first deleted hit, at which the scan
    of the rowset breaks off. *)
Fixpoint consulted (has_seq_col : bool) (segments : list Segment) : list Segment :=
  match segments with
  | [] => []
  | sg :: rest =>
      if negb has_seq_col && is_deleted_hit sg then [sg]
      else sg :: consulted has_seq_col rest
  end.

Definition consulted_candidates (schema : TabletSchema) (rowsets : list Rowset)
    : list (Rowset * Segment) :=
  List.concat ((fun rs => (fun sg => (rs, sg))
                            <$> consulted (has_sequence_col schema) (rowset_candidates rs))
                 <$> rowsets).

End Candidates.

(** The schema and the key prefix that [lookup_row_key] works with. *)
Definition lookup_schema (tablet_schema : TabletSchema) (latest_schema : option TabletSchema)
    : TabletSchema :=
  default tablet_schema latest_schema.

Definition lookup_key_without_seq (ROW_ID_LENGTH : nat) (schema : TabletSchema)
    (with_seq_col with_rowid : bool) (encoded_key : string) : Slice :=
  drop_suffix
    ((if has_sequence_col schema && with_seq_col
      then (col_length (column schema (sequence_col_idx schema)) + 1)%nat else 0%nat)
     + (if with_rowid && negb (bool_decide (cluster_key_uids schema = []))
        then ROW_ID_LENGTH else 0%nat))
    encoded_key.

(** ** The version maps of a tablet *)

(** A [Version] is the pair [(first, second)] of the versions a rowset
    spans.  [_rs_version_map] holds the visible rowsets of the tablet by
    version, [_stale_rs_version_map] those that a compaction has replaced
    and that are kept until they expire. *)
Abbreviation Version := (Z * Z)%type (only parsing).

Record RowsetMaps := mkRowsetMaps {
  _rs_version_map : gmap (Z * Z) Rowset;
  _stale_rs_version_map : gmap (Z * Z) Rowset;
}.

(** The member functions that work on the version maps.  (The name
    [get_all_rs_id_unlocked] is also that of the field of [Tablet] that
    stands for the outcome of this function.) *)
Module BaseTablet.

Section VersionMaps.

Variable maps : RowsetMaps.
(** [_timestamped_version_tracker.capture_consistent_versions(spec_version,
    &version_path)]: the version graph is declared outside the excerpt. *)
Variable capture_consistent_versions : Z * Z -> Status * list (Z * Z).

(** [BaseTablet::get_stale_rowset_by_version]; [None] is the null pointer. *)
Definition get_stale_rowset_by_version (version : Version) : option Rowset :=
  _stale_rs_version_map maps !! version.

(** [BaseTablet::get_rowset_by_version] *)
Definition get_rowset_by_version (version : Version) (find_in_stale : bool)
    : option Rowset :=
  match _rs_version_map maps !! version with
  | None => if find_in_stale then get_stale_rowset_by_version version else None
  | Some rowset => Some rowset
  end.

(** The loop [for (auto& ver : version_path)] of [get_all_rs_id_unlocked]. *)
Fixpoint collect_rs_ids (version_path : list Version) (rowset_ids : gset N)
    : Status * gset N :=
  match version_path with
  | [] => (OK, rowset_ids)
  | ver :: rest =>
      (* [0-1] rowset is empty for each tablet, skip it *)
      if (ver.2 =? 1)%Z then collect_rs_ids rest rowset_ids
      else
        match _rs_version_map maps !! ver with
        | None => (CAPTURE_ROWSET_ERROR, rowset_ids)
        | Some rowset => collect_rs_ids rest ({[rowset_id rowset]} ∪ rowset_ids)
        end
  end.

(** [BaseTablet::get_all_rs_id_unlocked]: the status, and the set behind
    [rowset_ids] as the call leaves it. *)
Definition get_all_rs_id_unlocked (max_version : Z) (rowset_ids : gset N)
    : Status * gset N :=
  let spec_version := (0%Z, max_version) in
  let '(st, version_path) := capture_consistent_versions spec_version in
  if negb (ok st) then (st, rowset_ids)
  else collect_rs_ids version_path rowset_ids.

(** [BaseTablet::_capture_consistent_rowsets_unlocked]: the status, and the
    vector behind [rowsets] as the call leaves it. *)
Fixpoint _capture_consistent_rowsets_unlocked (version_path : list Version)
    (rowsets : list Rowset) : Status * list Rowset :=
  match version_path with
  | [] => (OK, rowsets)
  | version :: rest =>
      match _rs_version_map maps !! version with
      | Some rowset => _capture_consistent_rowsets_unlocked rest (rowsets ++ [rowset])
      | None =>
          match _stale_rs_version_map maps !! version with
          | Some rowset => _capture_consistent_rowsets_unlocked rest (rowsets ++ [rowset])
          | None => (CAPTURE_ROWSET_ERROR, rowsets)
          end
      end
  end.

(** [BaseTablet::get_snapshot_rowset]; the rowsets come in the iteration
    order of the maps. *)
Definition get_snapshot_rowset (include_stale_rowset : bool) : list Rowset :=
  (snd <$> map_to_list (_rs_version_map maps))
  ++ (if include_stale_rowset then snd <$> map_to_list (_stale_rs_version_map maps)
      else []).

(** [BaseTablet::get_rowset]: the first rowset with the id, in the visible
    map or else in the stale one. *)
Definition get_rowset (id : RowsetId) : option Rowset :=
  match List.find (fun rs => bool_decide (rowset_id rs = id))
                  (snd <$> map_to_list (_rs_version_map maps)) with
  | Some rowset => Some rowset
  | None =>
      List.find (fun rs => bool_decide (rowset_id rs = id))
                (snd <$> map_to_list (_stale_rs_version_map maps))
  end.

(** The tablet as the reconciliation sees it, built from the version maps:
    its rowsets are those of the visible map, and its rowset ids are
    collected by [get_all_rs_id_unlocked] into an empty set. *)
Definition tablet_view (meta : TabletMeta) (max_version : Z) : Tablet :=
  mkTablet meta (snd <$> map_to_list (_rs_version_map maps)) max_version
           (fun v => get_all_rs_id_unlocked v ∅).

End VersionMaps.

End BaseTablet.

(** ** Runs of empty rowsets *)

Section EmptyRowsets.

(** [rowset->start_version()] and
    [rowset->rowset_meta()->has_delete_predicate()], accessors that the
    record [Rowset] above does not carry. *)
Variable start_version : Rowset -> Z.
Variable has_delete_predicate : Rowset -> bool.

(** The condition of the loop [while (next_index < len && ...)] on the
    candidate at [next_index], given the last rowset of the run. *)
Definition continues_run (rowset candidate : Rowset) : bool :=
  bool_decide (num_segments candidate = 0%nat)
  && negb (has_delete_predicate candidate)
  && bool_decide (end_version rowset = start_version candidate - 1)%Z.

(** The loop [while (next_index < len && ...)]; [rest] holds the candidates
    from [next_index] on.  It yields [empty_rowsets] and [next_index]. *)
Fixpoint keep_searching (rowset : Rowset) (rest : list Rowset) (empty_rowsets : list Rowset)
    (next_index : nat) : list Rowset * nat :=
  match rest with
  | [] => (empty_rowsets, next_index)
  | candidate :: rest' =>
      if continues_run rowset candidate
      then keep_searching candidate rest' (empty_rowsets ++ [candidate]) (S next_index)
      else (empty_rowsets, next_index)
  end.

(** The loop [for (int i = 0; i < len - 1; ++i)] from index [i] on; the
    comparison of [empty_rowsets->size()] with the signed [limit] is made
    in the unsigned type.  [fuel] bounds the number of rounds. *)
Fixpoint search_from (fuel : nat) (candidate_rowsets : list Rowset) (limit : Z) (i : nat)
    (empty_rowsets : list Rowset) : option (list Rowset) :=
  let len := List.length candidate_rowsets in
  if negb (Z.of_nat i <? Z.of_nat len - 1)%Z then Some empty_rowsets
  else
    match fuel with
    | O => None
    | S fuel' =>
        rowset ← candidate_rowsets !! i;
        next_rowset ← candidate_rowsets !! (i + 1)%nat;
        (* identify two consecutive rowsets that are empty *)
        if bool_decide (num_segments rowset = 0%nat)
           && bool_decide (num_segments next_rowset = 0%nat)
           && negb (has_delete_predicate rowset)
           && negb (has_delete_predicate next_rowset)
           && bool_decide (end_version rowset = start_version next_rowset - 1)%Z
        then
          let empty_rowsets := empty_rowsets ++ [rowset; next_rowset] in
          let next_index := (i + 2)%nat in
          (* keep searching for consecutive empty rowsets *)
          let '(empty_rowsets, next_index) :=
            keep_searching next_rowset (drop next_index candidate_rowsets) empty_rowsets
                           next_index in
          (* if the number of consecutive empty rowset reach the limit,
             and there are still rowsets following them *)
          if (limit mod 2 ^ 64 <=? Z.of_nat (List.length empty_rowsets))%Z
             && (next_index <? len)%nat
          then Some empty_rowsets
          else search_from fuel' candidate_rowsets limit next_index []
        else search_from fuel' candidate_rowsets limit (i + 1)%nat empty_rowsets
    end.

(** [BaseTablet::calc_consecutive_empty_rowsets]: the vector behind
    [empty_rowsets] as the call leaves it. *)
Definition calc_consecutive_empty_rowsets (empty_rowsets : list Rowset)
    (candidate_rowsets : list Rowset) (limit : Z) : option (list Rowset) :=
  search_from (List.length candidate_rowsets) candidate_rowsets limit 0 empty_rowsets.

(** A rowset without segments and without delete predicate. *)
Definition is_empty_rowset (rowset : Rowset) : bool :=
  bool_decide (num_segments rowset = 0%nat) && negb (has_delete_predicate rowset).

(** Each rowset of the list starts where the one before it ends. *)
Fixpoint versions_consecutive (rowsets : list Rowset) : Prop :=
  match rowsets with
  | rowset :: (next_rowset :: _) as rest =>
      end_version rowset = (start_version next_rowset - 1)%Z /\ versions_consecutive rest
  | _ => True
  end.

End EmptyRowsets.

(** ** The schema of the highest version *)

(** [std::max_element(first, last, comp)] on a non-empty range, as the
    standard library computes it: the running maximum [largest] is replaced
    by an element [x] when [comp largest x] holds. *)
Fixpoint max_element {A : Type} (comp : A -> A -> bool) (largest : A) (rest : list A) : A :=
  match rest with
  | [] => largest
  | x :: rest' => max_element comp (if comp largest x then x else largest) rest'
  end.

Section MaxVersionSchema.

(** [schema_version()] and [num_variant_columns()] of a tablet schema,
    accessors that the record [TabletSchema] above does not carry, and the
    schema that [schema_util::get_least_common_schema(schemas, nullptr,
    target_schema)] leaves in [target_schema] (it is declared outside the
    excerpt, and the caller discards its status). *)
Variable schema_version : TabletSchema -> Z.
Variable num_variant_columns : TabletSchema -> nat.
Variable get_least_common_schema : list (option TabletSchema) -> TabletSchema -> TabletSchema.

(** The comparator that [tablet_schema_with_merged_max_schema_version]
    passes to [std::max_element]; a rowset meta is represented by its
    [tablet_schema()], which may be null. *)
Definition schema_version_less (a b : option TabletSchema) : bool :=
  match a with
  | None => true
  | Some a_schema =>
      match b with
      | None => false
      | Some b_schema => (schema_version a_schema <? schema_version b_schema)%Z
      end
  end.

(** [BaseTablet::tablet_schema_with_merged_max_schema_version].  On an
    empty vector the end iterator is dereferenced, and on a null schema a
    null pointer: both are [None]. *)
Definition tablet_schema_with_merged_max_schema_version
    (rowset_metas : list (option TabletSchema)) : option TabletSchema :=
  match rowset_metas with
  | [] => None
  | first :: rest =>
      target_schema ← max_element schema_version_less first rest;
      if (0 <? num_variant_columns target_schema)%nat
      then Some (get_least_common_schema rowset_metas target_schema)
      else Some target_schema
  end.

(** The choice of [_max_version_schema] in the constructor
    [BaseTablet::BaseTablet], given [_tablet_meta->tablet_schema()] and the
    schemas of [_tablet_meta->all_rs_metas()]. *)
Definition constructor_max_version_schema (meta_schema : TabletSchema)
    (all_rs_metas : list (option TabletSchema)) : option TabletSchema :=
  match all_rs_metas with
  | [] => Some meta_schema
  | None :: _ => Some meta_schema
  | Some _ :: _ => tablet_schema_with_merged_max_schema_version all_rs_metas
  end.

(** [BaseTablet::update_max_version_schema]: the new [_max_version_schema]. *)
Definition update_max_version_schema (_max_version_schema : option TabletSchema)
    (tablet_schema : TabletSchema) : option TabletSchema :=
  match _max_version_schema with
  | None => Some tablet_schema
  | Some current =>
      if (schema_version current <? schema_version tablet_schema)%Z
      then Some tablet_schema else Some current
  end.

End MaxVersionSchema.

(** ** Thread-pool sizes of the execution environment *)

(** [get_num_threads] (in the part of
    [be/test/olap/compaction_task_test.cpp] that sets up the execution
    environment), on [size_t] values; [num_cores] is the [int] that
    [CpuInfo::num_cores()] returns, converted to [size_t] where it meets
    one.  A division by zero is [None]. *)
Definition get_num_threads (num_cores : Z) (min_num max_num : Z) : option (Z * Z) :=
  let num_cores := (num_cores mod 2 ^ 64)%Z in
  let min_num := if (min_num =? 0)%Z then num_cores else min_num in
  let max_num := if (max_num =? 0)%Z then num_cores else max_num in
  if (min_num =? 0)%Z then None
  else
    let factor := (max_num / min_num)%Z in
    let min_num := Z.min ((num_cores * factor) mod 2 ^ 64) min_num in
    let max_num := Z.min ((min_num * factor) mod 2 ^ 64) max_num in
    Some (min_num, max_num).

(** * Worked instances

    Concrete tablets, rowsets and segments on which the definitions above
    are evaluated. *)

Module Ex.

Local Open Scope string_scope.

(** A bounds check without truncation: the key is outside [min_key,
    max_key].  A slice that does not lie within its buffer rules nothing
    out. *)
Definition key_out_of_bounds (key : Slice) (bounds : KeyBoundsPB) (truncated : bool) : bool :=
  match slice_to_string key with
  | Some k => String.ltb k (min_key bounds) || String.ltb (max_key bounds) k
  | None => false
  end.

Definition plain_column : TabletColumn := mkTabletColumn 8 false false false (Val 0).

(** A schema without sequence column and without cluster keys. *)
Definition schema : TabletSchema := mkTabletSchema false 0 (fun _ => plain_column) [].

(** A schema whose column 2 is the sequence column. *)
Definition seq_column : TabletColumn := mkTabletColumn 8 false false true (Val 0).
Definition seq_schema : TabletSchema :=
  mkTabletSchema true 2 (fun cid => if Nat.eqb cid 2 then seq_column else plain_column) [].

Definition no_loc : RowLocation := mkRowLocation 0 0 0.

(** A segment that holds exactly the given keys: key number [n] of [keys]
    is row [n]; a lookup never reports [KEY_ALREADY_EXISTS]. *)
Fixpoint index_of (key : string) (keys : list string) : option nat :=
  match keys with
  | [] => None
  | k :: rest => if String.eqb k key then Some 0%nat else S <$> index_of key rest
  end.

Definition plain_segment (rsid id : N) (keys : list string) : Segment :=
  mkSegment id
    (fun key _ _ =>
       match index_of key keys with
       | Some n => (OK, mkRowLocation rsid id (N.of_nat n))
       | None => (KEY_NOT_FOUND, no_loc)
       end)
    keys OK
    (fun row => match keys !! N.to_nat row with
                | Some k => (OK, k)
                | None => (NOT_FOUND, EmptyString)
                end).

Definition wide_bounds : KeyBoundsPB := mkKeyBoundsPB "a" "z".

Definition plain_rowset (rsid : N) (version : Z) (segments : list Segment) : Rowset :=
  mkRowset rsid (List.length segments) (List.map (fun _ => wide_bounds) segments)
           false version false (OK, segments).

Definition meta : TabletMeta := mkTabletMeta TABLET_RUNNING ∅.

Definition no_decode (s : Slice) : Status * N := (OK, 0).
Definition flush_ok (st : CalcState) : Status := OK.

(** The base rowset 7 (version 2) holds keys k1, k3 in its segment 0; the
    new rowset 9 writes k1, k2 in its segment 0. *)
Definition base_rowset : Rowset := plain_rowset 7 2 [plain_segment 7 0 ["k1"; "k3"]].
Definition new_segment : Segment := plain_segment 9 0 ["k1"; "k2"].
Definition new_rowset : Rowset := plain_rowset 9 3 [new_segment].

Definition check_on : Config := mkConfig true.
Definition check_off : Config := mkConfig false.

Definition calc (config : Config) (rowset_writer : option RowsetWriter)
    : option (Status * gmap (N * N * N) (gset N)) :=
  calc_segment_delete_bitmap key_out_of_bounds 5 no_decode flush_ok config schema meta
    new_rowset schema new_segment [base_rowset] 2 rowset_writer None ∅.

(** A tablet whose only visible rowset is the base rowset 7, and a
    transactional load that was started before rowset 7 was visible and that
    carries rowset 5 among its invisible rowsets. *)
Definition tablet : Tablet :=
  mkTablet meta [base_rowset] 2 (fun _ => (OK, {[7%N]})).

Definition invisible_rowset : Rowset := plain_rowset 5 4 [plain_segment 5 0 ["k1"]].

Definition txn_load : TabletTxnInfo :=
  mkTabletTxnInfo ∅ {[(3%N, 0%N, 0%N) := {[1%N]}]} None true [invisible_rowset].

Definition txn_plain : TabletTxnInfo :=
  mkTabletTxnInfo {[3%N]} {[(3%N, 0%N, 0%N) := {[1%N]}]} None false [].

(** A compaction of the base rowset 7 into rowset 8: row 0 of segment 0 is
    carried to row 0 of the output, row 1 was dropped by the merge.  The
    tablet's bitmap marks both rows at version 3. *)
Definition conversion (src : RowLocation) : option RowLocation :=
  if bool_decide (src = mkRowLocation 7 0 0) then Some (mkRowLocation 8 0 0) else None.

Definition input_bitmap : gmap (N * N * N) (gset N) := {[(7%N, 0%N, 3%N) := {[0%N; 1%N]}]}.

Definition compaction_out : CompactionOut :=
  calc_compaction_output_rowset_delete_bitmap DeleteBitmap.half_open_range conversion
    [base_rowset] 0 4 input_bitmap (mkCompactionOut (Some ∅) (Some []) ∅).

(** The output rowset 8 of that compaction, and a location map that pairs
    row 0 of the input with row 0 of the output (the same key k1) - and one
    that pairs row 1 of the input (k3) with it. *)
Definition output_rowset : Rowset := plain_rowset 8 3 [plain_segment 8 0 ["k1"]].

Definition good_location_map : list (Rowset * list (RowLocation * RowLocation)) :=
  [(base_rowset, [(mkRowLocation 7 0 0, mkRowLocation 8 0 0)])].

Definition bad_location_map : list (Rowset * list (RowLocation * RowLocation)) :=
  [(base_rowset, [(mkRowLocation 7 0 1, mkRowLocation 8 0 0)])].

(** A rowset whose two segments both hold k1.  The tablet's bitmap covers
    the occurrence in the higher segment 1, not the one in segment 0. *)
Definition two_segment_rowset : Rowset :=
  plain_rowset 7 2 [plain_segment 7 0 ["k1"]; plain_segment 7 1 ["k1"]].

Definition meta_high_deleted : TabletMeta :=
  mkTabletMeta TABLET_RUNNING {[(7%N, 1%N, 2%N) := {[0%N]}]}.

(** A segment whose index answers one key with a given status, at row 0. *)
Definition answering_segment (rsid : N) (key : string) (status : Status) : Segment :=
  mkSegment 0
    (fun k _ _ => if String.eqb k key then (status, mkRowLocation rsid 0 0)
                  else (KEY_NOT_FOUND, no_loc))
    [key] OK (fun _ => (OK, key)).

(** A table with a sequence column.  The key carries the nine bytes of its
    encoded sequence value.  Rowset 6 (newest) holds the key with a higher
    sequence value, so its index answers KEY_ALREADY_EXISTS; rowset 5 holds
    it with a lower one.  The row of rowset 6 is covered by the bitmap. *)
Definition seq_key : string := "k1000000003".

Definition newer_rowset : Rowset :=
  plain_rowset 6 3 [answering_segment 6 seq_key KEY_ALREADY_EXISTS].
Definition older_rowset : Rowset := plain_rowset 5 2 [answering_segment 5 seq_key OK].

Definition meta_newer_deleted : TabletMeta :=
  mkTabletMeta TABLET_RUNNING {[(6%N, 0%N, 3%N) := {[0%N]}]}.

(** The table of the partial-update scenario: key k (column 0), c1 (column
    1), c2 (column 2) and the delete sign (column 3); no sequence column.
    The old row is (k=1, c1=97, c2=98), not deleted.  The reader hands back
    the rows a plan names: for the new rows the update columns, for the old
    rows column c1 and the delete sign. *)
Definition old_block : list ColumnWithTypeAndName :=
  [mkColumn "c1" [Val 97]; mkColumn DELETE_SIGN [Val 0]].

Definition one_row : gmap nat nat := {[0%nat := 0%nat]}.

(** The incoming row (k=1, c2=122). *)
Definition update_info : PartialUpdateInfo :=
  mkPartialUpdateInfo UPDATE_FIXED_COLUMNS [0%nat; 2%nat] [1%nat; 3%nat] [""; "0"] 2.

Definition update_block : list ColumnWithTypeAndName :=
  [mkColumn "k" [Val 1]; mkColumn "c2" [Val 122]].

(** The incoming row (k=1, c2=122) with its delete sign set: a delete
    written as a partial update. *)
Definition delete_info : PartialUpdateInfo :=
  mkPartialUpdateInfo UPDATE_FIXED_COLUMNS [0%nat; 2%nat; 3%nat] [1%nat] [""] 2.

Definition delete_block : list ColumnWithTypeAndName :=
  [mkColumn "k" [Val 1]; mkColumn "c2" [Val 122]; mkColumn DELETE_SIGN [Val 1]].

Definition old_block_c1 : list ColumnWithTypeAndName :=
  [mkColumn "c1" [Val 97]; mkColumn DELETE_SIGN [Val 0]].

Definition reader (new_rows old_rows : list ColumnWithTypeAndName)
    (plan : list (RowLocation * N)) (cids : list nat) (with_delete_sign : bool)
    (new_signs : option (list Cell)) : Status * list ColumnWithTypeAndName * gmap nat nat :=
  if with_delete_sign then (OK, old_rows, one_row) else (OK, new_rows, one_row).

Definition parse_default (column : TabletColumn) (s : string) : Status * Cell :=
  (OK, Val 0).

Definition read_plan_old : list (RowLocation * N) := [(mkRowLocation 7 0 0, 0%N)].
Definition read_plan_new : list (RowLocation * N) := [(mkRowLocation 9 0 0, 0%N)].

Definition empty_columns : nat -> list Cell := fun _ => [].

(** A tablet whose visible map holds the base rowset 7 at version [2-2],
    with a version tracker that reports the path [0-1], [2-2]. *)
Definition maps : RowsetMaps := mkRowsetMaps {[(2%Z, 2%Z) := base_rowset]} ∅.

Definition tracker (spec_version : Z * Z) : Status * list (Z * Z) :=
  (OK, [(0%Z, 1%Z); (2%Z, 2%Z)]).

End Ex.

(** * Theorems *)

(** ** Facts about the delete bitmap *)

Lemma contains_add_same key row bm :
  DeleteBitmap.contains key row (DeleteBitmap.add key row bm) = true.
Proof.
  unfold DeleteBitmap.contains, DeleteBitmap.add.
  rewrite lookup_insert_eq. apply bool_decide_eq_true. set_solver.
Qed.

Lemma contains_add_mono key row key' row' bm :
  DeleteBitmap.contains key row bm = true ->
  DeleteBitmap.contains key row (DeleteBitmap.add key' row' bm) = true.
Proof.
  unfold DeleteBitmap.contains, DeleteBitmap.add. intros H.
  destruct (decide (key' = key)) as [->|Hne].
  - rewrite lookup_insert_eq. destruct (bm !! key) as [rows|]; [|done].
    apply bool_decide_eq_true in H. apply bool_decide_eq_true. set_solver.
  - by rewrite lookup_insert_ne.
Qed.

Lemma contains_add_inv key row key' row' bm :
  DeleteBitmap.contains key row (DeleteBitmap.add key' row' bm) = true ->
  (key = key' /\ row = row') \/ DeleteBitmap.contains key row bm = true.
Proof.
  unfold DeleteBitmap.contains, DeleteBitmap.add.
  destruct (decide (key' = key)) as [->|Hne].
  - rewrite lookup_insert_eq. intros H. apply bool_decide_eq_true in H.
    apply elem_of_union in H as [H|H].
    + left. split; [done|]. by apply elem_of_singleton in H.
    + right. destruct (bm !! key) as [rows|]; simpl in H.
      * by apply bool_decide_eq_true.
      * by apply not_elem_of_empty in H.
  - rewrite lookup_insert_ne by done. by right.
Qed.

Lemma has_key_add key key' row bm :
  DeleteBitmap.has_key key (DeleteBitmap.add key' row bm) = true <->
  key = key' \/ DeleteBitmap.has_key key bm = true.
Proof.
  unfold DeleteBitmap.has_key, DeleteBitmap.add.
  rewrite !bool_decide_eq_true.
  destruct (decide (key' = key)) as [->|Hne].
  - rewrite lookup_insert_eq. split; [by left | by eauto].
  - rewrite lookup_insert_ne by done. split; [by right|]. by intros [->|].
Qed.

(** ** Tablet state *)

(** C10: [set_tablet_state] refuses to leave [TABLET_SHUTDOWN] and then
    changes nothing; in every other case it stores the requested state and
    returns OK. *)
Theorem set_tablet_state_shutdown_terminal (m : TabletMeta) (state : TabletState) :
  (tablet_state m = TABLET_SHUTDOWN /\ state <> TABLET_SHUTDOWN ->
   (set_tablet_state m state).1 <> OK /\ (set_tablet_state m state).2 = m)
  /\ (~ (tablet_state m = TABLET_SHUTDOWN /\ state <> TABLET_SHUTDOWN) ->
      (set_tablet_state m state).1 = OK
      /\ tablet_state (set_tablet_state m state).2 = state
      /\ meta_delete_bitmap (set_tablet_state m state).2 = meta_delete_bitmap m).
Proof.
  unfold set_tablet_state. split.
  - intros [Hcur Hreq].
    rewrite (bool_decide_eq_true_2 _ Hcur), (bool_decide_eq_false_2 _ Hreq). by simpl.
  - intros Hnot.
    destruct (bool_decide_reflect (tablet_state m = TABLET_SHUTDOWN)) as [Hcur|Hcur];
      destruct (bool_decide_reflect (state = TABLET_SHUTDOWN)) as [Hreq|Hreq]; simpl;
      try done.
    exfalso. by apply Hnot.
Qed.

(** ** The correctness check *)

Lemma elem_of_missing_ids bm ids id :
  id ∈ missing_ids bm ids <->
  id ∈ ids /\ bm !! (id, INVALID_SEGMENT_ID, TEMP_VERSION_COMMON) = None.
Proof.
  unfold missing_ids.
  apply (set_fold_ind_L
           (fun (acc : gset N) (X : gset N) =>
              id ∈ acc <-> id ∈ X /\ bm !! (id, INVALID_SEGMENT_ID, TEMP_VERSION_COMMON) = None)).
  - set_solver.
  - intros x X acc Hx IH. unfold DeleteBitmap.has_key.
    destruct (bool_decide_reflect
                (is_Some (bm !! (x, INVALID_SEGMENT_ID, TEMP_VERSION_COMMON)))) as [Hs|Hn];
      simpl.
    + rewrite IH. split.
      * intros [? ?]. split; [set_solver | done].
      * intros [Hin Hnone]. split; [|done].
        apply elem_of_union in Hin as [Hin|Hin]; [|done].
        apply elem_of_singleton in Hin as ->. rewrite Hnone in Hs. by destruct Hs.
    + rewrite elem_of_union, IH, elem_of_singleton. split.
      * intros [->|[? ?]].
        -- split; [set_solver|]. by apply eq_None_not_Some.
        -- split; [set_solver | done].
      * intros [Hin Hnone]. apply elem_of_union in Hin as [Hin|Hin].
        -- left. by apply elem_of_singleton in Hin.
        -- by right.
Qed.

(** C2: the check returns OK exactly when every rowset id of the given set
    has its sentinel key [(id, INVALID_SEGMENT_ID, TEMP_VERSION_COMMON)] in
    the bitmap, and an internal error as soon as one is missing. *)
Theorem check_delete_bitmap_correctness_iff (bm : gmap (N * N * N) (gset N))
    (rowset_ids : gset N) :
  (check_delete_bitmap_correctness bm rowset_ids = OK <->
   forall id, id ∈ rowset_ids ->
     is_Some (bm !! (id, INVALID_SEGMENT_ID, TEMP_VERSION_COMMON)))
  /\ ((exists id, id ∈ rowset_ids
                  /\ bm !! (id, INVALID_SEGMENT_ID, TEMP_VERSION_COMMON) = None) ->
      check_delete_bitmap_correctness bm rowset_ids = INTERNAL_ERROR).
Proof.
  unfold check_delete_bitmap_correctness.
  destruct (bool_decide_reflect (missing_ids bm rowset_ids = ∅)) as [He|Hne]; simpl.
  - split.
    + split; [|done]. intros _ id Hid.
      destruct (bm !! (id, INVALID_SEGMENT_ID, TEMP_VERSION_COMMON)) eqn:Hl; [by eauto|].
      assert (id ∈ missing_ids bm rowset_ids) as Hm by by apply elem_of_missing_ids.
      rewrite He in Hm. by apply not_elem_of_empty in Hm.
    + intros (id & Hid & Hnone).
      assert (id ∈ missing_ids bm rowset_ids) as Hm by by apply elem_of_missing_ids.
      rewrite He in Hm. by apply not_elem_of_empty in Hm.
  - split; [|done]. split; [done|]. intros Hall. exfalso. apply Hne.
    apply set_eq. intros id. rewrite elem_of_missing_ids. split.
    + intros [Hid Hnone]. destruct (Hall id Hid) as [rows Hrows]. congruence.
    + intros H. by apply not_elem_of_empty in H.
Qed.

(** ** Primary-key lookup: what a result carries *)

Lemma scan_picked_segments_found key schema ws wr version bm segments picked s found :
  scan_picked_segments key schema ws wr version bm segments picked
    = Some (ScanReturn s found) ->
  (found = None -> s <> OK /\ s <> KEY_NOT_FOUND /\ s <> KEY_ALREADY_EXISTS)
  /\ (is_Some found -> s = OK \/ s = KEY_ALREADY_EXISTS).
Proof.
  induction picked as [|id rest IH]; simpl; [done|].
  destruct (segments !! id) as [sg|]; simpl; [|done].
  destruct (seg_lookup_row_key sg key ws wr) as [s0 loc].
  unfold is_code, ok.
  destruct (bool_decide_reflect (s0 = KEY_NOT_FOUND)) as [->|Hnf]; [exact IH|].
  destruct (bool_decide_reflect (s0 = OK)) as [->|Hok]; simpl.
  - destruct (DeleteBitmap.contains_agg_without_cache _ _ _).
    + destruct (has_sequence_col schema); [exact IH | done].
    + intros [= <- <-]. split; [done | by left].
  - destruct (bool_decide_reflect (s0 = KEY_ALREADY_EXISTS)) as [->|Hae]; simpl.
    + intros [= <- <-]. split; [done | by right].
    + intros [= <- <-]. split; [done | by intros [? ?]].
Qed.

Lemma lookup_in_rowsets_ok_found kb key kws schema ws wr version bm i rowsets caches r :
  lookup_in_rowsets kb key kws schema ws wr version bm i rowsets caches = Some r ->
  lr_status r = OK -> is_Some (lr_found r).
Proof.
  revert i caches. induction rowsets as [|rs rest IH]; intros i caches; simpl.
  { intros [= <-]. done. }
  remember (scan_picked_segments key schema ws wr version bm) as scan eqn:Hscanf.
  assert (Hret : forall segments picked s found caches',
             scan segments picked = Some (ScanReturn s found) ->
             match found with
             | Some loc => Some (mkLookupResult s (Some (loc, rs)) caches')
             | None => Some (mkLookupResult s None caches')
             end = Some r ->
             lr_status r = OK -> is_Some (lr_found r)).
  { intros segments picked s found caches' Hscan. subst scan.
    apply scan_picked_segments_found in Hscan as [Hnone Hsome].
    destruct found as [loc|]; intros [= <-]; simpl; [by eauto|].
    intros ->. by destruct Hnone. }
  destruct (pick_segments kb kws rs _) as [picked|]; simpl; [|done].
  destruct picked as [|p picked']; [by apply IH|].
  destruct (caches !! i) as [segments|].
  - simpl. destruct (scan segments (p :: picked')) as [[s found|]|] eqn:Hscan; simpl;
      [| by apply IH | done].
    destruct found as [loc|]; intros Hr;
      [exact (Hret _ _ _ (Some loc) _ Hscan Hr) | exact (Hret _ _ _ None _ Hscan Hr)].
  - destruct (load_segments rs) as [st segments]. unfold ok.
    destruct (bool_decide_reflect (st = OK)) as [->|Hst]; simpl.
    + destruct (scan segments (p :: picked')) as [[s found|]|] eqn:Hscan; simpl;
        [| by apply IH | done].
      destruct found as [loc|]; intros Hr;
      [exact (Hret _ _ _ (Some loc) _ Hscan Hr) | exact (Hret _ _ _ None _ Hscan Hr)].
    + intros [= <-]. simpl. done.
Qed.

(** ** Delete-bitmap calculation for one segment *)

Section CalcSegmentFacts.

Variable key_is_not_in_segment : Slice -> KeyBoundsPB -> bool -> bool.
Variable ROW_ID_LENGTH : nat.
Variable decode_ascending : Slice -> Status * N.
Variable flush_partial_update_block : CalcState -> Status.
Variable config : Config.
Variable tablet_schema : TabletSchema.
Variable meta : TabletMeta.
Variable rowset : Rowset.
Variable rowset_schema : TabletSchema.
Variable seg : Segment.
Variable specified_rowsets : list Rowset.
Variable end_version : Z.
Variable rowset_writer : option RowsetWriter.
Variable tablet_delete_bitmap : option (gmap (N * N * N) (gset N)).

Local Abbreviation lookup_for_key' :=
  (lookup_for_key key_is_not_in_segment ROW_ID_LENGTH tablet_schema meta rowset_schema
                  specified_rowsets end_version tablet_delete_bitmap).
Local Abbreviation process_key' :=
  (process_key key_is_not_in_segment ROW_ID_LENGTH decode_ascending tablet_schema meta
               rowset rowset_schema seg specified_rowsets end_version rowset_writer
               tablet_delete_bitmap).
Local Abbreviation process_keys' :=
  (process_keys key_is_not_in_segment ROW_ID_LENGTH decode_ascending tablet_schema meta
                rowset rowset_schema seg specified_rowsets end_version rowset_writer
                tablet_delete_bitmap).
Local Abbreviation process_batches' :=
  (process_batches key_is_not_in_segment ROW_ID_LENGTH decode_ascending tablet_schema meta
                   rowset rowset_schema seg specified_rowsets end_version rowset_writer
                   tablet_delete_bitmap).
Local Abbreviation calc_segment_delete_bitmap' :=
  (calc_segment_delete_bitmap key_is_not_in_segment ROW_ID_LENGTH decode_ascending
     flush_partial_update_block config tablet_schema meta rowset rowset_schema seg
     specified_rowsets end_version rowset_writer tablet_delete_bitmap).
Local Abbreviation key_row_id' := (key_row_id ROW_ID_LENGTH decode_ascending tablet_schema).

Lemma lookup_for_key_ok_found key st r :
  lookup_for_key' key st = Some r -> lr_status r = OK -> is_Some (lr_found r).
Proof. unfold lookup_for_key, lookup_row_key. apply lookup_in_rowsets_ok_found. Qed.

(** What the loop body of [calc_segment_delete_bitmap] does for a key whose
    row is not yet marked in its own segment, by the outcome of the
    lookup. *)
Lemma process_key_by_lookup_outcome (key : string) (st : CalcState) (row_id : N)
    (r : LookupResult) :
  key_row_id' key (cs_row_id st) = (OK, row_id) ->
  DeleteBitmap.contains (new_row_key rowset seg) row_id (cs_delete_bitmap st) = false ->
  lookup_for_key' key st = Some r ->
  let bm := cs_delete_bitmap st in
  let new_loc := mkRowLocation (rowset_id rowset) (seg_id seg) row_id in
  (lr_status r = KEY_NOT_FOUND ->
   exists st', process_key' key st = Some (StepNext st')
     /\ cs_delete_bitmap st' = bm
     /\ cs_read_plan_ori st' = cs_read_plan_ori st
     /\ cs_read_plan_update st' = cs_read_plan_update st)
  /\ (lr_status r = KEY_ALREADY_EXISTS -> writer_is_partial_update rowset_writer = false ->
      exists st', process_key' key st = Some (StepNext st')
        /\ cs_delete_bitmap st' = DeleteBitmap.add (new_row_key rowset seg) row_id bm
        /\ cs_read_plan_ori st' = cs_read_plan_ori st
        /\ cs_read_plan_update st' = cs_read_plan_update st)
  /\ (lr_status r = OK ->
      exists loc rowset_find st',
        lr_found r = Some (loc, rowset_find)
        /\ process_key' key st = Some (StepNext st')
        /\ DeleteBitmap.contains (old_row_key loc) (loc_row_id loc) (cs_delete_bitmap st') = true
        /\ if writer_is_partial_update rowset_writer then
             cs_delete_bitmap st'
               = DeleteBitmap.add (new_row_key rowset seg) row_id
                   (DeleteBitmap.add (old_row_key loc) (loc_row_id loc) bm)
             /\ DeleteBitmap.contains (new_row_key rowset seg) row_id (cs_delete_bitmap st') = true
             /\ cs_read_plan_ori st' = cs_read_plan_ori st ++ [(loc, cs_pos st)]
             /\ cs_read_plan_update st' = cs_read_plan_update st ++ [(new_loc, cs_pos st)]
           else
             cs_delete_bitmap st' = DeleteBitmap.add (old_row_key loc) (loc_row_id loc) bm
             /\ cs_read_plan_ori st' = cs_read_plan_ori st
             /\ cs_read_plan_update st' = cs_read_plan_update st).
Proof.
  intros Hrow Hfresh Hlookup bm new_loc.
  assert (Hbody : process_key' key st
                  = apply_lookup rowset rowset_schema seg rowset_writer (lr_status r)
                      (lr_found r)
                      (with_segment_caches (lr_caches r) (with_row_id row_id st))).
  { unfold process_key. rewrite Hrow. simpl. rewrite Hfresh.
    change (lookup_for_key' key (with_row_id row_id st)) with (lookup_for_key' key st).
    by rewrite Hlookup. }
  rewrite Hbody. unfold apply_lookup. simpl. repeat split.
  - intros ->. simpl. eexists. split; [reflexivity|]. done.
  - intros -> Hnp. rewrite Hnp. simpl. eexists. split; [reflexivity|]. done.
  - intros Hok.
    destruct (lookup_for_key_ok_found _ _ _ Hlookup Hok) as [[loc rowset_find] Hfound].
    rewrite Hok, Hfound. simpl. exists loc, rowset_find.
    unfold writer_is_partial_update. destruct rowset_writer as [w|].
    + destruct (is_partial_update w); eexists; (split; [reflexivity|]);
        (split; [reflexivity|]); simpl.
      * split; [apply contains_add_mono, contains_add_same|].
        split; [done|]. split; [apply contains_add_same | done].
      * split; [apply contains_add_same | done].
    + eexists. split; [reflexivity|]. split; [reflexivity|]. simpl.
      split; [apply contains_add_same | done].
Qed.

(** The loop over a list of keys splits at any point. *)
Lemma process_keys_app keys1 keys2 st :
  process_keys' (keys1 ++ keys2) st
  = step ← process_keys' keys1 st;
    match step with
    | StepReturn s st' => Some (StepReturn s st')
    | StepNext st' => process_keys' keys2 st'
    end.
Proof.
  revert st. induction keys1 as [|key rest IH]; intros st; simpl; [done|].
  destruct (process_key' key st) as [[s st'|st']|]; simpl; [done | apply IH | done].
Qed.

(** The batches together visit every key of the index once, in index
    order: with enough fuel the batch loop is the loop over all the keys
    that are left. *)
Lemma process_batches_all fuel remaining st :
  (remaining <= fuel)%nat -> (remaining <= List.length (seg_pk_index seg))%nat ->
  process_batches' fuel remaining st
  = process_keys' (drop (List.length (seg_pk_index seg) - remaining) (seg_pk_index seg)) st.
Proof.
  assert (2 <= batch_size)%nat as Hbs by (unfold batch_size; lia).
  revert remaining st. induction fuel as [|fuel IH]; intros remaining st Hfuel Hrem.
  - assert (remaining = 0%nat) as -> by lia. cbn [process_batches].
    rewrite bool_decide_eq_true_2 by done.
    rewrite Nat.sub_0_r, drop_all. done.
  - cbn [process_batches]. destruct (bool_decide_reflect (remaining = 0%nat)) as [->|Hpos].
    { rewrite Nat.sub_0_r, drop_all. done. }
    set (keys := seg_pk_index seg) in *.
    set (total := List.length keys) in *.
    cbv zeta.
    set (num_to_read := Nat.min batch_size remaining).
    set (num_read :=
           if bool_decide (num_to_read = batch_size)
              && negb (bool_decide (num_to_read = remaining))
           then (num_to_read - 1)%nat else num_to_read).
    assert (1 <= num_read /\ num_read <= num_to_read /\ num_to_read <= remaining)%nat
      as (Hge & Hle & Hle').
    { unfold num_read, num_to_read.
      destruct (bool_decide_reflect (Nat.min batch_size remaining = batch_size));
        destruct (bool_decide_reflect (Nat.min batch_size remaining = remaining));
        cbn [andb negb]; lia. }
    rewrite take_take, Nat.min_l by lia.
    rewrite <- (take_drop num_read (drop (total - remaining) keys)) at 2.
    rewrite process_keys_app.
    destruct (process_keys' (take num_read (drop (total - remaining) keys)) st)
      as [[s st'|st']|]; cbn [mbind option_bind]; [done | | done].
    rewrite IH by lia. rewrite drop_drop. f_equal. f_equal. lia.
Qed.

Lemma process_batches_total st :
  process_batches' (List.length (seg_pk_index seg)) (List.length (seg_pk_index seg)) st
  = process_keys' (seg_pk_index seg) st.
Proof. rewrite process_batches_all by lia. by rewrite Nat.sub_diag. Qed.

End CalcSegmentFacts.

(** ** Marks are only ever added, and the sentinel *)

Lemma add_sentinel_mark_mono key row bm ids :
  DeleteBitmap.contains key row bm = true ->
  DeleteBitmap.contains key row (add_sentinel_mark_to_delete_bitmap bm ids) = true.
Proof.
  intros H. unfold add_sentinel_mark_to_delete_bitmap.
  apply (set_fold_ind_L
           (fun (acc : gmap (N * N * N) (gset N)) (_ : gset N) =>
              DeleteBitmap.contains key row acc = true)); [done|].
  intros x X acc _ IH. by apply contains_add_mono.
Qed.

Lemma add_sentinel_mark_contains bm ids id :
  id ∈ ids ->
  DeleteBitmap.contains (id, INVALID_SEGMENT_ID, TEMP_VERSION_COMMON) ROWSET_SENTINEL_MARK
    (add_sentinel_mark_to_delete_bitmap bm ids) = true.
Proof.
  unfold add_sentinel_mark_to_delete_bitmap. revert id.
  apply (set_fold_ind_L
           (fun (acc : gmap (N * N * N) (gset N)) (X : gset N) =>
              forall id, id ∈ X ->
                DeleteBitmap.contains (id, INVALID_SEGMENT_ID, TEMP_VERSION_COMMON)
                  ROWSET_SENTINEL_MARK acc = true)).
  - intros id H. by apply not_elem_of_empty in H.
  - intros x X acc _ IH id Hid. apply elem_of_union in Hid as [Hid|Hid].
    + apply elem_of_singleton in Hid as ->. apply contains_add_same.
    + apply contains_add_mono. by apply IH.
Qed.

Section CalcSegmentRuns.

Variable key_is_not_in_segment : Slice -> KeyBoundsPB -> bool -> bool.
Variable ROW_ID_LENGTH : nat.
Variable decode_ascending : Slice -> Status * N.
Variable flush_partial_update_block : CalcState -> Status.
Variable config : Config.
Variable tablet_schema : TabletSchema.
Variable meta : TabletMeta.
Variable rowset : Rowset.
Variable rowset_schema : TabletSchema.
Variable specified_rowsets : list Rowset.
Variable end_version : Z.
Variable rowset_writer : option RowsetWriter.
Variable tablet_delete_bitmap : option (gmap (N * N * N) (gset N)).

Local Abbreviation process_key' seg :=
  (process_key key_is_not_in_segment ROW_ID_LENGTH decode_ascending tablet_schema meta
               rowset rowset_schema seg specified_rowsets end_version rowset_writer
               tablet_delete_bitmap).
Local Abbreviation process_keys' seg :=
  (process_keys key_is_not_in_segment ROW_ID_LENGTH decode_ascending tablet_schema meta
                rowset rowset_schema seg specified_rowsets end_version rowset_writer
                tablet_delete_bitmap).
Local Abbreviation calc_segment' seg :=
  (calc_segment_delete_bitmap key_is_not_in_segment ROW_ID_LENGTH decode_ascending
     flush_partial_update_block config tablet_schema meta rowset rowset_schema seg
     specified_rowsets end_version rowset_writer tablet_delete_bitmap).
Local Abbreviation calc_delete_bitmap' :=
  (calc_delete_bitmap key_is_not_in_segment ROW_ID_LENGTH decode_ascending
     flush_partial_update_block config tablet_schema meta rowset rowset_schema).
Local Abbreviation lookup_for_key' :=
  (lookup_for_key key_is_not_in_segment ROW_ID_LENGTH tablet_schema meta rowset_schema
                  specified_rowsets end_version tablet_delete_bitmap).

Lemma apply_lookup_step seg status found st step :
  apply_lookup rowset rowset_schema seg rowset_writer status found st = Some step ->
  (forall key row, DeleteBitmap.contains key row (cs_delete_bitmap st) = true ->
                   DeleteBitmap.contains key row (cs_delete_bitmap (step_state step)) = true)
  /\ (forall s st', step = StepReturn s st' -> s <> OK).
Proof.
  unfold apply_lookup, ok, is_code.
  destruct (bool_decide_reflect (status = OK)) as [->|Hok]; simpl.
  - destruct found as [[loc rowset_find]|]; simpl; [|done].
    destruct rowset_writer as [w|]; [destruct (is_partial_update w)|];
      intros [= <-]; simpl; (split; [|done]); intros key row H;
      repeat apply contains_add_mono; done.
  - destruct (bool_decide_reflect (status = KEY_NOT_FOUND)) as [->|Hnf]; simpl.
    { intros [= <-]. done. }
    destruct (bool_decide_reflect (status = KEY_ALREADY_EXISTS)) as [->|Hae]; simpl.
    + destruct (negb (writer_is_partial_update rowset_writer) || _).
      * intros [= <-]. simpl. split; [|done]. intros key row H. by apply contains_add_mono.
      * destruct found as [[loc rowset_find]|]; simpl; [|done].
        destruct rowset_writer as [w|]; [destruct (is_partial_update w)|];
          intros [= <-]; simpl; (split; [|done]); intros key row H;
          repeat apply contains_add_mono; done.
    + intros [= <-]. simpl. split; [done|]. by intros s st' [= <- <-].
Qed.

Lemma process_key_step seg key st step :
  process_key' seg key st = Some step ->
  (forall k row, DeleteBitmap.contains k row (cs_delete_bitmap st) = true ->
                 DeleteBitmap.contains k row (cs_delete_bitmap (step_state step)) = true)
  /\ (forall s st', step = StepReturn s st' -> s <> OK).
Proof.
  unfold process_key.
  destruct (key_row_id _ _ _ key (cs_row_id st)) as [s row_id]. unfold ok.
  destruct (bool_decide_reflect (s = OK)) as [->|Hs]; simpl.
  - destruct (DeleteBitmap.contains _ row_id (cs_delete_bitmap st)).
    { intros [= <-]. done. }
    destruct (lookup_for_key _ _ _ _ _ _ _ _ key _) as [r|]; simpl; [|done].
    intros H. by apply apply_lookup_step in H.
  - intros [= <-]. simpl. split; [done|]. by intros s' st' [= <- <-].
Qed.

Lemma process_keys_step seg keys st step :
  process_keys' seg keys st = Some step ->
  (forall k row, DeleteBitmap.contains k row (cs_delete_bitmap st) = true ->
                 DeleteBitmap.contains k row (cs_delete_bitmap (step_state step)) = true)
  /\ (forall s st', step = StepReturn s st' -> s <> OK).
Proof.
  revert st. induction keys as [|key rest IH]; intros st; simpl.
  { intros [= <-]. done. }
  destruct (process_key' seg key st) as [[s st1|st1]|] eqn:Hkey; simpl; [| |done].
  - intros [= <-]. by apply process_key_step in Hkey.
  - intros Hrest. apply process_key_step in Hkey as [Hmono _].
    apply IH in Hrest as [Hmono' Hret]. split; [|done].
    intros k row H. apply Hmono'. simpl. by apply Hmono.
Qed.

(** A call that returns OK ran the loop over every key of the index to its
    end, and then recorded the sentinels if the check is enabled. *)
Lemma calc_segment_delete_bitmap_ok_inv seg bm bm' :
  calc_segment' seg bm = Some (OK, bm') ->
  exists st,
    process_keys' seg (seg_pk_index seg) (initial_state rowset bm) = Some (StepNext st)
    /\ bm' = if enable_merge_on_write_correctness_check config
             then add_sentinel_mark_to_delete_bitmap
                    (cs_delete_bitmap st) (list_to_set (rowset_id <$> specified_rowsets))
             else cs_delete_bitmap st.
Proof.
  unfold calc_segment_delete_bitmap. unfold ok at 1.
  destruct (bool_decide_reflect (seg_load_pk_index_and_bf seg = OK)) as [Hload|Hload]; simpl.
  2: { intros [= H _]. done. }
  rewrite process_batches_total.
  destruct (process_keys' seg (seg_pk_index seg) (initial_state rowset bm))
    as [[s st|st]|] eqn:Hkeys; simpl; [| |done].
  - intros [= -> <-]. apply process_keys_step in Hkeys as [_ Hret].
    by destruct (Hret OK st).
  - intros H. exists st. split; [done|].
    destruct (bool_decide (0 < cs_pos st)).
    + unfold ok in H.
      destruct (bool_decide_reflect (flush_partial_update_block st = OK)); simpl in H;
        by simplify_eq.
    + by simplify_eq.
Qed.

(** A call that returns OK has run the loop body for every key of the
    index, and the marks that the body left for a key are in the bitmap the
    call returns. *)
Lemma calc_segment_delete_bitmap_visits_key seg bm bm' before key after :
  calc_segment' seg bm = Some (OK, bm') ->
  seg_pk_index seg = before ++ key :: after ->
  exists st st',
    process_keys' seg before (initial_state rowset bm) = Some (StepNext st)
    /\ process_key' seg key st = Some (StepNext st')
    /\ forall k row, DeleteBitmap.contains k row (cs_delete_bitmap st') = true ->
                     DeleteBitmap.contains k row bm' = true.
Proof.
  intros Hcalc Hkeys.
  apply calc_segment_delete_bitmap_ok_inv in Hcalc as (final & Hrun & ->).
  rewrite Hkeys, process_keys_app in Hrun.
  destruct (process_keys' seg before (initial_state rowset bm)) as [[s st|st]|];
    simpl in Hrun; [done| |done].
  destruct (process_key' seg key st) as [[s st'|st']|] eqn:Hkey; simpl in Hrun; [done| |done].
  exists st, st'. split; [done|]. split; [done|]. intros k row Hin.
  apply process_keys_step in Hrun as [Hmono _]. specialize (Hmono k row Hin). simpl in Hmono.
  destruct (enable_merge_on_write_correctness_check config); [|done].
  by apply add_sentinel_mark_mono.
Qed.

Lemma apply_lookup_plans seg status found st step :
  apply_lookup rowset rowset_schema seg rowset_writer status found st = Some step ->
  (forall x, x ∈ cs_read_plan_ori st -> x ∈ cs_read_plan_ori (step_state step))
  /\ (forall x, x ∈ cs_read_plan_update st -> x ∈ cs_read_plan_update (step_state step)).
Proof.
  unfold apply_lookup.
  destruct (negb _); [by intros [= <-]|].
  destruct (is_code KEY_NOT_FOUND status); [by intros [= <-]|].
  destruct (is_code KEY_ALREADY_EXISTS status && _); [by intros [= <-]|].
  destruct found as [[loc rowset_find]|]; simpl; [|done].
  destruct rowset_writer as [w|]; [destruct (is_partial_update w)|];
    intros [= <-]; simpl; try done.
  unfold prepare_to_read. split; intros x Hx; apply elem_of_app; by left.
Qed.

Lemma process_key_plans seg key st step :
  process_key' seg key st = Some step ->
  (forall x, x ∈ cs_read_plan_ori st -> x ∈ cs_read_plan_ori (step_state step))
  /\ (forall x, x ∈ cs_read_plan_update st -> x ∈ cs_read_plan_update (step_state step)).
Proof.
  unfold process_key.
  destruct (key_row_id _ _ _ key (cs_row_id st)) as [s row_id].
  destruct (negb (ok s)); [by intros [= <-]|].
  simpl. destruct (DeleteBitmap.contains _ row_id (cs_delete_bitmap st)).
  { by intros [= <-]. }
  destruct (lookup_for_key _ _ _ _ _ _ _ _ key _) as [r|]; simpl; [|done].
  intros H. by apply apply_lookup_plans in H.
Qed.

Lemma process_keys_plans seg keys st step :
  process_keys' seg keys st = Some step ->
  (forall x, x ∈ cs_read_plan_ori st -> x ∈ cs_read_plan_ori (step_state step))
  /\ (forall x, x ∈ cs_read_plan_update st -> x ∈ cs_read_plan_update (step_state step)).
Proof.
  revert st. induction keys as [|key rest IH]; intros st; simpl.
  { by intros [= <-]. }
  destruct (process_key' seg key st) as [[s st1|st1]|] eqn:Hkey; simpl; [| |done].
  - intros [= <-]. by apply process_key_plans in Hkey.
  - intros Hrest. apply process_key_plans in Hkey as [Hori Hupd].
    apply IH in Hrest as [Hori' Hupd']. simpl in *.
    split; intros x Hx; [apply Hori' | apply Hupd']; auto.
Qed.

(** C1: a call of [calc_segment_delete_bitmap] that returns OK has run the
    body of its loop on every key of the segment's index, with the row id
    of that key; for a key whose row is not yet marked in its own segment
    the body looked the key up, and by the outcome of the lookup:
    KEY_NOT_FOUND - the bitmap and the read plans stay as they are;
    KEY_ALREADY_EXISTS on a write that is not a partial update - the new
    row is marked at TEMP_VERSION_COMMON; OK - an old row was resolved and
    is marked at TEMP_VERSION_COMMON, and on a partial update the new row
    is marked as well and both locations are queued into the read plans.
    The marks are in the bitmap that the call returns, and the queued
    locations in the read plans that the loop ends with. *)
Theorem calc_segment_delete_bitmap_per_key (seg : Segment)
    (bm bm' : gmap (N * N * N) (gset N)) (before : list string) (key : string)
    (after : list string) :
  calc_segment' seg bm = Some (OK, bm') ->
  seg_pk_index seg = before ++ key :: after ->
  exists st row_id final,
    process_keys' seg before (initial_state rowset bm) = Some (StepNext st)
    /\ process_keys' seg (seg_pk_index seg) (initial_state rowset bm) = Some (StepNext final)
    /\ key_row_id ROW_ID_LENGTH decode_ascending tablet_schema key (cs_row_id st)
       = (OK, row_id)
    /\ (DeleteBitmap.contains (new_row_key rowset seg) row_id (cs_delete_bitmap st) = false ->
        let new_loc := mkRowLocation (rowset_id rowset) (seg_id seg) row_id in
        exists r st',
          lookup_for_key key_is_not_in_segment ROW_ID_LENGTH tablet_schema meta
            rowset_schema specified_rowsets end_version tablet_delete_bitmap key st = Some r
          /\ process_key' seg key st = Some (StepNext st')
          /\ (lr_status r = KEY_NOT_FOUND ->
              cs_delete_bitmap st' = cs_delete_bitmap st
              /\ cs_read_plan_ori st' = cs_read_plan_ori st
              /\ cs_read_plan_update st' = cs_read_plan_update st)
          /\ (lr_status r = KEY_ALREADY_EXISTS ->
              writer_is_partial_update rowset_writer = false ->
              cs_delete_bitmap st'
                = DeleteBitmap.add (new_row_key rowset seg) row_id (cs_delete_bitmap st)
              /\ DeleteBitmap.contains (new_row_key rowset seg) row_id bm' = true
              /\ cs_read_plan_ori st' = cs_read_plan_ori st
              /\ cs_read_plan_update st' = cs_read_plan_update st)
          /\ (lr_status r = OK ->
              exists loc rowset_find,
                lr_found r = Some (loc, rowset_find)
                /\ DeleteBitmap.contains (old_row_key loc) (loc_row_id loc) bm' = true
                /\ if writer_is_partial_update rowset_writer then
                     cs_delete_bitmap st'
                       = DeleteBitmap.add (new_row_key rowset seg) row_id
                           (DeleteBitmap.add (old_row_key loc) (loc_row_id loc)
                                             (cs_delete_bitmap st))
                     /\ DeleteBitmap.contains (new_row_key rowset seg) row_id bm' = true
                     /\ cs_read_plan_ori st' = cs_read_plan_ori st ++ [(loc, cs_pos st)]
                     /\ cs_read_plan_update st'
                        = cs_read_plan_update st ++ [(new_loc, cs_pos st)]
                     /\ (loc, cs_pos st) ∈ cs_read_plan_ori final
                     /\ (new_loc, cs_pos st) ∈ cs_read_plan_update final
                   else
                     cs_delete_bitmap st'
                       = DeleteBitmap.add (old_row_key loc) (loc_row_id loc)
                                          (cs_delete_bitmap st)
                     /\ cs_read_plan_ori st' = cs_read_plan_ori st
                     /\ cs_read_plan_update st' = cs_read_plan_update st)).
Proof.
  intros Hcalc Hkeys.
  destruct (calc_segment_delete_bitmap_visits_key seg bm bm' before key after Hcalc Hkeys)
    as (st & st' & Hbefore & Hkey & Hmono).
  destruct (calc_segment_delete_bitmap_ok_inv seg bm bm' Hcalc) as (final & Hrun & _).
  assert (Hplans : (forall x, x ∈ cs_read_plan_ori st' -> x ∈ cs_read_plan_ori final)
                   /\ (forall x, x ∈ cs_read_plan_update st' ->
                                 x ∈ cs_read_plan_update final)).
  { pose proof Hrun as Hrest. rewrite Hkeys, process_keys_app, Hbefore in Hrest.
    cbn [mbind option_bind process_keys] in Hrest. rewrite Hkey in Hrest.
    cbn [mbind option_bind] in Hrest. by apply process_keys_plans in Hrest. }
  destruct Hplans as [Hori Hupd].
  destruct (key_row_id ROW_ID_LENGTH decode_ascending tablet_schema key (cs_row_id st))
    as [s row_id] eqn:Hrow.
  assert (s = OK) as ->.
  { revert Hkey. unfold process_key. rewrite Hrow. unfold ok.
    destruct (bool_decide_reflect (s = OK)); [done|]. simpl. by intros [= ?]. }
  exists st, row_id, final. split; [done|]. split; [done|]. split; [done|].
  intros Hfresh new_loc.
  destruct (lookup_for_key key_is_not_in_segment ROW_ID_LENGTH tablet_schema meta
              rowset_schema specified_rowsets end_version tablet_delete_bitmap key st)
    as [r|] eqn:Hlookup.
  2: { revert Hkey. unfold process_key. rewrite Hrow. simpl. rewrite Hfresh.
       change (lookup_for_key key_is_not_in_segment ROW_ID_LENGTH tablet_schema meta
                 rowset_schema specified_rowsets end_version tablet_delete_bitmap key
                 (with_row_id row_id st))
         with (lookup_for_key key_is_not_in_segment ROW_ID_LENGTH tablet_schema meta
                 rowset_schema specified_rowsets end_version tablet_delete_bitmap key st).
       by rewrite Hlookup. }
  exists r, st'. split; [done|]. split; [done|].
  destruct (process_key_by_lookup_outcome key_is_not_in_segment ROW_ID_LENGTH
              decode_ascending tablet_schema meta rowset rowset_schema seg
              specified_rowsets end_version rowset_writer tablet_delete_bitmap key st
              row_id r Hrow Hfresh Hlookup) as (Hnf & Hae & Hok).
  split; [|split].
  - intros Hst. destruct (Hnf Hst) as (st1 & Hstep & H). rewrite Hkey in Hstep.
    by injection Hstep as <-.
  - intros Hst Hnp. destruct (Hae Hst Hnp) as (st1 & Hstep & Hbm & H).
    rewrite Hkey in Hstep. injection Hstep as <-.
    split; [done|]. split; [|done]. apply Hmono. rewrite Hbm. apply contains_add_same.
  - intros Hst. destruct (Hok Hst) as (loc & rowset_find & st1 & Hfound & Hstep & Hold & H).
    rewrite Hkey in Hstep. injection Hstep as <-.
    exists loc, rowset_find. split; [done|]. split; [by apply Hmono|].
    destruct (writer_is_partial_update rowset_writer).
    + destruct H as (Hbm & Hnew & Hpo & Hpu).
      split; [done|]. split; [by apply Hmono|]. split; [done|]. split; [done|]. split.
      * apply Hori. rewrite Hpo. apply elem_of_app. right. by left.
      * apply Hupd. rewrite Hpu. apply elem_of_app. right. by left.
    + done.
Qed.

(** Whatever the status, a call only adds marks to the bitmap. *)
Lemma calc_segment_delete_bitmap_mono seg bm s bm' key row :
  calc_segment' seg bm = Some (s, bm') ->
  DeleteBitmap.contains key row bm = true -> DeleteBitmap.contains key row bm' = true.
Proof.
  unfold calc_segment_delete_bitmap. unfold ok at 1.
  destruct (bool_decide_reflect (seg_load_pk_index_and_bf seg = OK)) as [Hload|Hload]; simpl.
  2: { by intros [= _ <-]. }
  rewrite process_batches_total.
  destruct (process_keys' seg (seg_pk_index seg) (initial_state rowset bm))
    as [step|] eqn:Hkeys; simpl; [|done].
  apply process_keys_step in Hkeys as [Hmono _]. intros H Hin.
  specialize (Hmono key row Hin).
  assert (forall st, step_state step = st ->
            DeleteBitmap.contains key row
              (if enable_merge_on_write_correctness_check config
               then add_sentinel_mark_to_delete_bitmap
                      (cs_delete_bitmap st) (list_to_set (rowset_id <$> specified_rowsets))
               else cs_delete_bitmap st) = true) as Hfin.
  { intros st <-. destruct (enable_merge_on_write_correctness_check config); [|done].
    by apply add_sentinel_mark_mono. }
  destruct step as [s0 st|st].
  - by simplify_eq.
  - specialize (Hfin st eq_refl). destruct (bool_decide (0 < cs_pos st)).
    + destruct (negb (ok (flush_partial_update_block st))); by simplify_eq.
    + by simplify_eq.
Qed.

Lemma calc_segments_last segments bm bm' :
  segments <> [] ->
  calc_segments (fun segment b => calc_segment' segment b) segments bm = Some (OK, bm') ->
  exists seg bm0, seg ∈ segments /\ calc_segment' seg bm0 = Some (OK, bm').
Proof.
  revert bm. induction segments as [|seg rest IH]; intros bm Hne; [done|]. simpl.
  destruct (calc_segment' seg bm) as [[s bm1]|] eqn:Hseg; simpl; [|done].
  unfold ok. destruct (bool_decide_reflect (s = OK)) as [->|Hs]; simpl.
  - destruct rest as [|seg' rest'].
    + simpl. intros [= <-]. exists seg, bm. split; [by left | done].
    + intros H. apply IH in H as (sg & bm0 & Hin & Hc); [|done].
      exists sg, bm0. split; [by right | done].
  - intros [= -> _]. done.
Qed.

(** The marks that the loop body adds are marks of rows: the new row of the
    segment, or the old row that the lookup reported. *)
Lemma apply_lookup_marks seg status found st step k row :
  apply_lookup rowset rowset_schema seg rowset_writer status found st = Some step ->
  DeleteBitmap.contains k row (cs_delete_bitmap (step_state step)) = true ->
  DeleteBitmap.contains k row (cs_delete_bitmap st) = true
  \/ k = new_row_key rowset seg
  \/ exists loc rowset_find,
       found = Some (loc, rowset_find) /\ k = old_row_key loc /\ row = loc_row_id loc.
Proof.
  unfold apply_lookup.
  destruct (negb _); [intros [= <-]; by left|].
  destruct (is_code KEY_NOT_FOUND status); [intros [= <-]; by left|].
  destruct (is_code KEY_ALREADY_EXISTS status && _).
  { intros [= <-]. simpl. intros H.
    apply contains_add_inv in H as [[-> _]|H]; [right; by left | by left]. }
  destruct found as [[loc rowset_find]|]; simpl; [|done].
  assert (Hold : forall bm0,
             DeleteBitmap.contains k row
               (DeleteBitmap.add (old_row_key loc) (loc_row_id loc) bm0) = true ->
             DeleteBitmap.contains k row bm0 = true
             \/ k = new_row_key rowset seg
             \/ exists loc0 rowset_find0,
                  Some (loc, rowset_find) = Some (loc0, rowset_find0)
                  /\ k = old_row_key loc0 /\ row = loc_row_id loc0).
  { intros bm0 H. apply contains_add_inv in H as [[-> ->]|H]; [|by left].
    right. right. by exists loc, rowset_find. }
  destruct rowset_writer as [w|]; [destruct (is_partial_update w)|];
    intros [= <-]; simpl; [|apply Hold..].
  intros H. apply contains_add_inv in H as [[-> _]|H]; [right; by left | by apply Hold].
Qed.

Lemma process_key_marks seg key st step k row :
  process_key' seg key st = Some step ->
  DeleteBitmap.contains k row (cs_delete_bitmap (step_state step)) = true ->
  DeleteBitmap.contains k row (cs_delete_bitmap st) = true
  \/ k = new_row_key rowset seg
  \/ exists r loc rowset_find,
       lookup_for_key' key st = Some r /\ lr_found r = Some (loc, rowset_find)
       /\ k = old_row_key loc /\ row = loc_row_id loc.
Proof.
  unfold process_key.
  destruct (key_row_id _ _ _ key (cs_row_id st)) as [s row_id].
  destruct (negb (ok s)); [intros [= <-]; by left|].
  simpl. destruct (DeleteBitmap.contains _ row_id (cs_delete_bitmap st)).
  { intros [= <-]. by left. }
  change (lookup_for_key' key (with_row_id row_id st)) with (lookup_for_key' key st).
  destruct (lookup_for_key' key st) as [r|] eqn:Hlookup; simpl; [|done].
  intros Hstep Hin.
  destruct (apply_lookup_marks _ _ _ _ _ _ _ Hstep Hin)
    as [H|[H|(loc & rowset_find & Hfound & Hk & Hrow)]]; [by left | by right; left |].
  right. right. by exists r, loc, rowset_find.
Qed.

Lemma process_keys_marks seg (all keys : list string) st step k row :
  (forall key, key ∈ keys -> key ∈ all) ->
  process_keys' seg keys st = Some step ->
  DeleteBitmap.contains k row (cs_delete_bitmap (step_state step)) = true ->
  DeleteBitmap.contains k row (cs_delete_bitmap st) = true
  \/ k = new_row_key rowset seg
  \/ exists key st0 r loc rowset_find,
       key ∈ all /\ lookup_for_key' key st0 = Some r
       /\ lr_found r = Some (loc, rowset_find)
       /\ k = old_row_key loc /\ row = loc_row_id loc.
Proof.
  revert st. induction keys as [|key rest IH]; intros st Hall; simpl.
  { intros [= <-]. by left. }
  assert (Hrest : forall key0, key0 ∈ rest -> key0 ∈ all).
  { intros key0 H. apply Hall. by right. }
  assert (Hone : forall step1,
             process_key' seg key st = Some step1 ->
             DeleteBitmap.contains k row (cs_delete_bitmap (step_state step1)) = true ->
             DeleteBitmap.contains k row (cs_delete_bitmap st) = true
             \/ k = new_row_key rowset seg
             \/ exists key st0 r loc rowset_find,
                  key ∈ all /\ lookup_for_key' key st0 = Some r
                  /\ lr_found r = Some (loc, rowset_find)
                  /\ k = old_row_key loc /\ row = loc_row_id loc).
  { intros step1 Hstep1 Hin.
    destruct (process_key_marks _ _ _ _ _ _ Hstep1 Hin)
      as [H|[H|(r & loc & rowset_find & H)]]; [by left | by right; left |].
    right. right. exists key, st, r, loc, rowset_find. split; [apply Hall; by left | done]. }
  destruct (process_key' seg key st) as [[s st1|st1]|] eqn:Hkey; simpl; [| |done].
  - intros [= <-]. by apply Hone.
  - intros Hrun Hin.
    destruct (IH _ Hrest Hrun Hin) as [H|H]; [|by right].
    simpl in H. by apply (Hone (StepNext st1)).
Qed.

(** With the check switched off, the bitmap that a call returns holds no
    mark beyond those of the loop over the keys. *)
Lemma calc_segment_delete_bitmap_marks seg bm s bm' k row :
  enable_merge_on_write_correctness_check config = false ->
  calc_segment' seg bm = Some (s, bm') ->
  DeleteBitmap.contains k row bm' = true ->
  DeleteBitmap.contains k row bm = true
  \/ k = new_row_key rowset seg
  \/ exists key st r loc rowset_find,
       key ∈ seg_pk_index seg /\ lookup_for_key' key st = Some r
       /\ lr_found r = Some (loc, rowset_find)
       /\ k = old_row_key loc /\ row = loc_row_id loc.
Proof.
  intros Hflag. unfold calc_segment_delete_bitmap. rewrite Hflag.
  destruct (negb (ok (seg_load_pk_index_and_bf seg))); [intros [= _ <-]; by left|].
  rewrite process_batches_total.
  destruct (process_keys' seg (seg_pk_index seg) (initial_state rowset bm))
    as [step|] eqn:Hkeys; simpl; [|done].
  assert (bm' = cs_delete_bitmap (step_state step) ->
          DeleteBitmap.contains k row bm' = true ->
          DeleteBitmap.contains k row bm = true
          \/ k = new_row_key rowset seg
          \/ exists key st r loc rowset_find,
               key ∈ seg_pk_index seg /\ lookup_for_key' key st = Some r
               /\ lr_found r = Some (loc, rowset_find)
               /\ k = old_row_key loc /\ row = loc_row_id loc) as Hfin.
  { intros -> Hin. by apply (process_keys_marks _ (seg_pk_index seg) _ _ _ _ _
                               (fun _ H => H) Hkeys Hin). }
  destruct step as [s0 st|st]; simpl in *.
  - intros [= _ <-]. by apply Hfin.
  - destruct (bool_decide (0 < cs_pos st)).
    + destruct (negb (ok (flush_partial_update_block st))); intros [= _ <-]; by apply Hfin.
    + intros [= _ <-]. by apply Hfin.
Qed.

Lemma calc_segments_marks segments bm s bm' k row :
  enable_merge_on_write_correctness_check config = false ->
  calc_segments (fun segment b => calc_segment' segment b) segments bm = Some (s, bm') ->
  DeleteBitmap.contains k row bm' = true ->
  DeleteBitmap.contains k row bm = true
  \/ exists seg,
       seg ∈ segments
       /\ (k = new_row_key rowset seg
           \/ exists key st r loc rowset_find,
                key ∈ seg_pk_index seg /\ lookup_for_key' key st = Some r
                /\ lr_found r = Some (loc, rowset_find)
                /\ k = old_row_key loc /\ row = loc_row_id loc).
Proof.
  intros Hflag. revert bm. induction segments as [|seg rest IH]; intros bm; simpl.
  { intros [= _ <-]. by left. }
  destruct (calc_segment' seg bm) as [[s1 bm1]|] eqn:Hseg; simpl; [|done].
  assert (Hone : DeleteBitmap.contains k row bm1 = true ->
                 DeleteBitmap.contains k row bm = true
                 \/ exists seg0,
                      seg0 ∈ seg :: rest
                      /\ (k = new_row_key rowset seg0
                          \/ exists key st r loc rowset_find,
                               key ∈ seg_pk_index seg0 /\ lookup_for_key' key st = Some r
                               /\ lr_found r = Some (loc, rowset_find)
                               /\ k = old_row_key loc /\ row = loc_row_id loc)).
  { intros Hin.
    destruct (calc_segment_delete_bitmap_marks _ _ _ _ _ _ Hflag Hseg Hin) as [H|H];
      [by left|].
    right. exists seg. split; [by left | done]. }
  destruct (negb (ok s1)).
  - intros [= _ <-]. exact Hone.
  - intros Hrest Hin. destruct (IH _ Hrest Hin) as [H|(seg0 & Hseg0 & H)]; [by apply Hone|].
    right. exists seg0. split; [by right | done].
Qed.


End CalcSegmentRuns.

(** C1 at the worked instance: the new segment writes k1 and k2; the base
    rowset 7 holds k1 at row 0 of its segment 0, the lookup of k1 succeeds
    and that old row is marked in the bitmap the call returns. *)
Lemma calc_segment_delete_bitmap_per_key_witness :
  exists bm',
    Ex.calc Ex.check_on None = Some (OK, bm')
    /\ DeleteBitmap.contains (7, 0, TEMP_VERSION_COMMON) 0 bm' = true.
Proof.
  assert (Hok : match Ex.calc Ex.check_on None with
                | Some (OK, _) => true
                | _ => false
                end = true) by (vm_compute; reflexivity).
  destruct (Ex.calc Ex.check_on None) as [[s bm']|] eqn:Hcalc; [|discriminate Hok].
  destruct s; try discriminate Hok.
  exists bm'. split; [reflexivity|].
  destruct (calc_segment_delete_bitmap_per_key Ex.key_out_of_bounds 5 Ex.no_decode
              Ex.flush_ok Ex.check_on Ex.schema Ex.meta Ex.new_rowset Ex.schema
              [Ex.base_rowset] 2 None None Ex.new_segment ∅ bm' [] "k1"%string
              ["k2"%string] Hcalc eq_refl)
    as (st & row_id & final & Hbefore & _ & Hrow & Hbody).
  injection Hbefore as <-. injection Hrow as <-.
  destruct Hbody as (r & st' & Hlookup & _ & _ & _ & Hfound); [vm_compute; reflexivity|].
  assert (lr_status r = OK /\ fst <$> lr_found r = Some (mkRowLocation 7 0 0)) as [Hst Hloc].
  { destruct r as [status found caches]. vm_compute in Hlookup.
    injection Hlookup as <- <- _. done. }
  destruct (Hfound Hst) as (loc & rowset_find & Hf & Hmark & _).
  rewrite Hf in Hloc. injection Hloc as ->. exact Hmark.
Defined.



(** ** Commit-phase and publish-phase reconciliation *)

Lemma rowset_ids_difference_spec (cur pre to_add to_del : gset N) :
  _rowset_ids_difference cur pre to_add to_del
  = (to_add ∪ (cur ∖ pre), to_del ∪ (pre ∖ cur)).
Proof.
  assert (Hloop : forall (X other acc : gset N),
             set_fold (fun id a => if bool_decide (id ∈ other) then a else {[id]} ∪ a) acc X
             = acc ∪ (X ∖ other)).
  { intros X other acc.
    apply (set_fold_ind_L (fun (a : gset N) (Y : gset N) => a = acc ∪ (Y ∖ other))).
    - set_solver.
    - intros x Y a Hx ->. destruct (bool_decide_reflect (x ∈ other)); set_solver. }
  unfold _rowset_ids_difference. by rewrite !Hloop.
Qed.

Lemma remove_lookup (R : N * N * N -> N * N * N -> N * N * N -> bool) (lo hi : N * N * N)
    (bm : gmap (N * N * N) (gset N)) (k : N * N * N) :
  DeleteBitmap.remove R lo hi bm !! k = if R lo hi k then None else bm !! k.
Proof.
  unfold DeleteBitmap.remove. destruct (R lo hi k) eqn:HR.
  - apply map_lookup_filter_None. right. intros rows _. simpl. congruence.
  - destruct (bm !! k) as [rows|] eqn:Hk.
    + apply map_lookup_filter_Some. done.
    + apply map_lookup_filter_None. by left.
Qed.

Lemma remove_rowsets_lookup (R : N * N * N -> N * N * N -> N * N * N -> bool)
    (ids : gset N) (bm : gmap (N * N * N) (gset N)) (k : N * N * N) :
  ((exists id, id ∈ ids /\ R (id, 0, 0) (id, UINT32_MAX, INT64_MAX) k = true) ->
   remove_rowsets R ids bm !! k = None)
  /\ (forall rows, remove_rowsets R ids bm !! k = Some rows -> bm !! k = Some rows).
Proof.
  unfold remove_rowsets.
  apply (set_fold_ind_L
           (fun (acc : gmap (N * N * N) (gset N)) (X : gset N) =>
              ((exists id, id ∈ X /\ R (id, 0, 0) (id, UINT32_MAX, INT64_MAX) k = true) ->
               acc !! k = None)
              /\ (forall rows, acc !! k = Some rows -> bm !! k = Some rows))).
  - split; [|done]. intros (id & Hid & _). by apply not_elem_of_empty in Hid.
  - intros x X acc _ [IHnone IHsub]. rewrite remove_lookup. split.
    + intros (id & Hid & Hr). apply elem_of_union in Hid as [Hid|Hid].
      * apply elem_of_singleton in Hid as ->. by rewrite Hr.
      * destruct (R (x, 0, 0) (x, UINT32_MAX, INT64_MAX) k); [done|].
        apply IHnone. by exists id.
    + intros rows. destruct (R (x, 0, 0) (x, UINT32_MAX, INT64_MAX) k); [done|].
      apply IHsub.
Qed.

Lemma elem_of_get_rowset_by_ids tablet ids rs :
  rs ∈ get_rowset_by_ids tablet (Some ids) <->
  rs ∈ rs_version_map tablet /\ rowset_id rs ∈ ids.
Proof.
  unfold get_rowset_by_ids, sort_by_end_version_desc.
  rewrite merge_sort_Permutation, !list_elem_of_In, List.filter_In, bool_decide_eq_true.
  done.
Qed.

Lemma elem_of_sort_by_end_version_desc rowsets rs :
  rs ∈ sort_by_end_version_desc rowsets <-> rs ∈ rowsets.
Proof. unfold sort_by_end_version_desc. by rewrite merge_sort_Permutation. Qed.

Lemma elem_of_List_filter {A} (f : A -> bool) (l : list A) x :
  x ∈ List.filter f l <-> x ∈ l /\ f x = true.
Proof. by rewrite !list_elem_of_In, List.filter_In. Qed.

Lemma half_open_range_rowset (id s v : N) :
  s < UINT32_MAX ->
  DeleteBitmap.half_open_range (id, 0, 0) (id, UINT32_MAX, INT64_MAX) (id, s, v) = true.
Proof.
  intros Hs. unfold DeleteBitmap.half_open_range, DeleteBitmap.key_leb, DeleteBitmap.key_ltb.
  simpl. rewrite N.ltb_irrefl, N.eqb_refl. simpl.
  apply N.ltb_lt in Hs. rewrite Hs. simpl.
  destruct (s =? 0) eqn:Hs0.
  - apply N.eqb_eq in Hs0 as ->. simpl.
    replace (v <? 0) with false by (symmetry; apply N.ltb_ge; lia). done.
  - replace (s <? 0) with false by (symmetry; apply N.ltb_ge; lia). done.
Qed.

Section ReconcileFacts.

Variable in_key_range : BitmapKey -> BitmapKey -> BitmapKey -> bool.

(** The range test covers at least the keys from the lower bound up to, but
    not including, the upper bound. *)
Hypothesis in_key_range_covers :
  forall lo hi k, DeleteBitmap.half_open_range lo hi k = true -> in_key_range lo hi k = true.

(** C5 (as amended): in both phases [to_add] is the current ids minus the
    ids known at write start and [to_del] the converse; no entry of a rowset
    in [to_del] is left in the working bitmap, whatever its segment id and
    version; and the base rowsets of the calculation are rowsets of the
    tablet whose id is in [to_add] - to which the publish phase of a
    transactional load adds the transaction's invisible rowsets. *)
Theorem reconcile_rowset_ids (tablet : Tablet) (txn_info : TabletTxnInfo)
    (cur_rowset_ids pre_rowset_ids : gset N) (delete_bitmap : gmap (N * N * N) (gset N)) :
  let c := commit_phase_reconcile in_key_range tablet cur_rowset_ids pre_rowset_ids
                                  delete_bitmap in
  let p := publish_phase_reconcile in_key_range tablet txn_info cur_rowset_ids in
  (rowset_ids_to_add c = cur_rowset_ids ∖ pre_rowset_ids
   /\ rowset_ids_to_del c = pre_rowset_ids ∖ cur_rowset_ids
   /\ (forall id s v, id ∈ rowset_ids_to_del c -> s < UINT32_MAX ->
                      working_bitmap c !! (id, s, v) = None)
   /\ (forall rs, rs ∈ base_rowsets c ->
                  rs ∈ rs_version_map tablet /\ rowset_id rs ∈ rowset_ids_to_add c))
  /\ (rowset_ids_to_add p = cur_rowset_ids ∖ txn_rowset_ids txn_info
      /\ rowset_ids_to_del p = txn_rowset_ids txn_info ∖ cur_rowset_ids
      /\ (forall id s v, id ∈ rowset_ids_to_del p -> s < UINT32_MAX ->
                         working_bitmap p !! (id, s, v) = None)
      /\ (forall rs, rs ∈ rowsets_skip_alignment p ++ base_rowsets p ->
                     (rs ∈ rs_version_map tablet /\ rowset_id rs ∈ rowset_ids_to_add p)
                     \/ (is_txn_load txn_info = true /\ rs ∈ invisible_rowsets txn_info))).
Proof.
  intros c p.
  assert (Hremoved : forall ids bm id s v,
             id ∈ ids -> s < UINT32_MAX ->
             remove_rowsets in_key_range ids bm !! (id, s, v) = None).
  { intros ids bm id s v Hid Hs. apply remove_rowsets_lookup. exists id. split; [done|].
    by apply in_key_range_covers, half_open_range_rowset. }
  split.
  - subst c. unfold commit_phase_reconcile. rewrite rowset_ids_difference_spec. simpl.
    rewrite !union_empty_l_L.
    split; [done|]. split; [done|]. split; [apply Hremoved|].
    intros rs Hrs. by apply elem_of_get_rowset_by_ids in Hrs.
  - subst p. unfold publish_phase_reconcile. rewrite rowset_ids_difference_spec.
    rewrite !union_empty_l_L.
    set (to_add := cur_rowset_ids ∖ txn_rowset_ids txn_info).
    set (to_del := txn_rowset_ids txn_info ∖ cur_rowset_ids).
    set (specified :=
           if is_txn_load txn_info
           then sort_by_end_version_desc
                  (get_rowset_by_ids tablet (Some to_add) ++ invisible_rowsets txn_info)
           else get_rowset_by_ids tablet (Some to_add)).
    assert (Hspec : forall rs, rs ∈ specified ->
               (rs ∈ rs_version_map tablet /\ rowset_id rs ∈ to_add)
               \/ (is_txn_load txn_info = true /\ rs ∈ invisible_rowsets txn_info)).
    { intros rs. unfold specified. destruct (is_txn_load txn_info).
      - rewrite elem_of_sort_by_end_version_desc, elem_of_app, elem_of_get_rowset_by_ids.
        intros [?|?]; [by left | by right].
      - rewrite elem_of_get_rowset_by_ids. by left. }
    destruct (txn_partial_update_info txn_info) as [info|]; simpl.
    2: { split; [done|]. split; [done|]. split; [apply Hremoved | apply Hspec]. }
    destruct (txn_is_partial_update txn_info); simpl.
    2: { split; [done|]. split; [done|]. split; [apply Hremoved | apply Hspec]. }
    match goal with
    | |- context [List.filter ?f specified] => set (skip := f)
    end.
    destruct (List.filter skip specified) as [|rs0 skipped] eqn:Hskip; simpl.
    { split; [done|]. split; [done|]. split; [apply Hremoved | apply Hspec]. }
    split; [done|]. split; [done|]. split; [apply Hremoved|].
    intros rs Hrs. apply Hspec.
    change (rs ∈ (rs0 :: skipped) ++ List.filter (fun rs => negb (skip rs)) specified) in Hrs.
    rewrite <- Hskip in Hrs. apply elem_of_app in Hrs as [Hrs|Hrs];
      by apply elem_of_List_filter in Hrs as [? _].
Qed.

End ReconcileFacts.

(** C5 as stated fails in the publish phase of a transactional load: the
    base rowsets of the calculation include the invisible rowset 5, whose id
    is not in [to_add] = {7}. *)
Lemma publish_phase_base_rowsets_beyond_to_add :
  let p := publish_phase_reconcile DeleteBitmap.half_open_range Ex.tablet Ex.txn_load {[7]} in
  rowset_ids_to_add p = {[7]}
  /\ rowset_id <$> base_rowsets p = [5; 7]
  /\ bool_decide (5 ∈ rowset_ids_to_add p) = false.
Proof. vm_compute. done. Qed.

(** C5 (as amended) at a worked instance: rowset 3, known at write start,
    has been compacted away into rowset 7; its entry leaves the bitmap. *)
Lemma reconcile_rowset_ids_witness :
  let p := publish_phase_reconcile DeleteBitmap.half_open_range Ex.tablet Ex.txn_plain {[7]} in
  rowset_ids_to_del p = {[3]} ∖ {[7]} /\ working_bitmap p !! (3, 0, 0) = None.
Proof.
  pose proof (reconcile_rowset_ids DeleteBitmap.half_open_range (fun _ _ _ H => H)
                Ex.tablet Ex.txn_plain {[7]} ∅ ∅) as [_ (_ & Hdel & Hgone & _)].
  split; [exact Hdel|]. apply Hgone; [|done]. rewrite Hdel. vm_compute. done.
Defined.

(** ** Compaction: carrying the delete bitmap over *)

Lemma foldl_preserves {A B} (P : B -> Prop) (f : B -> A -> B) (l : list A) (b : B) :
  P b -> (forall b' a, a ∈ l -> P b' -> P (f b' a)) -> P (foldl f b l).
Proof.
  revert b. induction l as [|a l IH]; intros b Hb Hstep; simpl; [done|].
  apply IH.
  - apply Hstep; [by left | done].
  - intros b' a' Ha'. apply Hstep. by right.
Qed.

Lemma foldl_establishes {A B} (Q : B -> Prop) (f : B -> A -> B) (l : list A) (x : A) :
  x ∈ l -> (forall b, Q (f b x)) -> (forall b a, Q b -> Q (f b a)) ->
  forall b, Q (foldl f b l).
Proof.
  intros Hx Hest Hkeep. induction l as [|a l IH]; intros b; simpl.
  { by apply elem_of_nil in Hx. }
  apply elem_of_cons in Hx as [->|Hx].
  - apply foldl_preserves; [apply Hest|]. intros b' a' _. apply Hkeep.
  - by apply IH.
Qed.

Lemma elem_of_sorted_rows (rows : gset N) (row : N) : row ∈ sorted_rows rows <-> row ∈ rows.
Proof. unfold sorted_rows. by rewrite merge_sort_Permutation, elem_of_elements. Qed.

Lemma elem_of_sorted_entries (bm : gmap (N * N * N) (gset N)) (key : N * N * N)
    (rows : gset N) :
  (key, rows) ∈ sorted_entries bm <-> bm !! key = Some rows.
Proof. unfold sorted_entries. by rewrite merge_sort_Permutation, elem_of_map_to_list. Qed.

Lemma subset_lookup_Some (R : N * N * N -> N * N * N -> N * N * N -> bool) (lo hi : N * N * N)
    (bm : gmap (N * N * N) (gset N)) (k : N * N * N) (rows : gset N) :
  DeleteBitmap.subset R lo hi bm !! k = Some rows <-> bm !! k = Some rows /\ R lo hi k = true.
Proof. unfold DeleteBitmap.subset. by rewrite map_lookup_filter_Some. Qed.

Lemma closed_range_same_segment (r sg a b : N) (k : N * N * N) :
  DeleteBitmap.closed_range (r, sg, a) (r, sg, b) k = true -> k.1.1 = r /\ k.1.2 = sg.
Proof.
  destruct k as [[kr ks] kv].
  unfold DeleteBitmap.closed_range, DeleteBitmap.key_leb, DeleteBitmap.key_ltb. simpl.
  destruct (N.ltb_spec kr r), (N.ltb_spec r kr), (N.eqb_spec kr r), (N.eqb_spec r kr),
    (N.ltb_spec ks sg), (N.ltb_spec sg ks), (N.eqb_spec ks sg), (N.eqb_spec sg ks);
    simpl; try done; try lia.
Qed.

Section CompactionFacts.

Variable in_key_range : BitmapKey -> BitmapKey -> BitmapKey -> bool.
Variable rowid_conversion : RowLocation -> option RowLocation.
Variable input_rowsets : list Rowset.
Variable start_version end_version : N.
Variable input_delete_bitmap : gmap (N * N * N) (gset N).

(** The range test selects nothing outside the two bounds. *)
Hypothesis in_key_range_within :
  forall lo hi k, in_key_range lo hi k = true -> DeleteBitmap.closed_range lo hi k = true.

Local Abbreviation convert_row' := (convert_row rowid_conversion).
Local Abbreviation convert_entry' := (convert_entry rowid_conversion).
Local Abbreviation convert_segment' :=
  (convert_segment in_key_range rowid_conversion input_delete_bitmap start_version end_version).
Local Abbreviation convert_rowset' :=
  (convert_rowset in_key_range rowid_conversion input_delete_bitmap start_version end_version).
Local Abbreviation calc' :=
  (calc_compaction_output_rowset_delete_bitmap in_key_range rowid_conversion input_rowsets
     start_version end_version input_delete_bitmap).
Local Abbreviation marked' :=
  (marked_in_range in_key_range input_rowsets start_version end_version input_delete_bitmap).

Lemma kept_by_entry (Q : CompactionOut -> Prop) rs seg_id out entry :
  kept_by_steps rowid_conversion Q -> Q out -> Q (convert_entry' rs seg_id out entry).
Proof.
  intros HQ Hout. unfold convert_entry. apply foldl_preserves; [done|].
  intros b a _. apply HQ.
Qed.

Lemma kept_by_segment (Q : CompactionOut -> Prop) rs out seg_id :
  kept_by_steps rowid_conversion Q -> Q out -> Q (convert_segment' rs out seg_id).
Proof.
  intros HQ Hout. unfold convert_segment. apply foldl_preserves; [done|].
  intros b a _. by apply kept_by_entry.
Qed.

Lemma kept_by_rowset (Q : CompactionOut -> Prop) out rs :
  kept_by_steps rowid_conversion Q -> Q out -> Q (convert_rowset' out rs).
Proof.
  intros HQ Hout. unfold convert_rowset. apply foldl_preserves; [done|].
  intros b a _. by apply kept_by_segment.
Qed.

Lemma kept_by_calc (Q : CompactionOut -> Prop) out :
  kept_by_steps rowid_conversion Q -> Q out -> Q (calc' out).
Proof.
  intros HQ Hout. unfold calc_compaction_output_rowset_delete_bitmap.
  apply foldl_preserves; [done|]. intros b a _. by apply kept_by_rowset.
Qed.

(** What the step for a marked row establishes stays true to the end. *)
Lemma established_by_marked_row (Q : CompactionOut -> Prop) rs seg_id v row_id out :
  marked' rs seg_id v row_id ->
  kept_by_steps rowid_conversion Q ->
  (forall b, Q (convert_row' rs (N.of_nat seg_id) v b row_id)) ->
  Q (calc' out).
Proof.
  intros (Hrs & Hseg & (rows & Hrows & Hrow) & Hrange) HQ Hest.
  unfold calc_compaction_output_rowset_delete_bitmap.
  apply (foldl_establishes Q _ _ rs Hrs); [|intros b a; by apply kept_by_rowset].
  intros b. unfold convert_rowset.
  apply (foldl_establishes Q _ _ seg_id); [|intros b'|intros b' a; by apply kept_by_segment].
  { apply elem_of_seq. lia. }
  unfold convert_segment.
  apply (foldl_establishes Q _ _ (rowset_id rs, N.of_nat seg_id, v, rows));
    [|intros b''|intros b'' a; by apply kept_by_entry].
  { apply elem_of_sorted_entries, subset_lookup_Some. done. }
  unfold convert_entry. simpl.
  apply (foldl_establishes Q _ _ row_id); [|intros b3; apply Hest|intros b3 a; by apply HQ].
  by apply elem_of_sorted_rows.
Qed.

(** A property of the output that holds at the start and that the step for
    any marked row keeps holds at the end. *)
Lemma invariant_of_marked_rows (P : CompactionOut -> Prop) out :
  P out ->
  (forall rs seg_id v row_id b,
      marked' rs seg_id v row_id -> P b ->
      P (convert_row' rs (N.of_nat seg_id) v b row_id)) ->
  P (calc' out).
Proof.
  intros Hout Hstep. unfold calc_compaction_output_rowset_delete_bitmap.
  apply foldl_preserves; [done|]. intros b rs Hrs Hb. unfold convert_rowset.
  apply foldl_preserves; [done|]. intros b' seg_id Hseg Hb'. unfold convert_segment.
  apply elem_of_seq in Hseg.
  apply foldl_preserves; [done|]. intros b'' [key rows] Hentry Hb''.
  apply elem_of_sorted_entries, subset_lookup_Some in Hentry as [Hlookup Hrange].
  unfold convert_entry. simpl.
  apply foldl_preserves; [done|]. intros b3 row_id Hrow Hb3.
  apply elem_of_sorted_rows in Hrow.
  destruct (closed_range_same_segment _ _ _ _ _ (in_key_range_within _ _ _ Hrange))
    as [Hk1 Hk2].
  destruct key as [[kr ks] kv]. simpl in *. subst kr ks.
  apply Hstep; [|done]. repeat split; [done | lia | by exists rows | done].
Qed.

Lemma convert_row_output_mono rs seg_id v out row_id key row :
  DeleteBitmap.contains key row (output_rowset_delete_bitmap out) = true ->
  DeleteBitmap.contains key row
    (output_rowset_delete_bitmap (convert_row' rs seg_id v out row_id)) = true.
Proof.
  unfold convert_row. destruct (rowid_conversion _); simpl; [|done].
  apply contains_add_mono.
Qed.

(** Every delete mark of an input rowset at a version that the range test
    of [subset] selects is carried over, and the output bitmap gains
    nothing but the entries of converted rows. *)
Lemma selected_marks_carried_over (out : CompactionOut) :
  (forall rs seg_id v row_id,
     marked' rs seg_id v row_id ->
     let src := mkRowLocation (rowset_id rs) (N.of_nat seg_id) row_id in
     match rowid_conversion src with
     | Some dst =>
         DeleteBitmap.contains (loc_rowset_id dst, loc_segment_id dst, v) (loc_row_id dst)
           (output_rowset_delete_bitmap (calc' out)) = true
     | None =>
         forall missed, missed_rows out = Some missed ->
           exists missed', missed_rows (calc' out) = Some missed' /\ src ∈ missed'
     end)
  /\ (forall key row,
        DeleteBitmap.contains key row (output_rowset_delete_bitmap (calc' out)) = true ->
        DeleteBitmap.contains key row (output_rowset_delete_bitmap out) = true
        \/ exists rs seg_id row_id dst,
             marked' rs seg_id key.2 row_id
             /\ rowid_conversion (mkRowLocation (rowset_id rs) (N.of_nat seg_id) row_id)
                = Some dst
             /\ key = (loc_rowset_id dst, loc_segment_id dst, key.2)
             /\ row = loc_row_id dst).
Proof.
  split.
  - intros rs seg_id v row_id Hmarked src.
    destruct (rowid_conversion src) as [dst|] eqn:Hconv.
    + apply (established_by_marked_row
               (fun b => DeleteBitmap.contains
                           (loc_rowset_id dst, loc_segment_id dst, v) (loc_row_id dst)
                           (output_rowset_delete_bitmap b) = true) _ _ _ _ _ Hmarked).
      * intros rs' seg' v' b row'. apply convert_row_output_mono.
      * intros b. unfold convert_row. fold src. rewrite Hconv. simpl.
        apply contains_add_same.
    + intros missed Hmissed.
      assert (is_Some (missed_rows (calc' out))) as [missed' Hmissed'].
      { apply (kept_by_calc (fun b => is_Some (missed_rows b))); [|by eauto].
        intros rs' seg' v' b row' [m Hm]. unfold convert_row.
        destruct (rowid_conversion (mkRowLocation (rowset_id rs') seg' row')); simpl;
          rewrite Hm; by eauto. }
      exists missed'. split; [done|].
      assert (match missed_rows (calc' out) with
              | Some m => src ∈ m
              | None => True
              end) as Hin.
      { apply (established_by_marked_row
                 (fun b => match missed_rows b with Some m => src ∈ m | None => True end)
                 _ _ _ _ _ Hmarked).
        - intros rs' seg' v' b row'. unfold convert_row.
          destruct (rowid_conversion (mkRowLocation (rowset_id rs') seg' row')); simpl;
            [done|].
          destruct (missed_rows b); simpl; [|done]. set_solver.
        - intros b. unfold convert_row. fold src. rewrite Hconv. simpl.
          destruct (missed_rows b); simpl; [|done]. set_solver. }
      by rewrite Hmissed' in Hin.
  - apply (invariant_of_marked_rows
             (fun b => forall key row,
                DeleteBitmap.contains key row (output_rowset_delete_bitmap b) = true ->
                DeleteBitmap.contains key row (output_rowset_delete_bitmap out) = true
                \/ exists rs seg_id row_id dst,
                     marked' rs seg_id key.2 row_id
                     /\ rowid_conversion
                          (mkRowLocation (rowset_id rs) (N.of_nat seg_id) row_id) = Some dst
                     /\ key = (loc_rowset_id dst, loc_segment_id dst, key.2)
                     /\ row = loc_row_id dst)).
    + intros key row H. by left.
    + intros rs seg_id v row_id b Hmarked IH key row. unfold convert_row.
      destruct (rowid_conversion _) as [dst|] eqn:Hconv; simpl; [|apply IH].
      intros H. apply contains_add_inv in H as [[-> ->]|H]; [|by apply IH].
      right. exists rs, seg_id, row_id, dst. done.
Qed.

End CompactionFacts.

Lemma half_open_within_closed (lo hi k : N * N * N) :
  DeleteBitmap.half_open_range lo hi k = true -> DeleteBitmap.closed_range lo hi k = true.
Proof.
  destruct lo as [[lr ls] lv], hi as [[hr hs] hv], k as [[kr ks] kv].
  unfold DeleteBitmap.half_open_range, DeleteBitmap.closed_range, DeleteBitmap.key_leb,
    DeleteBitmap.key_ltb. simpl.
  destruct (negb _); simpl; [|done].
  destruct (N.ltb_spec kr hr), (N.ltb_spec hr kr), (N.eqb_spec kr hr), (N.eqb_spec hr kr),
    (N.ltb_spec ks hs), (N.ltb_spec hs ks), (N.eqb_spec ks hs), (N.eqb_spec hs ks),
    (N.ltb_spec kv hv), (N.ltb_spec hv kv); simpl; try done; try lia.
Qed.

Lemma closed_range_versions (r sg a b v : N) :
  DeleteBitmap.closed_range (r, sg, a) (r, sg, b) (r, sg, v) = true <-> a <= v <= b.
Proof.
  unfold DeleteBitmap.closed_range, DeleteBitmap.key_leb, DeleteBitmap.key_ltb. simpl.
  rewrite !N.ltb_irrefl, !N.eqb_refl. simpl.
  rewrite andb_true_iff, !negb_true_iff, !N.ltb_ge. done.
Qed.

Lemma contains_lookup (key : N * N * N) (row : N) (bm : gmap (N * N * N) (gset N)) :
  DeleteBitmap.contains key row bm = true <-> exists rows, bm !! key = Some rows /\ row ∈ rows.
Proof.
  unfold DeleteBitmap.contains. destruct (bm !! key) as [rows|].
  - rewrite bool_decide_eq_true. split; [by exists rows | by intros (? & [= <-] & ?)].
  - split; [done | by intros (? & ? & ?)].
Qed.

Lemma marked_in_closed_range (input_rowsets : list Rowset) (start_version end_version : N)
    (input_delete_bitmap : gmap (N * N * N) (gset N)) (rs : Rowset) (seg_id : nat)
    (v row_id : N) :
  marked_in_range DeleteBitmap.closed_range input_rowsets start_version end_version
    input_delete_bitmap rs seg_id v row_id
  <-> rs ∈ input_rowsets /\ (seg_id < num_segments rs)%nat
      /\ start_version <= v <= end_version
      /\ DeleteBitmap.contains (rowset_id rs, N.of_nat seg_id, v) row_id input_delete_bitmap
         = true.
Proof.
  unfold marked_in_range. rewrite closed_range_versions, contains_lookup. tauto.
Qed.


(** With a [subset] that leaves its upper bound out, a mark at
    [end_version] itself is not carried over: the mark on row 0 of the base
    rowset 7 at version 3 has a destination, and a compaction of the
    versions 0 to 3 gives the output rowset no entry for it. *)
Lemma compaction_half_open_drops_end_version :
  Ex.conversion (mkRowLocation 7 0 0) = Some (mkRowLocation 8 0 0)
  /\ DeleteBitmap.contains (7, 0, 3) 0 Ex.input_bitmap = true
  /\ output_rowset_delete_bitmap
       (calc_compaction_output_rowset_delete_bitmap DeleteBitmap.half_open_range
          Ex.conversion [Ex.base_rowset] 0 3 Ex.input_bitmap
          (mkCompactionOut (Some ∅) (Some []) ∅)) = ∅.
Proof. vm_compute. done. Qed.


(** ** Compaction: checking the row-id conversion *)

Lemma check_locations_spec segments dst_segments locations :
  (forall pair, pair ∈ locations ->
     exists src_segment dst_segment,
       segments !! N.to_nat (loc_segment_id pair.1) = Some src_segment
       /\ dst_segments !! N.to_nat (loc_segment_id pair.2) = Some dst_segment
       /\ ((seg_read_key_by_rowid src_segment (loc_row_id pair.1)).1 = OK
           \/ (seg_read_key_by_rowid src_segment (loc_row_id pair.1)).1
              = NOT_IMPLEMENTED_ERROR)
       /\ (seg_read_key_by_rowid dst_segment (loc_row_id pair.2)).1 = OK) ->
  check_locations segments dst_segments locations
  = Some (if forallb (keys_agree segments dst_segments) (verified_pairs segments locations)
          then PairsDone else PairsReturn INTERNAL_ERROR).
Proof.
  induction locations as [|[src dst] rest IH]; intros Hreads; [done|].
  destruct (Hreads (src, dst)) as (ssg & dsg & Hs & Hd & Hsr & Hdr); [by left|].
  simpl in Hs, Hd, Hsr, Hdr. cbn [check_locations verified_pairs].
  rewrite Hs. cbn [mbind option_bind].
  destruct (seg_read_key_by_rowid ssg (loc_row_id src)) as [s src_key] eqn:Hsrc.
  simpl in Hsr. cbn [fst]. unfold is_code, ok.
  destruct Hsr as [->| ->]; simpl; [|done].
  rewrite Hd. cbn [mbind option_bind].
  destruct (seg_read_key_by_rowid dsg (loc_row_id dst)) as [s' dst_key] eqn:Hdst.
  simpl in Hdr. subst s'. simpl.
  unfold keys_agree at 1. simpl. rewrite Hs, Hd, Hsrc, Hdst. simpl.
  destruct (bool_decide_reflect (src_key = dst_key)); simpl; [|done].
  apply IH. intros pair Hpair. apply Hreads. by right.
Qed.

Lemma check_location_map_spec dst_segments cache location_map :
  reads_succeed dst_segments location_map ->
  NoDup ((fun entry => rowset_id entry.1) <$> location_map) ->
  (forall entry, entry ∈ location_map -> cache !! rowset_id entry.1 = None) ->
  check_location_map dst_segments cache location_map
  = Some (if all_verified_agree dst_segments location_map then OK else INTERNAL_ERROR).
Proof.
  revert cache. induction location_map as [|[rs locations] rest IH];
    intros cache Hreads Hnodup Hcache; [done|].
  cbn [check_location_map].
  pose proof (Hcache (rs, locations) ltac:(by left)) as Hmiss. simpl in Hmiss.
  rewrite Hmiss. simpl.
  destruct (Hreads (rs, locations)) as [Hload Hpairs]; [by left|]. simpl in Hload, Hpairs.
  destruct (load_segments rs) as [st segments] eqn:Hrs. simpl in Hload. subst st. simpl.
  rewrite check_locations_spec by done.
  unfold all_verified_agree. cbn [forallb].
  destruct (forallb (keys_agree segments dst_segments) (verified_pairs segments locations));
    simpl; [|done].
  rewrite fmap_cons in Hnodup.
  apply list.NoDup_cons in Hnodup as [Hnotin Hnodup].
  fold (all_verified_agree dst_segments rest).
  apply IH; [|done|].
  - intros entry Hentry. apply Hreads. by right.
  - intros entry Hentry. rewrite lookup_insert_ne; [apply Hcache; by right|].
    intros Heq. apply Hnotin. simpl. rewrite Heq. apply list_elem_of_fmap. by exists entry.
Qed.

(** C7: an empty location map is accepted without reading anything.
    Otherwise, when no segment load and no key read fails, the check returns
    OK if for every pair it verifies the key read at the source row id
    equals the key read at the destination row id, and an internal error if
    the keys of some verified pair differ. *)
Theorem check_rowid_conversion_keys (dst_rowset : Rowset)
    (location_map : list (Rowset * list (RowLocation * RowLocation))) :
  (location_map <> [] -> (load_segments dst_rowset).1 = OK) ->
  reads_succeed (load_segments dst_rowset).2 location_map ->
  NoDup ((fun entry => rowset_id entry.1) <$> location_map) ->
  check_rowid_conversion dst_rowset [] = Some OK
  /\ check_rowid_conversion dst_rowset location_map
     = Some (if all_verified_agree (load_segments dst_rowset).2 location_map
             then OK else INTERNAL_ERROR).
Proof.
  intros Hdst Hreads Hnodup. split; [done|].
  assert (Hunfold : location_map <> [] ->
            check_rowid_conversion dst_rowset location_map
            = let '(st, dst_segments) := load_segments dst_rowset in
              if negb (ok st) then Some st
              else check_location_map dst_segments ∅ location_map).
  { by destruct location_map. }
  destruct location_map as [|entry rest] eqn:Hlm; [done|]. rewrite <- Hlm in *.
  assert (location_map <> []) as Hne by (by rewrite Hlm).
  rewrite (Hunfold Hne). specialize (Hdst Hne). clear Hunfold Hlm.
  destruct (load_segments dst_rowset) as [st dst_segments]. cbn [fst snd] in *.
  subst st. change (negb (ok OK)) with false. cbv iota.
  apply check_location_map_spec; [done | done |]. intros e _. apply lookup_empty.
Qed.

(** C7 at the worked instances: equal keys pass, different keys are an
    internal error. *)
Lemma check_rowid_conversion_keys_witness :
  check_rowid_conversion Ex.output_rowset Ex.good_location_map = Some OK
  /\ check_rowid_conversion Ex.output_rowset Ex.bad_location_map = Some INTERNAL_ERROR.
Proof.
  assert (forall src, src = 0 \/ src = 1 ->
            reads_succeed (load_segments Ex.output_rowset).2
              [(Ex.base_rowset, [(mkRowLocation 7 0 src, mkRowLocation 8 0 0)])]) as Hreads.
  { intros src Hsrc entry Hentry. apply list_elem_of_singleton in Hentry as ->.
    split; [done|]. intros pair Hpair. apply list_elem_of_singleton in Hpair as ->.
    eexists _, _. split; [reflexivity|]. split; [reflexivity|].
    destruct Hsrc as [-> | ->]; (split; [by left | done]). }
  assert (NoDup [7]) as Hnodup by (apply NoDup_singleton).
  split.
  - exact (proj2 (check_rowid_conversion_keys Ex.output_rowset Ex.good_location_map
                    (fun _ => eq_refl) (Hreads 0 (or_introl eq_refl)) Hnodup)).
  - exact (proj2 (check_rowid_conversion_keys Ex.output_rowset Ex.bad_location_map
                    (fun _ => eq_refl) (Hreads 1 (or_intror eq_refl)) Hnodup)).
Defined.

(** ** The per-round budget of the compaction producer *)

(** C9: with an empty queue the budget doubles, capped by the ceiling; with
    a queue at or above the high-water mark it halves, but not below the
    floor; otherwise it stays.  With floor 1, ceiling 64 and a high-water
    mark above 3 and at most 5 these are the scenarios of the test:
    (1, queue 1) stays 1, (4, queue 0) becomes 8, (64, queue 0) stays 64,
    (8, queue 3) stays 8, (8, queue 5) becomes 4. *)
Theorem compaction_budget_auto_tuning (floor ceiling high_water budget queue_depth : Z) :
  ((queue_depth = 0 ->
    adjust_compaction_num_per_round floor ceiling high_water budget queue_depth
    = Z.min (2 * budget) ceiling)
   /\ (queue_depth <> 0 -> high_water <= queue_depth ->
       adjust_compaction_num_per_round floor ceiling high_water budget queue_depth
       = Z.max (budget / 2) floor)
   /\ (queue_depth <> 0 -> queue_depth < high_water ->
       adjust_compaction_num_per_round floor ceiling high_water budget queue_depth
       = budget))%Z
  /\ ((queue_depth = 0 ->
       adjust_compaction_num_per_round floor ceiling high_water budget queue_depth
       <= ceiling)
      /\ (queue_depth <> 0 -> high_water <= queue_depth ->
          floor <= adjust_compaction_num_per_round floor ceiling high_water budget
                     queue_depth))%Z
  /\ (3 < high_water <= 5 ->
      adjust_compaction_num_per_round 1 64 high_water 1 1 = 1
      /\ adjust_compaction_num_per_round 1 64 high_water 4 0 = 8
      /\ adjust_compaction_num_per_round 1 64 high_water 64 0 = 64
      /\ adjust_compaction_num_per_round 1 64 high_water 8 3 = 8
      /\ adjust_compaction_num_per_round 1 64 high_water 8 5 = 4)%Z.
Proof.
  unfold adjust_compaction_num_per_round. repeat split.
  - intros ->. done.
  - intros Hq Hh. destruct (Z.eqb_spec queue_depth 0); [done|].
    destruct (Z.leb_spec high_water queue_depth); [done | lia].
  - intros Hq Hh. destruct (Z.eqb_spec queue_depth 0); [done|].
    destruct (Z.leb_spec high_water queue_depth); [lia | done].
  - intros ->. simpl. lia.
  - intros Hq Hh. destruct (Z.eqb_spec queue_depth 0); [done|].
    destruct (Z.leb_spec high_water queue_depth); lia.
  - simpl. destruct (Z.leb_spec high_water 1); [lia | done].
  - simpl. destruct (Z.leb_spec high_water 3); [lia | done].
  - simpl. destruct (Z.leb_spec high_water 5); [done | lia].
Qed.

(** ** Primary-key lookup: the scan and its result *)

Lemma find_app {A} (f : A -> bool) (l1 l2 : list A) :
  List.find f (l1 ++ l2)
  = match List.find f l1 with
    | Some x => Some x
    | None => List.find f l2
    end.
Proof. induction l1 as [|a l1 IH]; simpl; [done|]. by destruct (f a). Qed.

Lemma find_fmap {A B} (f : B -> bool) (g : A -> B) (l : list A) :
  List.find f (g <$> l) = g <$> List.find (fun a => f (g a)) l.
Proof. induction l as [|a l IH]; simpl; [done|]. by destruct (f (g a)). Qed.

Lemma find_none_iff {A} (f : A -> bool) (l : list A) :
  List.find f l = None <-> forall x, x ∈ l -> f x = false.
Proof.
  induction l as [|a l IH]; simpl.
  - split; [|done]. intros _ x Hx. by apply elem_of_nil in Hx.
  - destruct (f a) eqn:Hfa.
    + split; [done|]. intros H. rewrite H in Hfa; [done | by left].
    + rewrite IH. split.
      * intros H x Hx. apply elem_of_cons in Hx as [->|Hx]; [done | by apply H].
      * intros H x Hx. apply H. by right.
Qed.

Lemma find_some_holds {A} (f : A -> bool) (l : list A) x :
  List.find f l = Some x -> f x = true.
Proof.
  induction l as [|a l IH]; simpl; [done|].
  destruct (f a) eqn:Hfa; [by intros [= <-] | done].
Qed.

Lemma elem_of_descending_ids (n j : nat) : j ∈ descending_ids n <-> (j < n)%nat.
Proof.
  unfold descending_ids.
  rewrite list_elem_of_In, <- List.in_rev, <- list_elem_of_In, elem_of_seq. lia.
Qed.

Section LookupFacts.

Variable key_is_not_in_segment : Slice -> KeyBoundsPB -> bool -> bool.
Variable encoded_key : string.
Variable key_without_seq : Slice.
Variable schema : TabletSchema.
Variable with_seq_col with_rowid : bool.
Variable version : N.
Variable bm : gmap (N * N * N) (gset N).

Local Abbreviation probe' := (probe encoded_key with_seq_col with_rowid).
Local Abbreviation is_reported' :=
  (is_reported encoded_key with_seq_col with_rowid version bm).
Local Abbreviation is_deleted_hit' :=
  (is_deleted_hit encoded_key with_seq_col with_rowid version bm).
Local Abbreviation consulted' :=
  (consulted encoded_key with_seq_col with_rowid version bm (has_sequence_col schema)).
Local Abbreviation consulted_candidates' :=
  (consulted_candidates key_is_not_in_segment encoded_key key_without_seq with_seq_col
     with_rowid version bm schema).
Local Abbreviation rowset_candidates' :=
  (rowset_candidates key_is_not_in_segment key_without_seq).
Local Abbreviation candidates' := (candidates key_is_not_in_segment key_without_seq).
Local Abbreviation scan' :=
  (scan_picked_segments encoded_key schema with_seq_col with_rowid version bm).
Local Abbreviation lookup_in_rowsets' :=
  (lookup_in_rowsets key_is_not_in_segment encoded_key key_without_seq schema
     with_seq_col with_rowid version bm).

Lemma pick_segments_spec rs ids :
  (forall j, j ∈ ids -> (j < List.length (segments_key_bounds rs))%nat) ->
  pick_segments key_is_not_in_segment key_without_seq rs ids
  = Some (List.filter
            (fun j => match segments_key_bounds rs !! j with
                      | Some bounds =>
                          negb (key_is_not_in_segment key_without_seq bounds
                                  (is_segments_key_bounds_truncated rs))
                      | None => false
                      end) ids).
Proof.
  induction ids as [|j rest IH]; intros Hids; [done|]. simpl.
  destruct (lookup_lt_is_Some_2 (segments_key_bounds rs) j) as [bounds Hb].
  { apply Hids. by left. }
  rewrite Hb. simpl. rewrite IH by (intros j' Hj'; apply Hids; by right). simpl.
  by destruct (key_is_not_in_segment key_without_seq bounds _).
Qed.

Lemma pick_segments_picked_ids rs :
  List.length (segments_key_bounds rs) = num_segments rs ->
  pick_segments key_is_not_in_segment key_without_seq rs (descending_ids (num_segments rs))
  = Some (picked_ids key_is_not_in_segment key_without_seq rs).
Proof.
  intros Hlen. apply pick_segments_spec. intros j Hj.
  apply elem_of_descending_ids in Hj. lia.
Qed.

Lemma picked_ids_in_range rs j :
  j ∈ picked_ids key_is_not_in_segment key_without_seq rs -> (j < num_segments rs)%nat.
Proof.
  unfold picked_ids. rewrite elem_of_List_filter. intros [Hj _].
  by apply elem_of_descending_ids in Hj.
Qed.

(** The loop over the picked segments of one rowset returns the first
    occurrence to report among the candidates it consults, and falls
    through when there is none. *)
Lemma scan_picked_segments_consulted segments picked :
  (forall j, j ∈ picked -> is_Some (segments !! j)) ->
  (forall sg, sg ∈ consulted' (omap (fun j => segments !! j) picked) ->
     (probe' sg).1 = OK \/ (probe' sg).1 = KEY_NOT_FOUND
     \/ (probe' sg).1 = KEY_ALREADY_EXISTS) ->
  scan' segments picked
  = Some (match List.find is_reported' (consulted' (omap (fun j => segments !! j) picked)) with
          | Some sg => ScanReturn (probe' sg).1 (Some (probe' sg).2)
          | None => ScanNextRowset
          end).
Proof.
  induction picked as [|id rest IH]; intros Hidx Hstatus; [done|].
  destruct (Hidx id) as [sg Hsg]; [by left|].
  assert (Hcands : omap (fun j => segments !! j) (id :: rest)
                   = sg :: omap (fun j => segments !! j) rest).
  { simpl. by rewrite Hsg. }
  rewrite Hcands in *. set (cands := omap (fun j => segments !! j) rest) in *.
  cbn [scan_picked_segments]. rewrite Hsg. cbn [mbind option_bind].
  assert (Hst : (probe' sg).1 = OK \/ (probe' sg).1 = KEY_NOT_FOUND
                \/ (probe' sg).1 = KEY_ALREADY_EXISTS).
  { apply Hstatus. cbn [consulted]. destruct (negb _ && _); by left. }
  assert (IH' : negb (has_sequence_col schema) && is_deleted_hit' sg = false ->
                scan' segments rest
                = Some (match List.find is_reported' (consulted' cands) with
                        | Some sg => ScanReturn (probe' sg).1 (Some (probe' sg).2)
                        | None => ScanNextRowset
                        end)).
  { intros Hgo. apply IH.
    - intros j Hj. apply Hidx. by right.
    - intros sg' Hsg'. apply Hstatus. cbn [consulted]. rewrite Hgo. by right. }
  cbn [consulted]. unfold is_deleted_hit at 1 in IH'. unfold is_deleted_hit at 1.
  assert (Hrep : is_reported' sg
                 = negb (is_code KEY_NOT_FOUND (probe' sg).1)
                   && negb (ok (probe' sg).1
                            && DeleteBitmap.contains_agg_without_cache
                                 (loc_rowset_id (probe' sg).2, loc_segment_id (probe' sg).2,
                                  version) (loc_row_id (probe' sg).2) bm)) by done.
  unfold probe in *.
  destruct (seg_lookup_row_key sg encoded_key with_seq_col with_rowid) as [s loc]
    eqn:Hprobe.
  cbn [fst snd] in *.
  destruct Hst as [-> | [-> | ->]]; unfold is_code, ok in *; simpl in *.
  - destruct (DeleteBitmap.contains_agg_without_cache _ _ bm) eqn:Hdel; simpl in *.
    + destruct (has_sequence_col schema) eqn:Hseq; simpl in *.
      * rewrite Hrep. by apply IH'.
      * by rewrite Hrep.
    + rewrite andb_false_r. cbn [List.find]. rewrite Hrep. by rewrite Hprobe.
  - rewrite andb_false_r. cbn [List.find]. rewrite Hrep. apply IH', andb_false_r.
  - rewrite andb_false_r. cbn [List.find]. rewrite Hrep. by rewrite Hprobe.
Qed.

Lemma find_reported_pairs (rs : Rowset) (l : list Segment) :
  List.find (fun c : Rowset * Segment => is_reported' c.2) ((fun sg => (rs, sg)) <$> l)
  = (fun sg => (rs, sg)) <$> List.find is_reported' l.
Proof.
  induction l as [|sg l IH]; simpl; [done|]. by destruct (is_reported' sg).
Qed.

Lemma consulted_candidates_cons rs rowsets :
  consulted_candidates' (rs :: rowsets)
  = ((fun sg => (rs, sg)) <$> consulted' (rowset_candidates' rs))
      ++ consulted_candidates' rowsets.
Proof. done. Qed.

(** The nested loops of the lookup return the first occurrence to report
    among the candidates they consult, in scan order, and KEY_NOT_FOUND when
    there is none. *)
Lemma lookup_in_rowsets_consulted i rowsets caches :
  (forall rs, rs ∈ rowsets ->
     List.length (segments_key_bounds rs) = num_segments rs
     /\ List.length (load_segments rs).2 = num_segments rs
     /\ (load_segments rs).1 = OK) ->
  (forall j segments, caches !! (i + j)%nat = Some segments ->
     exists rs, rowsets !! j = Some rs /\ segments = (load_segments rs).2) ->
  (forall c, c ∈ consulted_candidates' rowsets ->
     (probe' c.2).1 = OK \/ (probe' c.2).1 = KEY_NOT_FOUND
     \/ (probe' c.2).1 = KEY_ALREADY_EXISTS) ->
  exists r,
    lookup_in_rowsets' i rowsets caches = Some r
    /\ match List.find (fun c : Rowset * Segment => is_reported' c.2)
                       (consulted_candidates' rowsets) with
       | Some (rs, sg) =>
           lr_status r = (probe' sg).1 /\ lr_found r = Some ((probe' sg).2, rs)
       | None => lr_status r = KEY_NOT_FOUND /\ lr_found r = None
       end.
Proof.
  revert i caches. induction rowsets as [|rs rest IH]; intros i caches Hwf Hcache Hst.
  { eexists. split; [reflexivity|]. done. }
  destruct (Hwf rs) as (Hbounds & Hsegs & Hload); [by left|].
  assert (IH' : forall caches',
             (forall j segments, caches' !! (S i + j)%nat = Some segments ->
                exists rs', rest !! j = Some rs' /\ segments = (load_segments rs').2) ->
             exists r,
               lookup_in_rowsets' (S i) rest caches' = Some r
               /\ match List.find (fun c : Rowset * Segment => is_reported' c.2)
                                  (consulted_candidates' rest) with
                  | Some (rs, sg) =>
                      lr_status r = (probe' sg).1 /\ lr_found r = Some ((probe' sg).2, rs)
                  | None => lr_status r = KEY_NOT_FOUND /\ lr_found r = None
                  end).
  { intros caches' Hc. apply IH; [|done|].
    - intros rs' Hrs'. apply Hwf. by right.
    - intros c Hc'. apply Hst. rewrite consulted_candidates_cons. apply elem_of_app.
      by right. }
  assert (Hrest : forall caches' segments,
             (caches' = caches \/ caches' = <[i := segments]> caches) ->
             forall j sgs, caches' !! (S i + j)%nat = Some sgs ->
               exists rs', rest !! j = Some rs' /\ sgs = (load_segments rs').2).
  { intros caches' segments Hc j sgs Hl.
    assert (caches !! (i + S j)%nat = Some sgs) as Hl'.
    { replace (i + S j)%nat with (S i + j)%nat by lia.
      destruct Hc as [-> | ->]; [done|]. rewrite lookup_insert_ne in Hl by lia. done. }
    apply Hcache in Hl'. done. }
  cbn [lookup_in_rowsets]. rewrite pick_segments_picked_ids by done.
  cbn [mbind option_bind].
  rewrite consulted_candidates_cons, find_app, find_reported_pairs.
  unfold rowset_candidates at 1.
  set (picked := picked_ids key_is_not_in_segment key_without_seq rs) in *.
  destruct picked as [|p picked'] eqn:Hpicked.
  { simpl. apply (IH' caches). by apply (Hrest caches []); left. }
  rewrite <- Hpicked.
  assert (Hsegments : exists caches' ,
             (match caches !! i with
              | Some segments => (OK, segments, caches)
              | None => let '(st, segments) := load_segments rs in
                        (st, segments, <[i := segments]> caches)
              end) = (OK, (load_segments rs).2, caches')
             /\ (caches' = caches \/ caches' = <[i := (load_segments rs).2]> caches)).
  { destruct (caches !! i) as [segments|] eqn:Hci.
    - replace i with (i + 0)%nat in Hci by lia.
      apply Hcache in Hci as (rs' & [= <-] & ->). exists caches. split; [done | by left].
    - destruct (load_segments rs) as [st segments]. simpl in Hload. subst st.
      exists (<[i := segments]> caches). split; [done | by right]. }
  destruct Hsegments as (caches' & -> & Hcaches'). cbn [ok negb].
  change (negb (ok OK)) with false. cbv iota.
  rewrite scan_picked_segments_consulted.
  - cbn [mbind option_bind]. fold (rowset_candidates' rs).
    change (omap (fun j => (load_segments rs).2 !! j) picked)
      with (rowset_candidates' rs).
    destruct (List.find is_reported' (consulted' (rowset_candidates' rs))) as [sg|]; simpl.
    + eexists. split; [reflexivity|]. done.
    + apply IH'. by apply (Hrest caches' (load_segments rs).2).
  - intros j Hj. apply lookup_lt_is_Some_2. rewrite Hsegs.
    apply picked_ids_in_range. exact Hj.
  - intros sg Hsg. apply (Hst (rs, sg)). rewrite consulted_candidates_cons.
    apply elem_of_app. left. apply list_elem_of_fmap. by exists sg.
Qed.

(** In a schema with sequence column every candidate is consulted. *)
Lemma consulted_with_sequence_col segments :
  consulted encoded_key with_seq_col with_rowid version bm true segments = segments.
Proof. induction segments as [|sg rest IH]; simpl; [done | by rewrite IH]. Qed.

(** Without sequence column the candidates of a rowset are consulted down
    to its first deleted hit, and no further. *)
Lemma consulted_until_deleted above sg below :
  (forall sg', sg' ∈ above -> is_deleted_hit' sg' = false) ->
  is_deleted_hit' sg = true ->
  consulted encoded_key with_seq_col with_rowid version bm false (above ++ sg :: below)
  = above ++ [sg].
Proof.
  intros Habove Hsg. induction above as [|a above IH]; simpl.
  { by rewrite Hsg. }
  rewrite (Habove a) by (by left). rewrite IH; [done|].
  intros sg' Hsg'. apply Habove. by right.
Qed.

End LookupFacts.

(** C8 (as amended): [lookup_row_key] visits the candidate rowsets in the
    given order and in each the segments that pass the bounds check, highest
    id first; in a schema without sequence column the scan of a rowset
    stops at the first occurrence that the delete bitmap covers, so that
    the candidates below it are not consulted.  When no segment fails to
    load and no consulted candidate answers with an error, the lookup
    returns the first consulted occurrence that is live or
    KEY_ALREADY_EXISTS, with that status, and KEY_NOT_FOUND exactly when
    there is none. *)
Theorem lookup_row_key_first_reported
    (key_is_not_in_segment : Slice -> KeyBoundsPB -> bool -> bool) (ROW_ID_LENGTH : nat)
    (tablet_schema : TabletSchema) (meta : TabletMeta) (encoded_key : string)
    (latest_schema : option TabletSchema) (with_seq_col : bool)
    (specified_rowsets : list Rowset) (version : N)
    (segment_caches : gmap nat (list Segment)) (with_rowid : bool)
    (delete_bitmap : option (gmap (N * N * N) (gset N))) :
  let schema := lookup_schema tablet_schema latest_schema in
  let key_without_seq :=
    lookup_key_without_seq ROW_ID_LENGTH schema with_seq_col with_rowid encoded_key in
  let bm := default (meta_delete_bitmap meta) delete_bitmap in
  let reported := is_reported encoded_key with_seq_col with_rowid version bm in
  let deleted := is_deleted_hit encoded_key with_seq_col with_rowid version bm in
  let all_consulted :=
    consulted_candidates key_is_not_in_segment encoded_key key_without_seq with_seq_col
      with_rowid version bm schema specified_rowsets in
  (forall rs, rs ∈ specified_rowsets ->
     List.length (segments_key_bounds rs) = num_segments rs
     /\ List.length (load_segments rs).2 = num_segments rs
     /\ (load_segments rs).1 = OK) ->
  (forall j segments, segment_caches !! j = Some segments ->
     exists rs, specified_rowsets !! j = Some rs /\ segments = (load_segments rs).2) ->
  (forall c, c ∈ all_consulted ->
     (probe encoded_key with_seq_col with_rowid c.2).1 = OK
     \/ (probe encoded_key with_seq_col with_rowid c.2).1 = KEY_NOT_FOUND
     \/ (probe encoded_key with_seq_col with_rowid c.2).1 = KEY_ALREADY_EXISTS) ->
  (exists r,
     lookup_row_key key_is_not_in_segment ROW_ID_LENGTH tablet_schema meta encoded_key
       latest_schema with_seq_col specified_rowsets version segment_caches with_rowid
       delete_bitmap = Some r
     /\ match List.find (fun c : Rowset * Segment => reported c.2) all_consulted with
        | Some (rs, sg) =>
            lr_status r = (probe encoded_key with_seq_col with_rowid sg).1
            /\ lr_found r = Some ((probe encoded_key with_seq_col with_rowid sg).2, rs)
        | None => lr_status r = KEY_NOT_FOUND /\ lr_found r = None
        end
     /\ (lr_status r = KEY_NOT_FOUND <-> forall c, c ∈ all_consulted -> reported c.2 = false))
  /\ (has_sequence_col schema = true ->
      all_consulted = candidates key_is_not_in_segment key_without_seq specified_rowsets)
  /\ (has_sequence_col schema = false ->
      forall rs above sg below,
        rowset_candidates key_is_not_in_segment key_without_seq rs = above ++ sg :: below ->
        (forall sg', sg' ∈ above -> deleted sg' = false) -> deleted sg = true ->
        consulted_candidates key_is_not_in_segment encoded_key key_without_seq with_seq_col
          with_rowid version bm schema [rs]
        = (fun sg' => (rs, sg')) <$> (above ++ [sg])).
Proof.
  intros schema key_without_seq bm reported deleted all_consulted Hwf Hcache Hst.
  split; [|split].
  - destruct (lookup_in_rowsets_consulted key_is_not_in_segment encoded_key key_without_seq
                schema with_seq_col with_rowid version bm 0 specified_rowsets segment_caches
                Hwf Hcache Hst) as (r & Hr & Hfirst).
    exists r. split; [exact Hr|].
    fold all_consulted reported in Hfirst. split; [exact Hfirst|].
    destruct (List.find (fun c : Rowset * Segment => reported c.2) all_consulted)
      as [[rs sg]|] eqn:Hfind.
    + destruct Hfirst as [Hstatus _]. apply find_some_holds in Hfind as Hrep. simpl in Hrep.
      split.
      * intros Hnf. rewrite Hstatus in Hnf. subst reported. unfold is_reported in Hrep.
        rewrite Hnf in Hrep. done.
      * intros Hnone. apply find_none_iff in Hnone. congruence.
    + destruct Hfirst as [Hstatus _]. split; [|done]. intros _. by apply find_none_iff.
  - intros Hseq. unfold all_consulted, consulted_candidates, candidates. rewrite Hseq.
    f_equal. apply list_fmap_ext. intros _ rs _. by rewrite consulted_with_sequence_col.
  - intros Hseq rs above sg below Hcands Habove Hsg.
    unfold consulted_candidates. rewrite Hseq. simpl. rewrite app_nil_r, Hcands.
    by rewrite consulted_until_deleted.
Qed.

(** C8 as stated fails in two ways.  Without sequence column the scan of a
    rowset stops at a deleted occurrence: the live occurrence of k1 in
    segment 0 is not seen and the answer is KEY_NOT_FOUND.  With a sequence
    column an occurrence that the index reports as KEY_ALREADY_EXISTS is
    returned without consulting the bitmap: the row returned is covered by
    it, while the live row of the older rowset is not returned. *)
Lemma lookup_row_key_not_first_live :
  (lr_status <$> lookup_row_key Ex.key_out_of_bounds 5 Ex.schema Ex.meta_high_deleted "k1"
                   None true [Ex.two_segment_rowset] 2 ∅ true None
   = Some KEY_NOT_FOUND
   /\ Ex.key_out_of_bounds (lookup_key_without_seq 5 Ex.schema true true "k1")
        Ex.wide_bounds false = false
   /\ seg_lookup_row_key (Ex.plain_segment 7 0 ["k1"%string]) "k1" true true
      = (OK, mkRowLocation 7 0 0)
   /\ DeleteBitmap.contains_agg_without_cache (7, 0, 2) 0
        (meta_delete_bitmap Ex.meta_high_deleted) = false)
  /\ ((fun r => (lr_status r, fst <$> lr_found r))
        <$> lookup_row_key Ex.key_out_of_bounds 5 Ex.seq_schema Ex.meta_newer_deleted
              Ex.seq_key None true [Ex.newer_rowset; Ex.older_rowset] 3 ∅ true None
      = Some (KEY_ALREADY_EXISTS, Some (mkRowLocation 6 0 0))
      /\ DeleteBitmap.contains_agg_without_cache (6, 0, 3) 0
           (meta_delete_bitmap Ex.meta_newer_deleted) = true
      /\ seg_lookup_row_key (Ex.answering_segment 5 Ex.seq_key OK) Ex.seq_key true true
         = (OK, mkRowLocation 5 0 0)
      /\ DeleteBitmap.contains_agg_without_cache (5, 0, 3) 0
           (meta_delete_bitmap Ex.meta_newer_deleted) = false).
Proof. vm_compute. done. Qed.

(** C8 (as amended) on a table without sequence column: rowset 7 holds k1
    in both segments and the bitmap covers the occurrence in segment 1, so
    the scan of rowset 7 stops there and the live occurrence in its
    segment 0 is not consulted; the live occurrence in rowset 5 is
    returned. *)
Lemma lookup_row_key_first_reported_witness :
  exists r,
    lookup_row_key Ex.key_out_of_bounds 5 Ex.schema Ex.meta_high_deleted "k1" None true
      [Ex.two_segment_rowset; Ex.invisible_rowset] 2 ∅ true None = Some r
    /\ lr_status r = OK
    /\ fst <$> lr_found r = Some (mkRowLocation 5 0 0).
Proof.
  destruct (lookup_row_key_first_reported Ex.key_out_of_bounds 5 Ex.schema
              Ex.meta_high_deleted "k1" None true
              [Ex.two_segment_rowset; Ex.invisible_rowset] 2 ∅ true None)
    as ((r & Hr & Hfirst & _) & _).
  - intros rs Hrs. apply elem_of_cons in Hrs as [->|Hrs]; [done|].
    apply list_elem_of_singleton in Hrs as ->. done.
  - intros j segments Hj. by rewrite lookup_empty in Hj.
  - intros c Hc. vm_compute in Hc.
    apply elem_of_cons in Hc as [->|Hc]; [by left|].
    apply list_elem_of_singleton in Hc as ->. by left.
  - exists r. split; [exact Hr|]. destruct r as [status found caches].
    vm_compute in Hfirst. destruct Hfirst as [-> ->]. done.
Defined.

(** ** Rebuilding the rows of a fixed partial update *)

Lemma foldlM_invariant {A B} (P : B -> Prop) (f : B -> A -> option B) (l : list A) b b' :
  foldlM f l b = Some b' -> P b ->
  (forall b0 a b1, f b0 a = Some b1 -> P b0 -> P b1) -> P b'.
Proof.
  revert b. induction l as [|a l IH]; intros b; simpl.
  { by intros [= <-]. }
  destruct (f b a) as [b1|] eqn:Hf; simpl; [|done].
  intros Hrest Hb Hstep. apply (IH b1); [done| |done]. by apply (Hstep b a).
Qed.

Section PartialUpdateFacts.

Variable from_string : TabletColumn -> string -> Status * Cell.
Variable read_columns_by_plan :
  list (RowLocation * N) -> list nat -> bool -> option (list Cell)
  -> Status * list ColumnWithTypeAndName * gmap nat nat.
Variable rowset_schema : TabletSchema.
Variable partial_update_info : PartialUpdateInfo.

Local Abbreviation missing := (missing_cids partial_update_info).
Local Abbreviation missing_cell' := (missing_cell rowset_schema partial_update_info).
Local Abbreviation fill_missing_cell' := (fill_missing_cell rowset_schema partial_update_info).

Lemma fill_update_frame update_block read_index_update ids idxs columns columns' cid :
  foldlM (fun columns i =>
            foldlM (fill_update_cell partial_update_info update_block read_index_update i)
                   idxs columns) ids columns = Some columns' ->
  cid ∉ update_cids partial_update_info -> columns' cid = columns cid.
Proof.
  intros Hfold Hcid.
  apply (foldlM_invariant (fun c : nat -> list Cell => c cid = columns cid) _ _ _ _ Hfold);
    [done|].
  intros c0 i c1 Hinner Hc0.
  apply (foldlM_invariant (fun c : nat -> list Cell => c cid = columns cid) _ _ _ _ Hinner);
    [done|].
  intros c2 idx c3 Hfill Hc2. unfold fill_update_cell in Hfill.
  destruct (update_cids partial_update_info !! i) as [ucid|] eqn:Hu; simpl in Hfill; [|done].
  destruct (update_block !! i) as [col|]; simpl in Hfill; [|done].
  destruct (col_data col !! _) as [c|]; simpl in Hfill; [|done].
  injection Hfill as <-. unfold append_cell. rewrite fn_lookup_insert_ne; [done|].
  intros ->. apply Hcid. by eapply list_elem_of_lookup_2.
Qed.

Lemma fill_missing_cell_eq ns os ob rio dvb i cid0 columns idx :
  missing !! i = Some cid0 ->
  fill_missing_cell' ns os ob rio dvb i columns idx
  = c ← missing_cell' ns os ob rio dvb i idx; Some (append_cell cid0 c columns).
Proof. intros Hi. unfold fill_missing_cell. by rewrite Hi. Qed.

Lemma fill_missing_inner ns os ob rio dvb i cid0 idxs columns columns' :
  missing !! i = Some cid0 ->
  foldlM (fill_missing_cell' ns os ob rio dvb i) idxs columns = Some columns' ->
  exists cells,
    Forall2 (fun idx c => missing_cell' ns os ob rio dvb i idx = Some c) idxs cells
    /\ columns' cid0 = columns cid0 ++ cells
    /\ forall cid, cid <> cid0 -> columns' cid = columns cid.
Proof.
  intros Hi. revert columns. induction idxs as [|idx rest IH]; intros columns;
    cbn [foldlM].
  { intros [= <-]. exists []. split; [constructor|]. split; [by rewrite app_nil_r | done]. }
  rewrite (fill_missing_cell_eq _ _ _ _ _ _ _ _ _ Hi).
  destruct (missing_cell' ns os ob rio dvb i idx) as [c|] eqn:Hcell;
    cbn [mbind option_bind]; [|done].
  intros Hrest. apply IH in Hrest as (cells & Hall & Hcid & Hframe).
  exists (c :: cells). split; [by constructor|]. unfold append_cell in *. split.
  - rewrite Hcid, fn_lookup_insert. by rewrite <- app_assoc.
  - intros cid Hne. rewrite Hframe by done. by rewrite fn_lookup_insert_ne.
Qed.

Lemma fill_missing_outer ns os ob rio dvb ids idxs columns final i0 cid0 :
  foldlM (fun columns i => foldlM (fill_missing_cell' ns os ob rio dvb i) idxs columns)
         ids columns = Some final ->
  (forall i, i ∈ ids -> is_Some (missing !! i)) ->
  missing !! i0 = Some cid0 ->
  NoDup ids ->
  (forall i, i ∈ ids -> i <> i0 -> missing !! i <> Some cid0) ->
  (i0 ∈ ids ->
   exists cells,
     Forall2 (fun idx c => missing_cell' ns os ob rio dvb i0 idx = Some c) idxs cells
     /\ final cid0 = columns cid0 ++ cells)
  /\ (i0 ∉ ids -> final cid0 = columns cid0).
Proof.
  intros Hfold Hsome Hi0. revert columns Hfold.
  induction ids as [|i rest IH]; intros columns Hfold Hnodup Hother.
  { simpl in Hfold. injection Hfold as <-. split; [|done]. intros H.
    by apply elem_of_nil in H. }
  simpl in Hfold.
  destruct (foldlM (fill_missing_cell' ns os ob rio dvb i) idxs columns) as [columns1|]
    eqn:Hinner; simpl in Hfold; [|done].
  apply list.NoDup_cons in Hnodup as [Hnotin Hnodup].
  destruct (Hsome i) as [cid Hcid]; [by left|].
  destruct (fill_missing_inner _ _ _ _ _ _ _ _ _ _ Hcid Hinner) as (cells & Hall & Hsame & Hframe).
  destruct (IH (fun j Hj => Hsome j (list_elem_of_further _ _ _ Hj)) columns1 Hfold Hnodup)
    as [IHin IHout].
  { intros j Hj. apply Hother. by right. }
  destruct (decide (i = i0)) as [->|Hne].
  - assert (cid = cid0) as -> by congruence. split.
    + intros _. exists cells. split; [done|]. rewrite (IHout Hnotin). done.
    + intros Hout. exfalso. apply Hout. by left.
  - assert (cid <> cid0) as Hcne.
    { intros ->. by apply (Hother i); [left | |]. }
    split.
    + intros Hin. apply elem_of_cons in Hin as [->|Hin]; [done|].
      destruct (IHin Hin) as (cells0 & Hall0 & Hfinal). exists cells0. split; [done|].
      rewrite Hfinal, Hframe; done.
    + intros Hout. rewrite IHout; [by apply Hframe|]. intros Hin. apply Hout. by right.
Qed.

Lemma generate_default_value_block_spec cids i s columns :
  generate_default_value_block from_string rowset_schema partial_update_info cids i
    = Some (s, columns) ->
  s = OK ->
  forall j cid,
    cids !! j = Some cid -> has_default_value (column rowset_schema cid) = true ->
    exists default_value c,
      default_values partial_update_info !! (i + j)%nat = Some default_value
      /\ from_string (column rowset_schema cid) default_value = (OK, c)
      /\ columns !! j = Some [c].
Proof.
  revert i s columns. induction cids as [|cid0 rest IH]; intros i s columns; simpl.
  { intros _ _ j cid Hj. by rewrite lookup_nil in Hj. }
  destruct (has_default_value (column rowset_schema cid0)) eqn:Hd.
  - destruct (default_values partial_update_info !! i) as [dv|] eqn:Hdv; simpl; [|done].
    destruct (from_string (column rowset_schema cid0) dv) as [s0 c0] eqn:Hparse. unfold ok.
    destruct (bool_decide_reflect (s0 = OK)) as [->|Hs0]; simpl.
    2: { intros [= <- _] ->. done. }
    destruct (generate_default_value_block _ _ _ rest (S i)) as [[s1 cols1]|] eqn:Hrest;
      simpl; [|done].
    intros [= <- <-] ->. intros j cid Hj Hdef. destruct j as [|j].
    + simpl in Hj. injection Hj as <-. exists dv, c0. rewrite Nat.add_0_r. done.
    + simpl in Hj. destruct (IH _ _ _ Hrest eq_refl j cid Hj Hdef) as (dv' & c & H1 & H2 & H3).
      exists dv', c. replace (i + S j)%nat with (S i + j)%nat by lia. done.
  - destruct (generate_default_value_block _ _ _ rest (S i)) as [[s1 cols1]|] eqn:Hrest;
      simpl; [|done].
    intros [= <- <-] ->. intros j cid Hj Hdef. destruct j as [|j].
    + simpl in Hj. injection Hj as <-. congruence.
    + simpl in Hj. destruct (IH _ _ _ Hrest eq_refl j cid Hj Hdef) as (dv' & c & H1 & H2 & H3).
      exists dv', c. replace (i + S j)%nat with (S i + j)%nat by lia. done.
Qed.

Lemma use_default_eq rs_column old_sign :
  use_default rowset_schema partial_update_info rs_column old_sign
  = old_sign && (negb (has_sequence_col rowset_schema)
                 || have_input_seq_column rowset_schema partial_update_info
                 || negb (is_seqeunce_col rs_column)).
Proof.
  unfold use_default.
  destruct old_sign, (has_sequence_col rowset_schema),
    (have_input_seq_column rowset_schema partial_update_info),
    (is_seqeunce_col rs_column); done.
Qed.

(** C4 (as amended): in the block rebuilt for a fixed partial update, the
    cell of a missing column in row [idx] is decided as follows.  If the new
    row carries a delete sign (read only when the table has no sequence
    column) the cell is the column's [insert_default].  Otherwise, if the old
    row carries a delete sign - and the table has no sequence column, or the
    update supplies the sequence column, or the column is not the sequence
    column - the cell is the declared default if the column has one, null if
    it is nullable, and the type default otherwise.  In the remaining cases
    the cell is the value read from the old row. *)
Theorem partial_update_missing_columns
    (read_plan_ori read_plan_update : list (RowLocation * N))
    (full_mutable_columns out : nat -> list Cell) :
  generate_new_block_for_partial_update from_string read_columns_by_plan rowset_schema
    partial_update_info read_plan_ori read_plan_update full_mutable_columns
    = Some (OK, out) ->
  NoDup missing ->
  (forall cid, cid ∈ missing -> cid ∉ update_cids partial_update_info) ->
  exists update_block read_index_update new_signs old_block read_index_old old_signs,
    read_columns_by_plan read_plan_update (update_cids partial_update_info) false None
      = (OK, update_block, read_index_update)
    /\ new_signs = (if has_sequence_col rowset_schema then None
                    else get_delete_sign_column_data update_block (size read_index_update))
    /\ read_columns_by_plan read_plan_ori missing true new_signs
       = (OK, old_block, read_index_old)
    /\ old_signs = get_delete_sign_column_data old_block (size read_index_old)
    /\ forall i cid idx,
         missing !! i = Some cid -> (idx < size read_index_update)%nat ->
         let rs_column := column rowset_schema cid in
         exists c new_sign,
           out cid !! (List.length (full_mutable_columns cid) + idx)%nat = Some c
           /\ new_row_delete_sign new_signs idx = Some new_sign
           /\ if new_sign then c = insert_default rs_column
              else exists old_sign,
                  old_row_delete_sign old_signs read_index_old idx = Some old_sign
                  /\ if old_sign
                        && (negb (has_sequence_col rowset_schema)
                            || have_input_seq_column rowset_schema partial_update_info
                            || negb (is_seqeunce_col rs_column))
                     then
                       if has_default_value rs_column then
                         exists default_value,
                           default_values partial_update_info !! i = Some default_value
                           /\ from_string rs_column default_value = (OK, c)
                       else if is_nullable rs_column then c = Null
                       else c = get_default rs_column
                     else old_cell old_block read_index_old i idx = Some c.
Proof.
  intros Hgen Hnodup Hdisjoint. unfold generate_new_block_for_partial_update in Hgen.
  destruct (read_columns_by_plan read_plan_update (update_cids partial_update_info) false None)
    as [[su update_block] read_index_update] eqn:Hru.
  unfold ok in Hgen at 1.
  destruct (bool_decide_reflect (su = OK)) as [->|Hsu]; cbn [negb] in Hgen.
  2: { by injection Hgen as -> _. }
  destruct (foldlM _ (seq 0 (List.length (update_cids partial_update_info)))
                   full_mutable_columns) as [columns1|] eqn:Hupdate;
    cbn [mbind option_bind] in Hgen; [|done].
  set (new_signs := if has_sequence_col rowset_schema then None
                    else get_delete_sign_column_data update_block (size read_index_update))
    in *.
  destruct (read_columns_by_plan read_plan_ori missing true new_signs)
    as [[so old_block] read_index_old] eqn:Hro.
  unfold ok in Hgen at 1.
  destruct (bool_decide_reflect (so = OK)) as [->|Hso]; cbn [negb] in Hgen.
  2: { by injection Hgen as -> _. }
  set (old_signs := get_delete_sign_column_data old_block (size read_index_old)) in *.
  destruct (generate_default_value_block from_string rowset_schema partial_update_info
              missing 0) as [[sd dvb]|] eqn:Hdvb; cbn [mbind option_bind] in Hgen; [|done].
  unfold ok in Hgen at 1.
  destruct (bool_decide_reflect (sd = OK)) as [->|Hsd]; cbn [negb] in Hgen.
  2: { by injection Hgen as -> _. }
  destruct (bool_decide (size read_index_old <= size read_index_update)%nat);
    cbn [negb] in Hgen; [|done].
  destruct (foldlM _ (seq 0 (List.length missing)) columns1) as [columns2|] eqn:Hmissing;
    cbn [mbind option_bind] in Hgen; [|done].
  injection Hgen as ->.
  exists update_block, read_index_update, new_signs, old_block, read_index_old, old_signs.
  split; [done|]. split; [done|]. split; [done|]. split; [done|].
  intros i cid idx Hi Hidx rs_column.
  destruct (fill_missing_outer _ _ _ _ _ _ _ _ _ i cid Hmissing) as [Hin _].
  - intros j Hj. apply elem_of_seq in Hj. apply lookup_lt_is_Some_2. lia.
  - done.
  - apply NoDup_seq.
  - intros j _ Hne Hj. apply Hne. by eapply NoDup_lookup.
  - destruct Hin as (cells & Hcells & Hout).
    { apply elem_of_seq. apply lookup_lt_Some in Hi. lia. }
    destruct (Forall2_lookup_l _ _ _ idx idx Hcells) as (c & Hc & Hcell).
    { apply lookup_seq. lia. }
    assert (out cid !! (List.length (full_mutable_columns cid) + idx)%nat = Some c) as Hread.
    { rewrite Hout.
      rewrite (fill_update_frame _ _ _ _ _ _ _ Hupdate) by (by apply Hdisjoint;
        eapply list_elem_of_lookup_2).
      rewrite lookup_app_r by lia.
      replace (List.length (full_mutable_columns cid) + idx
               - List.length (full_mutable_columns cid))%nat with idx by lia.
      done. }
    unfold missing_cell in Hcell. rewrite Hi in Hcell. cbn [mbind option_bind] in Hcell.
    fold rs_column in Hcell.
    destruct (new_row_delete_sign new_signs idx) as [new_sign|]; [|done].
    cbn [mbind option_bind] in Hcell.
    exists c, new_sign. split; [done|]. split; [done|].
    destruct new_sign; [by injection Hcell as <-|].
    destruct (old_row_delete_sign old_signs read_index_old idx) as [old_sign|]; [|done].
    cbn [mbind option_bind] in Hcell.
    exists old_sign. split; [done|]. rewrite use_default_eq in Hcell.
    destruct (old_sign && _); [|done].
    unfold default_cell in Hcell.
    destruct (has_default_value rs_column) eqn:Hdef.
    + destruct (generate_default_value_block_spec _ _ _ _ Hdvb eq_refl i cid Hi Hdef)
        as (dv & c' & Hdv & Hparse & Hcol).
      exists dv. split; [done|]. rewrite Hcol in Hcell. simpl in Hcell.
      by injection Hcell as <-.
    + destruct (is_nullable rs_column); by injection Hcell as <-.
Qed.

End PartialUpdateFacts.

(** C4 as stated fails when the new row itself carries a delete sign: the
    old row (k=1, c1=97) is not deleted, yet the missing column c1 of the
    rebuilt row is the type default 0, not the old value 97. *)
Lemma partial_update_new_row_delete_sign :
  exists out,
    generate_new_block_for_partial_update Ex.parse_default
      (Ex.reader Ex.delete_block Ex.old_block) Ex.schema Ex.delete_info
      Ex.read_plan_old Ex.read_plan_new Ex.empty_columns = Some (OK, out)
    /\ out 1%nat = [Val 0]
    /\ old_row_delete_sign (get_delete_sign_column_data Ex.old_block 1) Ex.one_row 0
       = Some false
    /\ old_cell Ex.old_block Ex.one_row 0 0 = Some (Val 97).
Proof.
  eexists. split; [vm_compute; reflexivity|]. split; vm_compute; done.
Qed.

(** C4 (as amended) on the scenario of the specification: old row (k=1,
    c1=97, c2=98), incoming (k=1, c2=122); the rebuilt row keeps c1=97 from
    the old row and takes c2=122 from the new one. *)
Lemma partial_update_missing_columns_witness :
  exists out,
    generate_new_block_for_partial_update Ex.parse_default
      (Ex.reader Ex.update_block Ex.old_block) Ex.schema Ex.update_info
      Ex.read_plan_old Ex.read_plan_new Ex.empty_columns = Some (OK, out)
    /\ out 1%nat !! 0%nat = Some (Val 97)
    /\ out 2%nat = [Val 122].
Proof.
  eexists. split; [vm_compute; reflexivity|].
  match goal with
  | |- ?o 1%nat !! 0%nat = _ /\ _ => set (out := o)
  end.
  assert (Hgen : generate_new_block_for_partial_update Ex.parse_default
                   (Ex.reader Ex.update_block Ex.old_block) Ex.schema Ex.update_info
                   Ex.read_plan_old Ex.read_plan_new Ex.empty_columns = Some (OK, out))
    by (vm_compute; reflexivity).
  assert (Hnodup : NoDup (missing_cids Ex.update_info)).
  { apply NoDup_ListNoDup. repeat constructor; set_solver. }
  assert (Hdisjoint : forall cid, cid ∈ missing_cids Ex.update_info ->
                                  cid ∉ update_cids Ex.update_info).
  { intros cid. simpl. set_solver. }
  destruct (partial_update_missing_columns _ _ _ _ _ _ _ _ Hgen Hnodup Hdisjoint)
    as (ub & riu & ns & ob & rio & os & Hru & -> & Hro & -> & Hrule).
  injection Hru as <- <-. simpl in Hro. injection Hro as <- <-.
  destruct (Hrule 0%nat 1%nat 0%nat eq_refl) as (c & new_sign & Hc & Hnew & Hcase).
  { vm_compute. lia. }
  vm_compute in Hnew. injection Hnew as <-.
  destruct Hcase as (old_sign & Hold & Hcase).
  vm_compute in Hold. injection Hold as <-. simpl in Hcase.
  vm_compute in Hcase. injection Hcase as <-.
  split; [exact Hc | vm_compute; reflexivity].
Defined.

(** * Further properties of the code *)

(** ** The two differences of the rowset-id snapshots *)

(** X1: the two differences computed by [_rowset_ids_difference] from empty
    outputs are disjoint, applying them to [pre] gives back [cur] (and the
    other way round), both are empty exactly when the two sets are equal,
    and swapping the arguments swaps the outputs. *)
Theorem rowset_ids_difference_round_trip (cur pre : gset N) :
  let r := _rowset_ids_difference cur pre ∅ ∅ in
  r.1 ## r.2
  /\ (pre ∖ r.2) ∪ r.1 = cur
  /\ (cur ∖ r.1) ∪ r.2 = pre
  /\ (r.1 = ∅ /\ r.2 = ∅ <-> cur = pre)
  /\ _rowset_ids_difference pre cur ∅ ∅ = (r.2, r.1).
Proof.
  cbv zeta. rewrite !rowset_ids_difference_spec. simpl.
  split; [set_solver|].
  split.
  { apply set_eq. intros x. set_unfold.
    destruct (decide (x ∈ pre)), (decide (x ∈ cur)); naive_solver. }
  split.
  { apply set_eq. intros x. set_unfold.
    destruct (decide (x ∈ pre)), (decide (x ∈ cur)); naive_solver. }
  split; [|done].
  split.
  - intros [Ha Hd]. apply set_eq. intros x. set_unfold.
    destruct (decide (x ∈ pre)), (decide (x ∈ cur)); naive_solver.
  - intros ->. set_solver.
Qed.

(** ** Sentinel marks and the correctness check, together *)

(** X2: after [add_sentinel_mark_to_delete_bitmap] for a set of rowsets the
    correctness check on that set passes; the call leaves every other key
    of the bitmap as it was, and removes no row of any key. *)
Theorem sentinel_marks_pass_correctness_check (bm : gmap (N * N * N) (gset N))
    (ids : gset N) :
  let bm' := add_sentinel_mark_to_delete_bitmap bm ids in
  check_delete_bitmap_correctness bm' ids = OK
  /\ (forall key : N * N * N,
        (forall id, id ∈ ids -> key <> (id, INVALID_SEGMENT_ID, TEMP_VERSION_COMMON)) ->
        bm' !! key = bm !! key)
  /\ (forall (key : N * N * N) row,
        DeleteBitmap.contains key row bm = true -> DeleteBitmap.contains key row bm' = true).
Proof.
  cbv zeta. split; [|split].
  - unfold check_delete_bitmap_correctness.
    rewrite bool_decide_eq_true_2; [done|].
    apply set_eq. intros id. rewrite elem_of_missing_ids. split; [|set_solver].
    intros [Hid Hnone]. pose proof (add_sentinel_mark_contains bm ids id Hid) as H.
    unfold DeleteBitmap.contains in H. by rewrite Hnone in H.
  - intros key. unfold add_sentinel_mark_to_delete_bitmap.
    apply (set_fold_ind_L
             (fun (acc : gmap (N * N * N) (gset N)) (X : gset N) =>
                (forall id, id ∈ X -> key <> (id, INVALID_SEGMENT_ID, TEMP_VERSION_COMMON)) ->
                acc !! key = bm !! key)); [done|].
    intros x X acc Hx IH Hkey. unfold DeleteBitmap.add.
    rewrite lookup_insert_ne.
    + apply IH. intros id Hid. apply Hkey. set_solver.
    + intros Heq. apply (Hkey x); [set_solver | done].
  - intros key row. apply add_sentinel_mark_mono.
Qed.

(** ** What the calculation of the delete bitmap writes *)

Lemma add_lookup_ne (key key' : N * N * N) (row : N) (bm : gmap (N * N * N) (gset N)) :
  key <> key' -> DeleteBitmap.add key' row bm !! key = bm !! key.
Proof. intros Hne. unfold DeleteBitmap.add. by rewrite lookup_insert_ne. Qed.

Lemma add_sentinel_mark_lookup_other (bm : gmap (N * N * N) (gset N)) (ids : gset N)
    (key : N * N * N) :
  key.2 <> TEMP_VERSION_COMMON -> add_sentinel_mark_to_delete_bitmap bm ids !! key = bm !! key.
Proof.
  intros Hkey. unfold add_sentinel_mark_to_delete_bitmap.
  apply (set_fold_ind_L
           (fun (acc : gmap (N * N * N) (gset N)) (_ : gset N) => acc !! key = bm !! key));
    [done|].
  intros x X acc _ IH. rewrite add_lookup_ne; [done|]. by intros ->.
Qed.

Section CalcWrites.

Variable key_is_not_in_segment : Slice -> KeyBoundsPB -> bool -> bool.
Variable ROW_ID_LENGTH : nat.
Variable decode_ascending : Slice -> Status * N.
Variable flush_partial_update_block : CalcState -> Status.
Variable config : Config.
Variable tablet_schema : TabletSchema.
Variable meta : TabletMeta.
Variable rowset : Rowset.
Variable rowset_schema : TabletSchema.
Variable specified_rowsets : list Rowset.
Variable end_version : Z.
Variable rowset_writer : option RowsetWriter.
Variable tablet_delete_bitmap : option (gmap (N * N * N) (gset N)).

Local Abbreviation process_key' seg :=
  (process_key key_is_not_in_segment ROW_ID_LENGTH decode_ascending tablet_schema meta
               rowset rowset_schema seg specified_rowsets end_version rowset_writer
               tablet_delete_bitmap).
Local Abbreviation process_keys' seg :=
  (process_keys key_is_not_in_segment ROW_ID_LENGTH decode_ascending tablet_schema meta
                rowset rowset_schema seg specified_rowsets end_version rowset_writer
                tablet_delete_bitmap).
Local Abbreviation process_batches' seg :=
  (process_batches key_is_not_in_segment ROW_ID_LENGTH decode_ascending tablet_schema meta
                   rowset rowset_schema seg specified_rowsets end_version rowset_writer
                   tablet_delete_bitmap).
Local Abbreviation calc_segment' seg :=
  (calc_segment_delete_bitmap key_is_not_in_segment ROW_ID_LENGTH decode_ascending
     flush_partial_update_block config tablet_schema meta rowset rowset_schema seg
     specified_rowsets end_version rowset_writer tablet_delete_bitmap).
Local Abbreviation calc_delete_bitmap' :=
  (calc_delete_bitmap key_is_not_in_segment ROW_ID_LENGTH decode_ascending
     flush_partial_update_block config tablet_schema meta rowset rowset_schema).

Lemma apply_lookup_other_versions seg status found st step (key : N * N * N) :
  apply_lookup rowset rowset_schema seg rowset_writer status found st = Some step ->
  key.2 <> TEMP_VERSION_COMMON ->
  cs_delete_bitmap (step_state step) !! key = cs_delete_bitmap st !! key.
Proof.
  intros Hstep Hkey.
  assert (Hnew : forall row bm, DeleteBitmap.add (new_row_key rowset seg) row bm !! key
                                = bm !! key).
  { intros row bm. apply add_lookup_ne. unfold new_row_key. by intros ->. }
  assert (Hold : forall loc row bm, DeleteBitmap.add (old_row_key loc) row bm !! key
                                    = bm !! key).
  { intros loc row bm. apply add_lookup_ne. unfold old_row_key. by intros ->. }
  revert Hstep. unfold apply_lookup.
  destruct (negb _); [by intros [= <-]|].
  destruct (is_code KEY_NOT_FOUND status); [by intros [= <-]|].
  destruct (is_code KEY_ALREADY_EXISTS status && _).
  { intros [= <-]. simpl. apply Hnew. }
  destruct found as [[loc rowset_find]|]; simpl; [|done].
  destruct rowset_writer as [w|]; [destruct (is_partial_update w)|];
    intros [= <-]; simpl; by rewrite ?Hnew, ?Hold.
Qed.

Lemma process_key_other_versions seg k st step (key : N * N * N) :
  process_key' seg k st = Some step ->
  key.2 <> TEMP_VERSION_COMMON ->
  cs_delete_bitmap (step_state step) !! key = cs_delete_bitmap st !! key.
Proof.
  unfold process_key.
  destruct (key_row_id _ _ _ k (cs_row_id st)) as [s row_id].
  destruct (negb (ok s)); [by intros [= <-]|].
  simpl. destruct (DeleteBitmap.contains _ row_id (cs_delete_bitmap st)).
  { by intros [= <-]. }
  destruct (lookup_for_key _ _ _ _ _ _ _ _ k _) as [r|]; simpl; [|done].
  intros H Hkey. by rewrite (apply_lookup_other_versions _ _ _ _ _ _ H Hkey).
Qed.

Lemma process_keys_other_versions seg keys st step (key : N * N * N) :
  process_keys' seg keys st = Some step ->
  key.2 <> TEMP_VERSION_COMMON ->
  cs_delete_bitmap (step_state step) !! key = cs_delete_bitmap st !! key.
Proof.
  intros Hrun Hkey. revert st Hrun.
  induction keys as [|k rest IH]; intros st; simpl.
  { by intros [= <-]. }
  destruct (process_key' seg k st) as [[s st1|st1]|] eqn:Hk; simpl; [| |done].
  - intros [= <-]. by apply (process_key_other_versions _ _ _ _ _ Hk).
  - intros Hrest. rewrite (IH _ Hrest). simpl.
    by apply (process_key_other_versions _ _ _ _ _ Hk).
Qed.

(** Whatever the status, a call leaves the keys of other versions alone. *)
Lemma calc_segment_delete_bitmap_other_versions (seg : Segment)
    (bm bm' : gmap (N * N * N) (gset N)) (s : Status) (key : N * N * N) :
  calc_segment' seg bm = Some (s, bm') ->
  key.2 <> TEMP_VERSION_COMMON -> bm' !! key = bm !! key.
Proof.
  intros Hcalc Hkey. revert Hcalc. unfold calc_segment_delete_bitmap.
  destruct (negb (ok (seg_load_pk_index_and_bf seg))); [by intros [= _ <-]|].
  rewrite process_batches_total.
  destruct (process_keys' seg (seg_pk_index seg) (initial_state rowset bm))
    as [step|] eqn:Hkeys; simpl; [|done].
  pose proof (process_keys_other_versions _ _ _ _ _ Hkeys Hkey) as Hsame. simpl in Hsame.
  assert (forall st, step_state step = st ->
            (if enable_merge_on_write_correctness_check config
             then add_sentinel_mark_to_delete_bitmap
                    (cs_delete_bitmap st) (list_to_set (rowset_id <$> specified_rowsets))
             else cs_delete_bitmap st) !! key = bm !! key) as Hfin.
  { intros st <-. destruct (enable_merge_on_write_correctness_check config); [|done].
    by rewrite add_sentinel_mark_lookup_other. }
  destruct step as [s0 st|st].
  - by intros [= _ <-].
  - specialize (Hfin st eq_refl). destruct (bool_decide (0 < cs_pos st)).
    + destruct (negb (ok (flush_partial_update_block st))); by intros [= _ <-].
    + by intros [= _ <-].
Qed.

(** X3: [calc_segment_delete_bitmap] writes at the temporary version only.
    Whatever status it returns, every key of another version holds the rows
    it held before the call, and no row of any key is unmarked. *)
Theorem calc_segment_delete_bitmap_writes_temp_version (seg : Segment)
    (bm bm' : gmap (N * N * N) (gset N)) (s : Status) :
  calc_segment' seg bm = Some (s, bm') ->
  (forall key : N * N * N, key.2 <> TEMP_VERSION_COMMON -> bm' !! key = bm !! key)
  /\ (forall (key : N * N * N) row,
        DeleteBitmap.contains key row bm = true -> DeleteBitmap.contains key row bm' = true).
Proof.
  intros Hcalc. split.
  - intros key. by apply (calc_segment_delete_bitmap_other_versions seg bm bm' s).
  - intros key row. by eapply calc_segment_delete_bitmap_mono.
Qed.

Lemma calc_segments_relates (P : gmap (N * N * N) (gset N) -> gmap (N * N * N) (gset N) -> Prop)
    segments bm s bm' :
  (forall b, P b b) -> (forall a b c, P a b -> P b c -> P a c) ->
  (forall seg b s1 b1, calc_segment' seg b = Some (s1, b1) -> P b b1) ->
  calc_segments (fun segment b => calc_segment' segment b) segments bm = Some (s, bm') ->
  P bm bm'.
Proof.
  intros Hrefl Htrans Hstep. revert bm.
  induction segments as [|seg rest IH]; intros bm; simpl.
  { intros [= _ <-]. apply Hrefl. }
  destruct (calc_segment' seg bm) as [[s1 bm1]|] eqn:Hseg; simpl; [|done].
  destruct (negb (ok s1)).
  - intros [= _ <-]. by eapply Hstep.
  - intros Hrest. eapply Htrans; [by eapply Hstep | by apply IH].
Qed.

(** X4: [calc_delete_bitmap] (run in the calling thread) only adds marks,
    and only at the temporary version; without base rowsets or without
    segments it returns OK and leaves the bitmap untouched, so that no
    sentinel is recorded then either. *)
Theorem calc_delete_bitmap_only_adds (segments : list Segment)
    (bm bm' : gmap (N * N * N) (gset N)) (s : Status) :
  calc_delete_bitmap' segments specified_rowsets bm end_version rowset_writer
    tablet_delete_bitmap = Some (s, bm') ->
  (forall (key : N * N * N) row,
     DeleteBitmap.contains key row bm = true -> DeleteBitmap.contains key row bm' = true)
  /\ (forall key : N * N * N, key.2 <> TEMP_VERSION_COMMON -> bm' !! key = bm !! key)
  /\ (specified_rowsets = [] \/ segments = [] -> s = OK /\ bm' = bm).
Proof.
  unfold calc_delete_bitmap.
  destruct (bool_decide_reflect (List.length specified_rowsets = 0%nat)) as [Hnil|Hrs]; simpl.
  { by intros [= <- <-]. }
  destruct (bool_decide_reflect (List.length segments = 0%nat)) as [Hnil|Hsegs]; simpl.
  { by intros [= <- <-]. }
  intros Hcalc. split; [|split].
  - revert Hcalc.
    apply (calc_segments_relates
             (fun b b' => forall (key : N * N * N) row,
                  DeleteBitmap.contains key row b = true ->
                  DeleteBitmap.contains key row b' = true)); [done | by eauto |].
    intros seg b s1 b1 Hseg key row. by eapply calc_segment_delete_bitmap_mono.
  - revert Hcalc.
    apply (calc_segments_relates
             (fun b b' => forall key : N * N * N,
                  key.2 <> TEMP_VERSION_COMMON -> b' !! key = b !! key)); [done | |].
    + intros a b c Hab Hbc key Hkey. by rewrite Hbc, Hab.
    + intros seg b s1 b1 Hseg key.
      by apply (calc_segment_delete_bitmap_other_versions seg b b1 s1).
  - intros [->| ->]; done.
Qed.

(** X5: the batches of the loop [while (remaining > 0)] of
    [calc_segment_delete_bitmap] together visit every key of the index once
    and in index order, although a full batch leaves its last key to the
    next one; the loop ends within as many rounds as the index has keys. *)
Theorem process_batches_visit_every_key_once (seg : Segment) (fuel : nat) (st : CalcState) :
  (List.length (seg_pk_index seg) <= fuel)%nat ->
  process_batches' seg fuel (List.length (seg_pk_index seg)) st
  = process_keys' seg (seg_pk_index seg) st.
Proof.
  intros Hfuel. rewrite process_batches_all by lia. by rewrite Nat.sub_diag.
Qed.

End CalcWrites.

(** X3 at the worked instance: the new segment is calculated against the
    base rowset 7 into a bitmap that already marks row 1 of (7, 0) at
    version 3; that entry is returned as it was. *)
Lemma calc_segment_delete_bitmap_writes_temp_version_witness :
  exists bm',
    calc_segment_delete_bitmap Ex.key_out_of_bounds 5 Ex.no_decode Ex.flush_ok Ex.check_on
      Ex.schema Ex.meta Ex.new_rowset Ex.schema Ex.new_segment [Ex.base_rowset] 2 None None
      {[(7, 0, 3) := {[1]}]} = Some (OK, bm')
    /\ bm' !! (7, 0, 3) = Some {[1]}.
Proof.
  assert (Hok : match calc_segment_delete_bitmap Ex.key_out_of_bounds 5 Ex.no_decode
                        Ex.flush_ok Ex.check_on Ex.schema Ex.meta Ex.new_rowset Ex.schema
                        Ex.new_segment [Ex.base_rowset] 2 None None {[(7, 0, 3) := {[1]}]}
                with Some (OK, _) => true | _ => false end = true)
    by (vm_compute; reflexivity).
  destruct (calc_segment_delete_bitmap Ex.key_out_of_bounds 5 Ex.no_decode Ex.flush_ok
              Ex.check_on Ex.schema Ex.meta Ex.new_rowset Ex.schema Ex.new_segment
              [Ex.base_rowset] 2 None None {[(7, 0, 3) := {[1]}]})
    as [[st bm']|] eqn:Hr; [|discriminate Hok].
  destruct st; try discriminate Hok.
  exists bm'. split; [reflexivity|].
  rewrite (proj1 (calc_segment_delete_bitmap_writes_temp_version Ex.key_out_of_bounds 5
                    Ex.no_decode Ex.flush_ok Ex.check_on Ex.schema Ex.meta Ex.new_rowset
                    Ex.schema [Ex.base_rowset] 2 None None Ex.new_segment
                    {[(7, 0, 3) := {[1]}]} bm' OK Hr) (7, 0, 3)).
  - apply lookup_singleton_eq.
  - discriminate.
Defined.

(** X4 at the worked instance: the mark that the bitmap held before the
    call of [calc_delete_bitmap] is still there afterwards. *)
Lemma calc_delete_bitmap_only_adds_witness :
  exists bm',
    calc_delete_bitmap Ex.key_out_of_bounds 5 Ex.no_decode Ex.flush_ok Ex.check_on
      Ex.schema Ex.meta Ex.new_rowset Ex.schema [Ex.new_segment] [Ex.base_rowset]
      {[(7, 0, 3) := {[1]}]} 2 None None = Some (OK, bm')
    /\ DeleteBitmap.contains (7, 0, 3) 1 bm' = true.
Proof.
  assert (Hok : match calc_delete_bitmap Ex.key_out_of_bounds 5 Ex.no_decode Ex.flush_ok
                        Ex.check_on Ex.schema Ex.meta Ex.new_rowset Ex.schema
                        [Ex.new_segment] [Ex.base_rowset] {[(7, 0, 3) := {[1]}]} 2 None None
                with Some (OK, _) => true | _ => false end = true)
    by (vm_compute; reflexivity).
  destruct (calc_delete_bitmap Ex.key_out_of_bounds 5 Ex.no_decode Ex.flush_ok Ex.check_on
              Ex.schema Ex.meta Ex.new_rowset Ex.schema [Ex.new_segment] [Ex.base_rowset]
              {[(7, 0, 3) := {[1]}]} 2 None None)
    as [[st bm']|] eqn:Hr; [|discriminate Hok].
  destruct st; try discriminate Hok.
  exists bm'. split; [reflexivity|].
  apply (proj1 (calc_delete_bitmap_only_adds Ex.key_out_of_bounds 5 Ex.no_decode Ex.flush_ok
                  Ex.check_on Ex.schema Ex.meta Ex.new_rowset Ex.schema [Ex.base_rowset] 2
                  None None [Ex.new_segment] {[(7, 0, 3) := {[1]}]} bm' OK Hr) (7, 0, 3) 1).
  vm_compute. reflexivity.
Defined.

(** X5 at the worked instance: with five rounds allowed, the batch loop
    over the two keys of the new segment is the loop over these keys. *)
Lemma process_batches_visit_every_key_once_witness :
  process_batches Ex.key_out_of_bounds 5 Ex.no_decode Ex.schema Ex.meta Ex.new_rowset
    Ex.schema Ex.new_segment [Ex.base_rowset] 2 None None 5
    (List.length (seg_pk_index Ex.new_segment)) (initial_state Ex.new_rowset ∅)
  = process_keys Ex.key_out_of_bounds 5 Ex.no_decode Ex.schema Ex.meta Ex.new_rowset
      Ex.schema Ex.new_segment [Ex.base_rowset] 2 None None (seg_pk_index Ex.new_segment)
      (initial_state Ex.new_rowset ∅).
Proof.
  apply process_batches_visit_every_key_once. simpl. lia.
Defined.

(** ** The commit phase and the publish phase, continued *)

(** X6: [commit_phase_update_delete_bitmap] advances the caller's snapshot
    [pre_rowset_ids] only when it succeeds on a tablet that is not under
    alter: on every failure the snapshot is the one passed in; on a
    TABLET_NOTREADY tablet the call returns OK and touches nothing; on
    success otherwise the snapshot is the set that [get_all_rs_id_unlocked]
    reported for the tablet's max version. *)
Theorem commit_phase_snapshot_advances_on_success
    (in_key_range : N * N * N -> N * N * N -> N * N * N -> bool)
    (calc : list Rowset -> gmap (N * N * N) (gset N) -> Z
            -> option (Status * gmap (N * N * N) (gset N)))
    (tablet : Tablet) (pre_rowset_ids ids' : gset N)
    (delete_bitmap bm' : gmap (N * N * N) (gset N)) (s : Status) :
  commit_phase_update_delete_bitmap in_key_range calc tablet pre_rowset_ids delete_bitmap
    = Some (s, bm', ids') ->
  (s <> OK -> ids' = pre_rowset_ids)
  /\ (tablet_state (tablet_meta tablet) = TABLET_NOTREADY ->
      s = OK /\ bm' = delete_bitmap /\ ids' = pre_rowset_ids)
  /\ (s = OK -> tablet_state (tablet_meta tablet) <> TABLET_NOTREADY ->
      get_all_rs_id_unlocked tablet (max_version_unlocked tablet) = (OK, ids')).
Proof.
  unfold commit_phase_update_delete_bitmap.
  destruct (bool_decide_reflect (tablet_state (tablet_meta tablet) = TABLET_NOTREADY))
    as [Hstate|Hstate].
  { intros [= <- <- <-]. done. }
  destruct (get_all_rs_id_unlocked tablet (max_version_unlocked tablet)) as [st cur] eqn:Hcur.
  unfold ok.
  destruct (bool_decide_reflect (st = OK)) as [->|Hst]; simpl.
  - destruct (calc _ _ _) as [[s1 bm1]|]; simpl; [|done].
    destruct (bool_decide_reflect (s1 = OK)) as [->|Hs1]; simpl.
    + intros [= <- <- <-]. done.
    + intros [= <- <- <-]. done.
  - intros [= <- <- <-]. done.
Qed.

(** X6 at the worked instance: a commit phase on the tablet with the
    visible rowset 7, whose calculation succeeds, hands back the snapshot
    that [get_all_rs_id_unlocked] reported. *)
Lemma commit_phase_snapshot_advances_on_success_witness :
  commit_phase_update_delete_bitmap DeleteBitmap.half_open_range
    (fun _ bm _ => Some (OK, bm)) Ex.tablet ∅ ∅ = Some (OK, ∅, {[7]})
  /\ get_all_rs_id_unlocked Ex.tablet (max_version_unlocked Ex.tablet) = (OK, {[7]}).
Proof.
  assert (commit_phase_update_delete_bitmap DeleteBitmap.half_open_range
            (fun _ bm _ => Some (OK, bm)) Ex.tablet ∅ ∅ = Some (OK, ∅, {[7]})) as Hrun
    by (vm_compute; reflexivity).
  split; [exact Hrun|].
  apply (proj2 (proj2 (commit_phase_snapshot_advances_on_success _ _ _ _ _ _ _ _ Hrun)));
    [reflexivity | discriminate].
Defined.

Lemma end_version_ge_total : Total end_version_ge.
Proof. intros x y. unfold end_version_ge. lia. Qed.

Lemma end_version_ge_trans : Transitive end_version_ge.
Proof. intros x y z. unfold end_version_ge. lia. Qed.

Lemma sort_by_end_version_desc_sorted rowsets :
  StronglySorted end_version_ge (sort_by_end_version_desc rowsets).
Proof.
  apply (@StronglySorted_merge_sort _ end_version_ge _ end_version_ge_trans
           end_version_ge_total).
Qed.

Lemma StronglySorted_List_filter {A} (R : relation A) (f : A -> bool) (l : list A) :
  StronglySorted R l -> StronglySorted R (List.filter f l).
Proof.
  induction l as [|x l IH]; simpl; [done|].
  rewrite StronglySorted_cons. intros [Hx Hl]. destruct (f x); [|by apply IH].
  apply StronglySorted_cons. split; [|by apply IH].
  rewrite list.Forall_forall in *. intros y Hy. apply Hx.
  by apply elem_of_List_filter in Hy as [? _].
Qed.

Lemma List_filter_partition {A} (f : A -> bool) (l : list A) :
  List.filter f l ++ List.filter (fun x => negb (f x)) l ≡ₚ l.
Proof.
  induction l as [|x l IH]; simpl; [done|].
  destruct (f x); simpl; [by rewrite IH|].
  by rewrite <- Permutation_middle, IH.
Qed.

(** X7: [get_rowset_by_ids] returns the rowsets of the version map whose
    ids are asked for (all of them for a null pointer), each as often as the
    map holds it, ordered from the highest end version down. *)
Theorem get_rowset_by_ids_sorted (tablet : Tablet) (ids : gset N) :
  StronglySorted end_version_ge (get_rowset_by_ids tablet (Some ids))
  /\ StronglySorted end_version_ge (get_rowset_by_ids tablet None)
  /\ get_rowset_by_ids tablet (Some ids)
     ≡ₚ List.filter (fun rs => bool_decide (rowset_id rs ∈ ids)) (rs_version_map tablet)
  /\ get_rowset_by_ids tablet None ≡ₚ rs_version_map tablet.
Proof.
  unfold get_rowset_by_ids.
  split; [apply sort_by_end_version_desc_sorted|].
  split; [apply sort_by_end_version_desc_sorted|].
  unfold sort_by_end_version_desc.
  split; [apply merge_sort_Permutation|].
  rewrite merge_sort_Permutation.
  induction (rs_version_map tablet) as [|rs l IH]; simpl; [done | by rewrite IH].
Qed.

(** X8: in the publish phase the base rowsets are newest first, and so are
    the rowsets that skip the alignment.  A rowset skips the alignment only
    in a partial update, and only if it was produced by compaction and ends
    no later than the version the flush phase saw; when some rowset skips
    it, no base rowset that is left qualifies.  The two lists together are
    the rowsets to add, with the invisible rowsets of a transactional load. *)
Theorem publish_phase_skip_alignment_partition
    (in_key_range : N * N * N -> N * N * N -> N * N * N -> bool) (tablet : Tablet)
    (txn_info : TabletTxnInfo) (cur_rowset_ids : gset N) :
  let p := publish_phase_reconcile in_key_range tablet txn_info cur_rowset_ids in
  let skips (info : PartialUpdateInfo) (rs : Rowset) :=
    (end_version rs <= max_version_in_flush_phase info)%Z /\ produced_by_compaction rs = true in
  StronglySorted end_version_ge (rowsets_skip_alignment p)
  /\ StronglySorted end_version_ge (base_rowsets p)
  /\ (forall rs, rs ∈ rowsets_skip_alignment p ->
        exists info, txn_partial_update_info txn_info = Some info
                     /\ partial_update_mode info <> UPSERT /\ skips info rs)
  /\ (rowsets_skip_alignment p <> [] ->
      forall rs info, rs ∈ base_rowsets p -> txn_partial_update_info txn_info = Some info ->
                      ~ skips info rs)
  /\ rowsets_skip_alignment p ++ base_rowsets p
     ≡ₚ get_rowset_by_ids tablet (Some (rowset_ids_to_add p))
        ++ (if is_txn_load txn_info then invisible_rowsets txn_info else []).
Proof.
  cbv zeta. unfold publish_phase_reconcile. rewrite rowset_ids_difference_spec.
  set (to_add := ∅ ∪ cur_rowset_ids ∖ txn_rowset_ids txn_info).
  set (specified :=
         if is_txn_load txn_info
         then sort_by_end_version_desc
                (get_rowset_by_ids tablet (Some to_add) ++ invisible_rowsets txn_info)
         else get_rowset_by_ids tablet (Some to_add)).
  assert (Hsorted : StronglySorted end_version_ge specified).
  { unfold specified, get_rowset_by_ids.
    destruct (is_txn_load txn_info); apply sort_by_end_version_desc_sorted. }
  assert (Hperm : specified
                  ≡ₚ get_rowset_by_ids tablet (Some to_add)
                     ++ (if is_txn_load txn_info then invisible_rowsets txn_info else [])).
  { unfold specified. destruct (is_txn_load txn_info).
    - unfold sort_by_end_version_desc at 1. apply merge_sort_Permutation.
    - by rewrite app_nil_r. }
  assert (Hplain : forall del bm,
             let p := mkReconciled to_add del bm [] specified in
             StronglySorted end_version_ge (rowsets_skip_alignment p)
             /\ StronglySorted end_version_ge (base_rowsets p)
             /\ (forall rs, rs ∈ rowsets_skip_alignment p ->
                   exists info, txn_partial_update_info txn_info = Some info
                                /\ partial_update_mode info <> UPSERT
                                /\ (end_version rs <= max_version_in_flush_phase info)%Z
                                /\ produced_by_compaction rs = true)
             /\ (rowsets_skip_alignment p <> [] ->
                 forall rs info, rs ∈ base_rowsets p ->
                   txn_partial_update_info txn_info = Some info ->
                   ~ ((end_version rs <= max_version_in_flush_phase info)%Z
                      /\ produced_by_compaction rs = true))
             /\ rowsets_skip_alignment p ++ base_rowsets p
                ≡ₚ get_rowset_by_ids tablet (Some (rowset_ids_to_add p))
                   ++ (if is_txn_load txn_info then invisible_rowsets txn_info else [])).
  { intros del bm. simpl. split; [constructor|]. split; [done|].
    split; [intros rs H; by apply elem_of_nil in H|]. split; done. }
  unfold txn_is_partial_update.
  destruct (txn_partial_update_info txn_info) as [info|] eqn:Hinfo; [|apply Hplain].
  destruct (bool_decide_reflect (partial_update_mode info = UPSERT)) as [Hmode|Hmode];
    cbn [negb]; [apply Hplain|].
  set (skip := fun rs : Rowset =>
         bool_decide (end_version rs <= max_version_in_flush_phase info)%Z
         && produced_by_compaction rs).
  assert (Hskip : forall rs, skip rs = true <->
            (end_version rs <= max_version_in_flush_phase info)%Z
            /\ produced_by_compaction rs = true).
  { intros rs. unfold skip. rewrite andb_true_iff, bool_decide_eq_true. done. }
  destruct (List.filter skip specified) as [|rs0 skipped] eqn:Hfilter; [apply Hplain|].
  rewrite <- Hfilter. simpl.
  split; [by apply StronglySorted_List_filter|].
  split; [by apply StronglySorted_List_filter|].
  split.
  { intros rs Hrs. apply elem_of_List_filter in Hrs as [_ Hrs]. exists info.
    split; [done|]. split; [done|]. by apply Hskip. }
  split.
  { intros _ rs info' Hrs [= <-] Hq. apply elem_of_List_filter in Hrs as [_ Hrs].
    apply Hskip in Hq. apply negb_true_iff in Hrs. unfold skip in Hq. simpl in Hrs.
    congruence. }
  rewrite <- Hperm. exact (List_filter_partition skip specified).
Qed.

(** ** Reconciliation removes the rowsets to delete, and nothing else *)

Lemma closed_range_rowset (id : N) (k : N * N * N) :
  DeleteBitmap.closed_range (id, 0, 0) (id, UINT32_MAX, INT64_MAX) k = true -> k.1.1 = id.
Proof.
  destruct k as [[kr ks] kv].
  unfold DeleteBitmap.closed_range, DeleteBitmap.key_leb, DeleteBitmap.key_ltb. simpl.
  destruct (N.ltb_spec kr id), (N.ltb_spec id kr), (N.eqb_spec kr id), (N.eqb_spec id kr);
    simpl; try done; try lia.
  all: rewrite ?andb_false_r; try done.
Qed.

Lemma remove_rowsets_keeps (R : N * N * N -> N * N * N -> N * N * N -> bool)
    (ids : gset N) (bm : gmap (N * N * N) (gset N)) (k : N * N * N) :
  (forall id, id ∈ ids -> R (id, 0, 0) (id, UINT32_MAX, INT64_MAX) k = false) ->
  remove_rowsets R ids bm !! k = bm !! k.
Proof.
  unfold remove_rowsets.
  apply (set_fold_ind_L
           (fun (acc : gmap (N * N * N) (gset N)) (X : gset N) =>
              (forall id, id ∈ X -> R (id, 0, 0) (id, UINT32_MAX, INT64_MAX) k = false) ->
              acc !! k = bm !! k)); [done|].
  intros x X acc Hx IH Hk. rewrite remove_lookup.
  rewrite (Hk x) by set_solver. apply IH. intros id Hid. apply Hk. set_solver.
Qed.

(** X9: under a range test that selects nothing outside its bounds, the
    reconciliation of the commit phase and of the publish phase leaves the
    entries of every rowset that is not to be deleted exactly as they were,
    and adds no entry: the working bitmap is a part of the bitmap passed
    in. *)
Theorem reconcile_keeps_other_rowsets
    (in_key_range : N * N * N -> N * N * N -> N * N * N -> bool) (tablet : Tablet)
    (txn_info : TabletTxnInfo) (cur_rowset_ids pre_rowset_ids : gset N)
    (delete_bitmap : gmap (N * N * N) (gset N)) :
  (forall lo hi k, in_key_range lo hi k = true -> DeleteBitmap.closed_range lo hi k = true) ->
  let c := commit_phase_reconcile in_key_range tablet cur_rowset_ids pre_rowset_ids
                                  delete_bitmap in
  let p := publish_phase_reconcile in_key_range tablet txn_info cur_rowset_ids in
  (working_bitmap c ⊆ delete_bitmap
   /\ forall k : N * N * N, k.1.1 ∉ rowset_ids_to_del c ->
        working_bitmap c !! k = delete_bitmap !! k)
  /\ (working_bitmap p ⊆ txn_delete_bitmap txn_info
      /\ forall k : N * N * N, k.1.1 ∉ rowset_ids_to_del p ->
           working_bitmap p !! k = txn_delete_bitmap txn_info !! k).
Proof.
  intros Hwithin. cbv zeta.
  assert (Hgen : forall (ids : gset N) (bm : gmap (N * N * N) (gset N)),
             remove_rowsets in_key_range ids bm ⊆ bm
             /\ forall k : N * N * N, k.1.1 ∉ ids ->
                  remove_rowsets in_key_range ids bm !! k = bm !! k).
  { intros ids bm. split.
    - apply map_subseteq_spec. intros k rows Hk.
      by apply (remove_rowsets_lookup in_key_range ids bm k).
    - intros k Hk. apply remove_rowsets_keeps. intros id Hid.
      destruct (in_key_range (id, 0, 0) (id, UINT32_MAX, INT64_MAX) k) eqn:Hr; [|done].
      apply Hwithin, closed_range_rowset in Hr. by subst id. }
  split.
  - unfold commit_phase_reconcile.
    destruct (_rowset_ids_difference cur_rowset_ids pre_rowset_ids ∅ ∅) as [to_add to_del].
    simpl. apply Hgen.
  - unfold publish_phase_reconcile.
    destruct (_rowset_ids_difference cur_rowset_ids (txn_rowset_ids txn_info) ∅ ∅)
      as [to_add to_del].
    assert (forall skip base,
               working_bitmap (mkReconciled to_add to_del
                                 (remove_rowsets in_key_range to_del
                                    (txn_delete_bitmap txn_info)) skip base)
               ⊆ txn_delete_bitmap txn_info
               /\ forall k : N * N * N,
                    k.1.1 ∉ rowset_ids_to_del
                              (mkReconciled to_add to_del
                                 (remove_rowsets in_key_range to_del
                                    (txn_delete_bitmap txn_info)) skip base) ->
                    working_bitmap (mkReconciled to_add to_del
                                      (remove_rowsets in_key_range to_del
                                         (txn_delete_bitmap txn_info)) skip base) !! k
                    = txn_delete_bitmap txn_info !! k) as Hrec.
    { intros skip base. simpl. apply Hgen. }
    destruct (txn_partial_update_info txn_info) as [info|]; [|apply Hrec].
    destruct (txn_is_partial_update txn_info); [|apply Hrec].
    destruct (List.filter _ _); apply Hrec.
Qed.

(** X9 at the worked instance, with the half-open range: rowset 3 is to be
    deleted, and the entry of rowset 8 stays in the working bitmap. *)
Lemma reconcile_keeps_other_rowsets_witness :
  working_bitmap
    (commit_phase_reconcile DeleteBitmap.half_open_range Ex.tablet {[7]} {[3]}
       {[(3, 0, 0) := {[1]}; (8, 0, 0) := {[2]}]}) !! (8, 0, 0) = Some {[2]}.
Proof.
  rewrite (proj2 (proj1 (reconcile_keeps_other_rowsets DeleteBitmap.half_open_range
                           Ex.tablet Ex.txn_plain {[7]} {[3]}
                           {[(3, 0, 0) := {[1]}; (8, 0, 0) := {[2]}]}
                           half_open_within_closed)) (8, 0, 0)).
  - vm_compute. reflexivity.
  - vm_compute. intros H. discriminate H.
Defined.


(** ** Primary-key lookup: where a reported row comes from *)

Lemma scan_picked_segments_source key schema ws wr version bm segments picked s loc :
  scan_picked_segments key schema ws wr version bm segments picked
    = Some (ScanReturn s (Some loc)) ->
  exists id sg,
    id ∈ picked /\ segments !! id = Some sg
    /\ seg_lookup_row_key sg key ws wr = (s, loc)
    /\ (s = OK ->
        DeleteBitmap.contains_agg_without_cache
          (loc_rowset_id loc, loc_segment_id loc, version) (loc_row_id loc) bm = false).
Proof.
  induction picked as [|id rest IH]; simpl; [done|].
  destruct (segments !! id) as [sg|] eqn:Hsg; simpl; [|done].
  destruct (seg_lookup_row_key sg key ws wr) as [s0 loc0] eqn:Hprobe.
  assert (Hrest : scan_picked_segments key schema ws wr version bm segments rest
                  = Some (ScanReturn s (Some loc)) ->
                  exists id' sg',
                    id' ∈ id :: rest /\ segments !! id' = Some sg'
                    /\ seg_lookup_row_key sg' key ws wr = (s, loc)
                    /\ (s = OK ->
                        DeleteBitmap.contains_agg_without_cache
                          (loc_rowset_id loc, loc_segment_id loc, version) (loc_row_id loc) bm
                        = false)).
  { intros H. destruct (IH H) as (id' & sg' & Hin & Hrest). exists id', sg'.
    split; [by right | done]. }
  destruct (is_code KEY_NOT_FOUND s0); [exact Hrest|].
  destruct (negb (ok s0) && negb (is_code KEY_ALREADY_EXISTS s0)); [done|].
  destruct (ok s0) eqn:Hok; simpl.
  - destruct (DeleteBitmap.contains_agg_without_cache
                (loc_rowset_id loc0, loc_segment_id loc0, version) (loc_row_id loc0) bm)
      eqn:Hdel.
    + destruct (has_sequence_col schema); [exact Hrest | done].
    + intros [= <- <-]. exists id, sg. split; [by left|]. done.
  - intros [= <- <-]. exists id, sg. split; [by left|]. split; [done|]. split; [done|].
    intros ->. done.
Qed.

Section LookupSource.

Variable key_is_not_in_segment : Slice -> KeyBoundsPB -> bool -> bool.
Variable encoded_key : string.
Variable key_without_seq : Slice.
Variable schema : TabletSchema.
Variable with_seq_col with_rowid : bool.
Variable version : N.
Variable bm : gmap (N * N * N) (gset N).

Local Abbreviation lookup_in_rowsets' :=
  (lookup_in_rowsets key_is_not_in_segment encoded_key key_without_seq schema with_seq_col
                     with_rowid version bm).

(** The caches a lookup leaves behind and the row it reports, for the loop
    from index [i] on. *)
Lemma lookup_in_rowsets_source i rowsets caches r :
  lookup_in_rowsets' i rowsets caches = Some r ->
  caches ⊆ lr_caches r
  /\ (forall j segments, lr_caches r !! j = Some segments ->
        caches !! j = Some segments
        \/ exists rs, (i <= j)%nat /\ rowsets !! (j - i)%nat = Some rs
                      /\ (load_segments rs).2 = segments)
  /\ (forall loc rs, lr_found r = Some (loc, rs) ->
        exists j segments sg,
          rowsets !! j = Some rs
          /\ lr_caches r !! (i + j)%nat = Some segments
          /\ sg ∈ segments
          /\ seg_lookup_row_key sg encoded_key with_seq_col with_rowid = (lr_status r, loc)
          /\ (lr_status r = OK ->
              DeleteBitmap.contains_agg_without_cache
                (loc_rowset_id loc, loc_segment_id loc, version) (loc_row_id loc) bm = false)).
Proof.
  revert i caches. induction rowsets as [|rs rest IH]; intros i caches.
  { simpl. intros [= <-]. simpl. split; [done|]. split; [by left | done]. }
  (* what the recursive call gives, once the caches of this round are known *)
  assert (Hnext : forall caches',
             caches ⊆ caches' ->
             (forall j segments, caches' !! j = Some segments ->
                caches !! j = Some segments
                \/ (j = i /\ (load_segments rs).2 = segments)) ->
             lookup_in_rowsets' (S i) rest caches' = Some r ->
             caches ⊆ lr_caches r
             /\ (forall j segments, lr_caches r !! j = Some segments ->
                   caches !! j = Some segments
                   \/ exists rs', (i <= j)%nat /\ (rs :: rest) !! (j - i)%nat = Some rs'
                                  /\ (load_segments rs').2 = segments)
             /\ (forall loc rs', lr_found r = Some (loc, rs') ->
                   exists j segments sg,
                     (rs :: rest) !! j = Some rs'
                     /\ lr_caches r !! (i + j)%nat = Some segments
                     /\ sg ∈ segments
                     /\ seg_lookup_row_key sg encoded_key with_seq_col with_rowid
                        = (lr_status r, loc)
                     /\ (lr_status r = OK ->
                         DeleteBitmap.contains_agg_without_cache
                           (loc_rowset_id loc, loc_segment_id loc, version) (loc_row_id loc) bm
                         = false))).
  { intros caches' Hsub Hnew Hrec. apply IH in Hrec as (Hsub' & Hc & Hf).
    split; [by etrans|]. split.
    - intros j segments Hj. destruct (Hc j segments Hj) as [Hold|(rs' & Hle & Hrs' & Hload)].
      + destruct (Hnew j segments Hold) as [?|[-> Hload]]; [by left|].
        right. exists rs. rewrite Nat.sub_diag. done.
      + right. exists rs'. split; [lia|]. split; [|done].
        replace (j - i)%nat with (S (j - S i)) by lia. done.
    - intros loc rs' Hfound. destruct (Hf loc rs' Hfound) as (j & segments & sg & Hj & Hc' & H).
      exists (S j), segments, sg. split; [done|]. split; [|done].
      by replace (i + S j)%nat with (S i + j)%nat by lia. }
  (* what a return from the scan of this rowset gives *)
  assert (Hret : forall caches' segments picked s found,
             caches ⊆ caches' ->
             (forall j segments', caches' !! j = Some segments' ->
                caches !! j = Some segments'
                \/ (j = i /\ (load_segments rs).2 = segments')) ->
             caches' !! i = Some segments ->
             scan_picked_segments encoded_key schema with_seq_col with_rowid version bm
               segments picked = Some (ScanReturn s found) ->
             r = match found with
                 | Some loc => mkLookupResult s (Some (loc, rs)) caches'
                 | None => mkLookupResult s None caches'
                 end ->
             caches ⊆ lr_caches r
             /\ (forall j segments', lr_caches r !! j = Some segments' ->
                   caches !! j = Some segments'
                   \/ exists rs', (i <= j)%nat /\ (rs :: rest) !! (j - i)%nat = Some rs'
                                  /\ (load_segments rs').2 = segments')
             /\ (forall loc rs', lr_found r = Some (loc, rs') ->
                   exists j segments' sg,
                     (rs :: rest) !! j = Some rs'
                     /\ lr_caches r !! (i + j)%nat = Some segments'
                     /\ sg ∈ segments'
                     /\ seg_lookup_row_key sg encoded_key with_seq_col with_rowid
                        = (lr_status r, loc)
                     /\ (lr_status r = OK ->
                         DeleteBitmap.contains_agg_without_cache
                           (loc_rowset_id loc, loc_segment_id loc, version) (loc_row_id loc) bm
                         = false))).
  { intros caches' segments picked s found Hsub Hnew Hi Hscan ->.
    assert (Hcaches : forall j segments', caches' !! j = Some segments' ->
               caches !! j = Some segments'
               \/ exists rs', (i <= j)%nat /\ (rs :: rest) !! (j - i)%nat = Some rs'
                              /\ (load_segments rs').2 = segments').
    { intros j segments' Hj. destruct (Hnew j segments' Hj) as [?|[-> Hload]]; [by left|].
      right. exists rs. rewrite Nat.sub_diag. done. }
    destruct found as [loc|]; simpl; (split; [done|]); (split; [done|]); [|done].
    intros loc' rs' [= <- <-].
    apply scan_picked_segments_source in Hscan as (id & sg & _ & Hsg & Hprobe & Hlive).
    exists 0%nat, segments, sg. rewrite Nat.add_0_r. split; [done|]. split; [done|].
    split; [by eapply list_elem_of_lookup_2 | done]. }
  cbn [lookup_in_rowsets].
  destruct (pick_segments key_is_not_in_segment key_without_seq rs _) as [picked|];
    cbn [mbind option_bind]; [|done].
  destruct picked as [|p picked'].
  { apply Hnext; [done | by left]. }
  destruct (caches !! i) as [segments|] eqn:Hcached.
  - cbv zeta. unfold ok at 1. rewrite bool_decide_eq_true_2 by done. cbn [negb].
    destruct (scan_picked_segments _ _ _ _ _ _ segments (p :: picked'))
      as [[s found|]|] eqn:Hscan; cbn [mbind option_bind]; [| |done].
    + intros Hr. eapply (Hret caches segments _ s found); [done | by left | done | done |].
      destruct found; by simplify_eq.
    + apply Hnext; [done | by left].
  - destruct (load_segments rs) as [st segments] eqn:Hload. cbv zeta.
    rewrite <- Hload in Hret, Hnext.
    assert (Hsub : caches ⊆ <[i := segments]> caches) by by apply insert_subseteq.
    assert (Hnew : forall j segments', <[i := segments]> caches !! j = Some segments' ->
               caches !! j = Some segments' \/ (j = i /\ (load_segments rs).2 = segments')).
    { intros j segments'. destruct (decide (j = i)) as [->|Hne].
      - rewrite lookup_insert_eq. intros [= <-]. right. by rewrite Hload.
      - rewrite lookup_insert_ne by done. by left. }
    destruct (negb (ok st)).
    { intros [= <-]. simpl. split; [done|]. split; [|done].
      intros j segments' Hj. destruct (Hnew j segments' Hj) as [?|[-> Hl]]; [by left|].
      right. exists rs. rewrite Nat.sub_diag. done. }
    destruct (scan_picked_segments _ _ _ _ _ _ segments (p :: picked'))
      as [[s found|]|] eqn:Hscan; cbn [mbind option_bind]; [| |done].
    + intros Hr.
      eapply (Hret (<[i := segments]> caches) segments _ s found);
        [done | done | by rewrite lookup_insert_eq | done |].
      destruct found; by simplify_eq.
    + by apply Hnext.
Qed.

End LookupSource.

(** X10: a row that [lookup_row_key] reports was answered by the primary-key
    index of a segment of one of the specified rowsets, with the status the
    lookup returns; if that status is OK the row is not covered by the
    delete bitmap aggregated up to [version].  A result with status OK
    always carries a row. *)
Theorem lookup_row_key_reports_index_answer
    (key_is_not_in_segment : Slice -> KeyBoundsPB -> bool -> bool) (ROW_ID_LENGTH : nat)
    (tablet_schema : TabletSchema) (meta : TabletMeta) (encoded_key : string)
    (latest_schema : option TabletSchema) (with_seq_col : bool)
    (specified_rowsets : list Rowset) (version : N)
    (segment_caches : gmap nat (list Segment)) (with_rowid : bool)
    (delete_bitmap : option (gmap (N * N * N) (gset N))) (r : LookupResult) :
  lookup_row_key key_is_not_in_segment ROW_ID_LENGTH tablet_schema meta encoded_key
    latest_schema with_seq_col specified_rowsets version segment_caches with_rowid
    delete_bitmap = Some r ->
  (lr_status r = OK -> is_Some (lr_found r))
  /\ (forall loc rs, lr_found r = Some (loc, rs) ->
        exists j segments sg,
          specified_rowsets !! j = Some rs
          /\ lr_caches r !! j = Some segments
          /\ sg ∈ segments
          /\ seg_lookup_row_key sg encoded_key with_seq_col with_rowid = (lr_status r, loc)
          /\ (lr_status r = OK ->
              DeleteBitmap.contains_agg_without_cache
                (loc_rowset_id loc, loc_segment_id loc, version) (loc_row_id loc)
                (default (meta_delete_bitmap meta) delete_bitmap) = false)).
Proof.
  unfold lookup_row_key. intros Hr. split.
  - by eapply lookup_in_rowsets_ok_found.
  - intros loc rs Hfound.
    apply lookup_in_rowsets_source in Hr as (_ & _ & Hf).
    destruct (Hf loc rs Hfound) as (j & segments & sg & H). by exists j, segments, sg.
Qed.

(** X10 at the worked instance: the lookup of k1 in the base rowset 7
    returns OK, hence a row. *)
Lemma lookup_row_key_reports_index_answer_witness :
  exists r,
    lookup_row_key Ex.key_out_of_bounds 5 Ex.schema Ex.meta "k1" None true
      [Ex.base_rowset] 2 ∅ true None = Some r
    /\ is_Some (lr_found r).
Proof.
  assert (Hok : match lookup_row_key Ex.key_out_of_bounds 5 Ex.schema Ex.meta "k1" None true
                        [Ex.base_rowset] 2 ∅ true None
                with Some r => bool_decide (lr_status r = OK) | None => false end = true)
    by (vm_compute; reflexivity).
  destruct (lookup_row_key Ex.key_out_of_bounds 5 Ex.schema Ex.meta "k1" None true
              [Ex.base_rowset] 2 ∅ true None) as [r|] eqn:Hr; [|discriminate Hok].
  exists r. split; [reflexivity|].
  apply (proj1 (lookup_row_key_reports_index_answer _ _ _ _ _ _ _ _ _ _ _ _ r Hr)).
  by apply bool_decide_eq_true in Hok.
Defined.

(** X11: [lookup_row_key] only adds to the segment caches it is handed:
    every entry passed in is kept, and an entry added at position [j] holds
    the segments loaded for the [j]-th specified rowset. *)
Theorem lookup_row_key_segment_caches
    (key_is_not_in_segment : Slice -> KeyBoundsPB -> bool -> bool) (ROW_ID_LENGTH : nat)
    (tablet_schema : TabletSchema) (meta : TabletMeta) (encoded_key : string)
    (latest_schema : option TabletSchema) (with_seq_col : bool)
    (specified_rowsets : list Rowset) (version : N)
    (segment_caches : gmap nat (list Segment)) (with_rowid : bool)
    (delete_bitmap : option (gmap (N * N * N) (gset N))) (r : LookupResult) :
  lookup_row_key key_is_not_in_segment ROW_ID_LENGTH tablet_schema meta encoded_key
    latest_schema with_seq_col specified_rowsets version segment_caches with_rowid
    delete_bitmap = Some r ->
  (forall j segments, segment_caches !! j = Some segments -> lr_caches r !! j = Some segments)
  /\ (forall j segments, lr_caches r !! j = Some segments ->
        segment_caches !! j = Some segments
        \/ exists rs, specified_rowsets !! j = Some rs /\ (load_segments rs).2 = segments).
Proof.
  unfold lookup_row_key. intros Hr.
  apply lookup_in_rowsets_source in Hr as (Hsub & Hc & _). split.
  - intros j segments Hj. by eapply lookup_weaken.
  - intros j segments Hj. destruct (Hc j segments Hj) as [?|(rs & _ & Hrs & Hload)]; [by left|].
    right. exists rs. by rewrite Nat.sub_0_r in Hrs.
Qed.

(** X11 at the worked instance: the segments cached for the base rowset
    before the lookup are still cached after it. *)
Lemma lookup_row_key_segment_caches_witness :
  exists r,
    lookup_row_key Ex.key_out_of_bounds 5 Ex.schema Ex.meta "k1" None true
      [Ex.base_rowset] 2 {[0%nat := (load_segments Ex.base_rowset).2]} true None = Some r
    /\ lr_caches r !! 0%nat = Some (load_segments Ex.base_rowset).2.
Proof.
  assert (Hok : match lookup_row_key Ex.key_out_of_bounds 5 Ex.schema Ex.meta "k1" None
                        true [Ex.base_rowset] 2
                        {[0%nat := (load_segments Ex.base_rowset).2]} true None
                with Some _ => true | None => false end = true)
    by (vm_compute; reflexivity).
  destruct (lookup_row_key Ex.key_out_of_bounds 5 Ex.schema Ex.meta "k1" None true
              [Ex.base_rowset] 2 {[0%nat := (load_segments Ex.base_rowset).2]} true None)
    as [r|] eqn:Hr; [|discriminate Hok].
  exists r. split; [reflexivity|].
  apply (proj1 (lookup_row_key_segment_caches _ _ _ _ _ _ _ _ _ _ _ _ r Hr)).
  apply lookup_singleton_eq.
Defined.

(** ** Compaction: what an accepted conversion guarantees *)

Lemma check_locations_done segments dst_segments locations :
  check_locations segments dst_segments locations = Some PairsDone ->
  forall pair, pair ∈ verified_pairs segments locations ->
    exists src_segment dst_segment key,
      segments !! N.to_nat (loc_segment_id pair.1) = Some src_segment
      /\ dst_segments !! N.to_nat (loc_segment_id pair.2) = Some dst_segment
      /\ seg_read_key_by_rowid src_segment (loc_row_id pair.1) = (OK, key)
      /\ seg_read_key_by_rowid dst_segment (loc_row_id pair.2) = (OK, key).
Proof.
  induction locations as [|[src dst] rest IH]; cbn [check_locations verified_pairs].
  { intros _ pair H. by apply elem_of_nil in H. }
  destruct (segments !! N.to_nat (loc_segment_id src)) as [ssg|] eqn:Hs;
    cbn [mbind option_bind]; [|done].
  destruct (seg_read_key_by_rowid ssg (loc_row_id src)) as [s src_key] eqn:Hsrc. cbn [fst].
  destruct (is_code NOT_IMPLEMENTED_ERROR s).
  { intros _ pair H. by apply elem_of_nil in H. }
  unfold ok. destruct (bool_decide_reflect (s = OK)) as [->|Hne]; cbn [negb]; [|done].
  destruct (dst_segments !! N.to_nat (loc_segment_id dst)) as [dsg|] eqn:Hd;
    cbn [mbind option_bind]; [|done].
  destruct (seg_read_key_by_rowid dsg (loc_row_id dst)) as [s' dst_key] eqn:Hdst.
  destruct (bool_decide_reflect (s' = OK)) as [->|Hne']; cbn [negb]; [|done].
  destruct (bool_decide_reflect (src_key = dst_key)) as [->|Hkeys]; cbn [negb]; [|done].
  intros Hrest pair Hpair. apply elem_of_cons in Hpair as [->|Hpair].
  - exists ssg, dsg, dst_key. done.
  - by apply IH.
Qed.

Lemma check_location_map_ok dst_segments cache location_map :
  NoDup ((fun entry : Rowset * list (RowLocation * RowLocation) => rowset_id entry.1)
           <$> location_map) ->
  (forall entry, entry ∈ location_map -> cache !! rowset_id entry.1 = None) ->
  check_location_map dst_segments cache location_map = Some OK ->
  forall entry, entry ∈ location_map ->
    (load_segments entry.1).1 = OK
    /\ forall pair, pair ∈ verified_pairs (load_segments entry.1).2 entry.2 ->
         exists src_segment dst_segment key,
           (load_segments entry.1).2 !! N.to_nat (loc_segment_id pair.1) = Some src_segment
           /\ dst_segments !! N.to_nat (loc_segment_id pair.2) = Some dst_segment
           /\ seg_read_key_by_rowid src_segment (loc_row_id pair.1) = (OK, key)
           /\ seg_read_key_by_rowid dst_segment (loc_row_id pair.2) = (OK, key).
Proof.
  revert cache. induction location_map as [|[rs locations] rest IH];
    intros cache Hnodup Hcache.
  { intros _ entry H. by apply elem_of_nil in H. }
  cbn [check_location_map].
  pose proof (Hcache (rs, locations) ltac:(by left)) as Hmiss. simpl in Hmiss.
  rewrite Hmiss. simpl.
  rewrite fmap_cons in Hnodup. apply list.NoDup_cons in Hnodup as [Hnotin Hnodup].
  destruct (load_segments rs) as [st segments] eqn:Hrs. unfold ok.
  destruct (bool_decide_reflect (st = OK)) as [->|Hst]; cbn [negb].
  2: { intros [= ->]. done. }
  destruct (check_locations segments dst_segments locations) as [[s|]|] eqn:Hlocs;
    cbn [mbind option_bind]; [| |done].
  { intros [= ->]. clear IH. revert Hlocs.
    assert (forall l, check_locations segments dst_segments l <> Some (PairsReturn OK)) as H.
    { induction l as [|[src dst] l IHl]; cbn [check_locations]; [done|].
      destruct (segments !! _) as [ssg|]; cbn [mbind option_bind]; [|done].
      destruct (seg_read_key_by_rowid ssg _) as [s0 k0].
      destruct (is_code NOT_IMPLEMENTED_ERROR s0); [done|].
      unfold ok. destruct (bool_decide_reflect (s0 = OK)) as [->|Hne]; cbn [negb];
        [|by intros [= ->]].
      destruct (dst_segments !! _) as [dsg|]; cbn [mbind option_bind]; [|done].
      destruct (seg_read_key_by_rowid dsg _) as [s1 k1].
      destruct (bool_decide_reflect (s1 = OK)) as [->|Hne']; cbn [negb];
        [|by intros [= ->]].
      destruct (negb (bool_decide (k0 = k1))); [done | exact IHl]. }
    intros Hlocs. by destruct (H locations). }
  intros Hrest entry Hentry. apply elem_of_cons in Hentry as [->|Hentry].
  - simpl. rewrite Hrs. split; [done|]. simpl. by apply check_locations_done.
  - apply (IH (<[rowset_id rs := segments]> cache)); [done| |done|done].
    intros e He. rewrite lookup_insert_ne; [apply Hcache; by right|].
    intros Heq. apply Hnotin. simpl. rewrite Heq. apply list_elem_of_fmap. by exists e.
Qed.

(** X13: when [check_rowid_conversion] accepts a non-empty location map,
    whose rowsets have distinct ids, every segment load succeeded, and for
    every pair it verified both keys were read successfully and are the
    same key.  Nothing is assumed about the reads. *)
Theorem check_rowid_conversion_accepts_equal_keys (dst_rowset : Rowset)
    (location_map : list (Rowset * list (RowLocation * RowLocation))) :
  NoDup ((fun entry : Rowset * list (RowLocation * RowLocation) => rowset_id entry.1)
           <$> location_map) ->
  location_map <> [] ->
  check_rowid_conversion dst_rowset location_map = Some OK ->
  (load_segments dst_rowset).1 = OK
  /\ forall entry, entry ∈ location_map ->
       (load_segments entry.1).1 = OK
       /\ forall pair, pair ∈ verified_pairs (load_segments entry.1).2 entry.2 ->
            exists src_segment dst_segment key,
              (load_segments entry.1).2 !! N.to_nat (loc_segment_id pair.1) = Some src_segment
              /\ (load_segments dst_rowset).2 !! N.to_nat (loc_segment_id pair.2)
                 = Some dst_segment
              /\ seg_read_key_by_rowid src_segment (loc_row_id pair.1) = (OK, key)
              /\ seg_read_key_by_rowid dst_segment (loc_row_id pair.2) = (OK, key).
Proof.
  intros Hnodup Hne. unfold check_rowid_conversion.
  destruct location_map as [|e rest] eqn:Hlm; [done|]. rewrite <- Hlm in *.
  destruct (load_segments dst_rowset) as [st dst_segments]. unfold ok.
  destruct (bool_decide_reflect (st = OK)) as [->|Hst]; cbn [negb].
  2: { by intros [= ->]. }
  intros Hcheck. split; [done|]. cbn [snd].
  apply (check_location_map_ok dst_segments ∅); [done| |done].
  intros entry _. apply lookup_empty.
Qed.

(** X13 at the worked instance: the conversion of the base rowset 7 into
    rowset 8 is accepted, so the segments of rowset 7 were loaded. *)
Lemma check_rowid_conversion_accepts_equal_keys_witness :
  check_rowid_conversion Ex.output_rowset Ex.good_location_map = Some OK
  /\ (load_segments Ex.base_rowset).1 = OK.
Proof.
  assert (check_rowid_conversion Ex.output_rowset Ex.good_location_map = Some OK) as Hrun
    by (vm_compute; reflexivity).
  split; [exact Hrun|].
  apply (proj2 (check_rowid_conversion_accepts_equal_keys Ex.output_rowset
                  Ex.good_location_map (NoDup_singleton 7) ltac:(discriminate) Hrun)
           (Ex.base_rowset, [(mkRowLocation 7 0 0, mkRowLocation 8 0 0)])).
  apply list_elem_of_here.
Defined.

(** ** Compaction: what is recorded as missed, and the location map *)

Lemma elem_of_location_map_emplace rowset pair
    (location_map : list (Rowset * list (RowLocation * RowLocation))) entry pair' :
  entry ∈ location_map_emplace rowset pair location_map -> pair' ∈ entry.2 ->
  (exists entry0, entry0 ∈ location_map /\ pair' ∈ entry0.2 /\ entry0.1 = entry.1)
  \/ (pair' = pair /\ rowset_id entry.1 = rowset_id rowset).
Proof.
  induction location_map as [|[rs locations] rest IH]; cbn [location_map_emplace].
  - intros Hentry Hpair. apply list_elem_of_singleton in Hentry as ->. simpl in Hpair.
    apply list_elem_of_singleton in Hpair as ->. by right.
  - destruct (bool_decide_reflect (rowset_id rs = rowset_id rowset)) as [Hid|Hid].
    + intros Hentry Hpair. apply elem_of_cons in Hentry as [->|Hentry].
      * simpl in Hpair. apply elem_of_app in Hpair as [Hpair|Hpair].
        -- left. exists (rs, locations). split; [by left | done].
        -- apply list_elem_of_singleton in Hpair as ->. by right.
      * left. exists entry. split; [by right | done].
    + intros Hentry Hpair. apply elem_of_cons in Hentry as [->|Hentry].
      * left. exists (rs, locations). split; [by left | done].
      * destruct (IH Hentry Hpair) as [(entry0 & Hin & Hp)|H]; [|by right].
        left. exists entry0. split; [by right | done].
Qed.

Section CompactionRecords.

Variable in_key_range : N * N * N -> N * N * N -> N * N * N -> bool.
Variable rowid_conversion : RowLocation -> option RowLocation.
Variable input_rowsets : list Rowset.
Variable start_version end_version : N.
Variable input_delete_bitmap : gmap (N * N * N) (gset N).

(** The range test selects nothing outside the two bounds. *)
Hypothesis in_key_range_within :
  forall lo hi k, in_key_range lo hi k = true -> DeleteBitmap.closed_range lo hi k = true.

Local Abbreviation calc' :=
  (calc_compaction_output_rowset_delete_bitmap in_key_range rowid_conversion input_rowsets
     start_version end_version input_delete_bitmap).
Local Abbreviation marked' :=
  (marked_in_range in_key_range input_rowsets start_version end_version input_delete_bitmap).

(** X14: [calc_compaction_output_rowset_delete_bitmap] records as missed
    only marked rows of the input rowsets that have no destination, and
    puts into the location map only pairs of a marked source row and the
    destination the conversion gives for it, filed under a rowset with the
    id of the source row; an output that the caller does not ask for (a
    null pointer) stays absent. *)
Theorem compaction_records_are_marked_rows (out : CompactionOut) :
  (forall missed' src,
     missed_rows (calc' out) = Some missed' -> src ∈ missed' ->
     (exists missed, missed_rows out = Some missed /\ src ∈ missed)
     \/ (rowid_conversion src = None
         /\ exists rs seg_id v,
              marked' rs seg_id v (loc_row_id src)
              /\ src = mkRowLocation (rowset_id rs) (N.of_nat seg_id) (loc_row_id src)))
  /\ (forall location_map' entry pair,
        location_map (calc' out) = Some location_map' ->
        entry ∈ location_map' -> pair ∈ entry.2 ->
        (exists location_map0 entry0,
            location_map out = Some location_map0 /\ entry0 ∈ location_map0
            /\ pair ∈ entry0.2)
        \/ (rowid_conversion pair.1 = Some pair.2
            /\ loc_rowset_id pair.1 = rowset_id entry.1
            /\ exists rs seg_id v,
                 marked' rs seg_id v (loc_row_id pair.1)
                 /\ pair.1 = mkRowLocation (rowset_id rs) (N.of_nat seg_id)
                                           (loc_row_id pair.1)))
  /\ (missed_rows out = None -> missed_rows (calc' out) = None)
  /\ (location_map out = None -> location_map (calc' out) = None).
Proof.
  split; [|split; [|split]].
  - apply (invariant_of_marked_rows in_key_range rowid_conversion input_rowsets start_version
             end_version input_delete_bitmap in_key_range_within
             (fun b => forall missed' src,
                missed_rows b = Some missed' -> src ∈ missed' ->
                (exists missed, missed_rows out = Some missed /\ src ∈ missed)
                \/ (rowid_conversion src = None
                    /\ exists rs seg_id v,
                         marked' rs seg_id v (loc_row_id src)
                         /\ src = mkRowLocation (rowset_id rs) (N.of_nat seg_id)
                                                (loc_row_id src)))).
    + intros missed' src Hm Hsrc. left. by exists missed'.
    + intros rs seg_id v row_id b Hmarked IH missed' src. unfold convert_row.
      destruct (rowid_conversion (mkRowLocation (rowset_id rs) (N.of_nat seg_id) row_id))
        as [dst|] eqn:Hconv; simpl; [apply IH|].
      destruct (missed_rows b) as [m|] eqn:Hb; simpl; [|done].
      intros [= <-] Hsrc. apply elem_of_union in Hsrc as [Hsrc|Hsrc]; [|by eapply IH].
      apply elem_of_singleton in Hsrc as ->. right. split; [done|].
      exists rs, seg_id, v. done.
  - apply (invariant_of_marked_rows in_key_range rowid_conversion input_rowsets start_version
             end_version input_delete_bitmap in_key_range_within
             (fun b => forall location_map' entry pair,
                location_map b = Some location_map' ->
                entry ∈ location_map' -> pair ∈ entry.2 ->
                (exists location_map0 entry0,
                    location_map out = Some location_map0 /\ entry0 ∈ location_map0
                    /\ pair ∈ entry0.2)
                \/ (rowid_conversion pair.1 = Some pair.2
                    /\ loc_rowset_id pair.1 = rowset_id entry.1
                    /\ exists rs seg_id v,
                         marked' rs seg_id v (loc_row_id pair.1)
                         /\ pair.1 = mkRowLocation (rowset_id rs) (N.of_nat seg_id)
                                                   (loc_row_id pair.1)))).
    + intros lm entry pair Hlm Hentry Hpair. left. by exists lm, entry.
    + intros rs seg_id v row_id b Hmarked IH lm' entry pair. unfold convert_row.
      destruct (rowid_conversion (mkRowLocation (rowset_id rs) (N.of_nat seg_id) row_id))
        as [dst|] eqn:Hconv; simpl; [|apply IH].
      destruct (location_map b) as [lm|] eqn:Hb; simpl; [|done].
      intros [= <-] Hentry Hpair.
      destruct (elem_of_location_map_emplace _ _ _ _ _ Hentry Hpair)
        as [(entry0 & Hin & Hp & Hsame)|[-> Hid]].
      * destruct (IH lm entry0 pair eq_refl Hin Hp) as [?|(Hc & Hrid & Hm)]; [by left|].
        right. rewrite <- Hsame. done.
      * right. simpl. split; [done|]. split; [done|]. exists rs, seg_id, v. done.
  - intros Hnone.
    apply (kept_by_calc in_key_range rowid_conversion input_rowsets start_version end_version
             input_delete_bitmap (fun b => missed_rows b = None)); [|done].
    intros rs seg_id v b row_id Hb. unfold convert_row.
    destruct (rowid_conversion _); simpl; by rewrite Hb.
  - intros Hnone.
    apply (kept_by_calc in_key_range rowid_conversion input_rowsets start_version end_version
             input_delete_bitmap (fun b => location_map b = None)); [|done].
    intros rs seg_id v b row_id Hb. unfold convert_row.
    destruct (rowid_conversion _); simpl; by rewrite Hb.
Qed.

End CompactionRecords.

(** X14 at the worked instance, with the half-open range: a caller that
    passes no set of missed rows gets none back. *)
Lemma compaction_records_are_marked_rows_witness :
  missed_rows
    (calc_compaction_output_rowset_delete_bitmap DeleteBitmap.half_open_range Ex.conversion
       [Ex.base_rowset] 0 4 Ex.input_bitmap (mkCompactionOut None (Some []) ∅)) = None.
Proof.
  apply (compaction_records_are_marked_rows DeleteBitmap.half_open_range Ex.conversion
           [Ex.base_rowset] 0 4 Ex.input_bitmap half_open_within_closed
           (mkCompactionOut None (Some []) ∅)).
  reflexivity.
Defined.

(** ** Compaction: the marks below the end version *)

Lemma half_open_range_versions (r sg a b v : N) :
  DeleteBitmap.half_open_range (r, sg, a) (r, sg, b) (r, sg, v) = true <-> a <= v < b.
Proof.
  unfold DeleteBitmap.half_open_range, DeleteBitmap.key_leb, DeleteBitmap.key_ltb. simpl.
  rewrite !N.ltb_irrefl, !N.eqb_refl. simpl.
  rewrite andb_true_iff, negb_true_iff, N.ltb_ge, N.ltb_lt. done.
Qed.

(** X27: whatever [subset] does with its upper bound - as long as it
    selects every key from its lower bound up to, but not including, its
    upper bound, and no key beyond it - every delete mark of an input
    rowset at a version from [start_version] up to, but not including,
    [end_version] is carried over to the output rowset or recorded as
    missed, and every entry that the output bitmap gains comes from a mark
    at a version from [start_version] to [end_version]. *)
Theorem compaction_marks_below_end_version
    (in_key_range : N * N * N -> N * N * N -> N * N * N -> bool)
    (rowid_conversion : RowLocation -> option RowLocation)
    (input_rowsets : list Rowset) (start_version end_version : N)
    (input_delete_bitmap : gmap (N * N * N) (gset N)) (out : CompactionOut) :
  (forall lo hi k, DeleteBitmap.half_open_range lo hi k = true -> in_key_range lo hi k = true) ->
  (forall lo hi k, in_key_range lo hi k = true -> DeleteBitmap.closed_range lo hi k = true) ->
  let result :=
    calc_compaction_output_rowset_delete_bitmap in_key_range rowid_conversion input_rowsets
      start_version end_version input_delete_bitmap out in
  (forall (rs : Rowset) (seg_id : nat) (v row_id : N),
     rs ∈ input_rowsets -> (seg_id < num_segments rs)%nat ->
     start_version <= v < end_version ->
     DeleteBitmap.contains (rowset_id rs, N.of_nat seg_id, v) row_id input_delete_bitmap
       = true ->
     let src := mkRowLocation (rowset_id rs) (N.of_nat seg_id) row_id in
     match rowid_conversion src with
     | Some dst =>
         DeleteBitmap.contains (loc_rowset_id dst, loc_segment_id dst, v) (loc_row_id dst)
           (output_rowset_delete_bitmap result) = true
     | None =>
         forall missed, missed_rows out = Some missed ->
           exists missed', missed_rows result = Some missed' /\ src ∈ missed'
     end)
  /\ (forall (key : N * N * N) (row : N),
        DeleteBitmap.contains key row (output_rowset_delete_bitmap result) = true ->
        DeleteBitmap.contains key row (output_rowset_delete_bitmap out) = true
        \/ exists (rs : Rowset) (seg_id : nat) (row_id : N) (dst : RowLocation),
             rs ∈ input_rowsets /\ (seg_id < num_segments rs)%nat
             /\ start_version <= key.2 <= end_version
             /\ DeleteBitmap.contains (rowset_id rs, N.of_nat seg_id, key.2) row_id
                  input_delete_bitmap = true
             /\ rowid_conversion (mkRowLocation (rowset_id rs) (N.of_nat seg_id) row_id)
                = Some dst
             /\ key = (loc_rowset_id dst, loc_segment_id dst, key.2)
             /\ row = loc_row_id dst).
Proof.
  intros Hcovers Hwithin. cbv zeta.
  destruct (selected_marks_carried_over in_key_range rowid_conversion input_rowsets
              start_version end_version input_delete_bitmap Hwithin out) as [Hfwd Hback].
  split.
  - intros rs seg_id v row_id Hrs Hseg Hv Hmark. apply Hfwd.
    split; [done|]. split; [done|]. split; [by apply contains_lookup|].
    by apply Hcovers, half_open_range_versions.
  - intros key row Hin.
    destruct (Hback key row Hin)
      as [H|(rs & seg_id & row_id & dst & Hmarked & Hconv & Hkey & Hrow)]; [by left|].
    destruct Hmarked as (Hrs & Hseg & Hrows & Hrange).
    right. exists rs, seg_id, row_id, dst. split; [done|]. split; [done|].
    split; [by apply (closed_range_versions (rowset_id rs) (N.of_nat seg_id)), Hwithin|].
    split; [by apply contains_lookup|]. done.
Qed.

(** X27 at the worked instance, with the half-open range and the versions
    0 to 4: the mark on row 0 at version 3 reaches the output rowset. *)
Lemma compaction_marks_below_end_version_witness :
  DeleteBitmap.contains (8, 0, 3) 0 (output_rowset_delete_bitmap Ex.compaction_out) = true.
Proof.
  apply (proj1 (compaction_marks_below_end_version DeleteBitmap.half_open_range
                  Ex.conversion [Ex.base_rowset] 0 4 Ex.input_bitmap
                  (mkCompactionOut (Some ∅) (Some []) ∅) (fun _ _ _ H => H)
                  half_open_within_closed)
           Ex.base_rowset 0%nat 3 0).
  - apply list_elem_of_here.
  - simpl. lia.
  - lia.
  - vm_compute. reflexivity.
Defined.

(** ** The tablet state over a run of calls *)

(** X15: over any sequence of [set_tablet_state] calls, accepted or
    rejected, the tablet's delete bitmap is never touched, and once the
    state is TABLET_SHUTDOWN - at the start or by a call of the sequence -
    it is TABLET_SHUTDOWN at the end. *)
Theorem set_tablet_state_shutdown_absorbing (m : TabletMeta) (states : list TabletState) :
  let final := foldl (fun m state => (set_tablet_state m state).2) m states in
  meta_delete_bitmap final = meta_delete_bitmap m
  /\ (tablet_state m = TABLET_SHUTDOWN -> tablet_state final = TABLET_SHUTDOWN)
  /\ (TABLET_SHUTDOWN ∈ states -> tablet_state final = TABLET_SHUTDOWN).
Proof.
  cbv zeta.
  assert (Hstep : forall m state,
             meta_delete_bitmap (set_tablet_state m state).2 = meta_delete_bitmap m
             /\ (tablet_state m = TABLET_SHUTDOWN \/ state = TABLET_SHUTDOWN ->
                 tablet_state (set_tablet_state m state).2 = TABLET_SHUTDOWN)).
  { intros m0 state. unfold set_tablet_state.
    destruct (bool_decide_reflect (tablet_state m0 = TABLET_SHUTDOWN)) as [Hm|Hm];
      destruct (bool_decide_reflect (state = TABLET_SHUTDOWN)) as [Hs|Hs]; simpl;
      (split; [done|]); intros [?|?]; done. }
  revert m. induction states as [|state rest IH]; intros m; simpl.
  { split; [done|]. split; [done|]. intros H. by apply elem_of_nil in H. }
  destruct (Hstep m state) as [Hbm Hshut].
  destruct (IH (set_tablet_state m state).2) as (IHbm & IHshut & IHin).
  split; [by rewrite IHbm|]. split.
  - intros Hm. apply IHshut, Hshut. by left.
  - intros Hin. apply elem_of_cons in Hin as [<-|Hin]; [|by apply IHin].
    apply IHshut, Hshut. by right.
Qed.

(** ** Rebuilding the rows of a fixed partial update, continued *)

(** X16: the signs that [get_delete_sign_column_data] hands out are the
    data of a column of the block named DELETE_SIGN - the first one - and
    cover at least [rows_at_least] rows, so that reading the sign of any
    row below that bound is defined. *)
Theorem delete_sign_column_data_covers_rows (block : list ColumnWithTypeAndName)
    (rows_at_least : nat) (signs : list Cell) :
  get_delete_sign_column_data block rows_at_least = Some signs ->
  (exists before c after,
      block = before ++ c :: after /\ col_name c = DELETE_SIGN /\ col_data c = signs
      /\ forall c', c' ∈ before -> col_name c' <> DELETE_SIGN)
  /\ (rows_at_least <= List.length signs)%nat
  /\ forall idx, (idx < rows_at_least)%nat -> is_Some (new_row_delete_sign (Some signs) idx).
Proof.
  unfold get_delete_sign_column_data.
  destruct (List.find _ block) as [c|] eqn:Hfind; [|done].
  destruct (bool_decide_reflect (rows_at_least <= List.length (col_data c))%nat) as [Hlen|];
    [|done].
  intros [= <-]. split; [|split; [done|]].
  - clear Hlen. induction block as [|c0 rest IH]; simpl in Hfind; [done|].
    destruct (String.eqb_spec (col_name c0) DELETE_SIGN) as [Heq|Hne].
    + injection Hfind as ->. exists [], c, rest. split; [done|]. split; [done|].
      split; [done|]. intros c' H. by apply elem_of_nil in H.
    + destruct (IH Hfind) as (before & c1 & after & -> & Hname & Hdata & Hbefore).
      exists (c0 :: before), c1, after. split; [done|]. split; [done|]. split; [done|].
      intros c' Hc'. apply elem_of_cons in Hc' as [->|Hc']; [done | by apply Hbefore].
  - intros idx Hidx. unfold new_row_delete_sign.
    destruct (lookup_lt_is_Some_2 (col_data c) idx ltac:(lia)) as [sign Hsign].
    rewrite Hsign. by eexists.
Qed.

(** X16 at the worked instance: the block read for the old row has one
    delete sign, so the sign of row 0 can be read. *)
Lemma delete_sign_column_data_covers_rows_witness :
  get_delete_sign_column_data Ex.old_block 1 = Some [Val 0]
  /\ is_Some (new_row_delete_sign (Some [Val 0]) 0).
Proof.
  assert (get_delete_sign_column_data Ex.old_block 1 = Some [Val 0]) as Hsigns
    by (vm_compute; reflexivity).
  split; [exact Hsigns|].
  apply (proj2 (proj2 (delete_sign_column_data_covers_rows Ex.old_block 1 [Val 0] Hsigns))
           0%nat).
  lia.
Defined.

Section PartialUpdateColumns.

Variable from_string : TabletColumn -> string -> Status * Cell.
Variable read_columns_by_plan :
  list (RowLocation * N) -> list nat -> bool -> option (list Cell)
  -> Status * list ColumnWithTypeAndName * gmap nat nat.
Variable rowset_schema : TabletSchema.
Variable partial_update_info : PartialUpdateInfo.

Local Abbreviation missing := (missing_cids partial_update_info).
Local Abbreviation update := (update_cids partial_update_info).
Local Abbreviation fill_missing_cell' := (fill_missing_cell rowset_schema partial_update_info).
Local Abbreviation fill_update_cell' := (fill_update_cell partial_update_info).

(** The cell copied into row [idx] of update column number [i]. *)
Local Abbreviation update_cell update_block read_index_update i idx :=
  (col ← (update_block : list ColumnWithTypeAndName) !! (i : nat);
   col_data col !! default 0%nat ((read_index_update : gmap nat nat) !! (idx : nat))).

Lemma fill_missing_frame ns os ob rio dvb ids idxs columns columns' cid :
  foldlM (fun columns i => foldlM (fill_missing_cell' ns os ob rio dvb i) idxs columns)
         ids columns = Some columns' ->
  cid ∉ missing -> columns' cid = columns cid.
Proof.
  intros Hfold Hcid.
  apply (foldlM_invariant (fun c : nat -> list Cell => c cid = columns cid) _ _ _ _ Hfold);
    [done|].
  intros c0 i c1 Hinner Hc0.
  apply (foldlM_invariant (fun c : nat -> list Cell => c cid = columns cid) _ _ _ _ Hinner);
    [done|].
  intros c2 idx c3 Hfill Hc2. unfold fill_missing_cell in Hfill.
  destruct (missing !! i) as [mcid|] eqn:Hm; simpl in Hfill; [|done].
  destruct (missing_cell _ _ _ _ _ _ _ i idx) as [c|]; simpl in Hfill; [|done].
  injection Hfill as <-. unfold append_cell. rewrite fn_lookup_insert_ne; [done|].
  intros ->. apply Hcid. by eapply list_elem_of_lookup_2.
Qed.

Lemma fill_update_cell_eq ub riu i cid0 columns idx :
  update !! i = Some cid0 ->
  fill_update_cell' ub riu i columns idx
  = c ← update_cell ub riu i idx; Some (append_cell cid0 c columns).
Proof. intros Hi. unfold fill_update_cell. rewrite Hi. simpl. by destruct (ub !! i). Qed.

Lemma fill_update_inner ub riu i cid0 idxs columns columns' :
  update !! i = Some cid0 ->
  foldlM (fill_update_cell' ub riu i) idxs columns = Some columns' ->
  exists cells,
    Forall2 (fun idx c => update_cell ub riu i idx = Some c) idxs cells
    /\ columns' cid0 = columns cid0 ++ cells
    /\ forall cid, cid <> cid0 -> columns' cid = columns cid.
Proof.
  intros Hi. revert columns. induction idxs as [|idx rest IH]; intros columns;
    cbn [foldlM].
  { intros [= <-]. exists []. split; [constructor|]. split; [by rewrite app_nil_r | done]. }
  rewrite (fill_update_cell_eq _ _ _ _ _ _ Hi).
  destruct (update_cell ub riu i idx) as [c|] eqn:Hcell; cbn [mbind option_bind];
    [|intros H; discriminate H].
  intros Hrest. apply IH in Hrest as (cells & Hall & Hcid & Hframe).
  exists (c :: cells). split; [by constructor|]. unfold append_cell in *. split.
  - rewrite Hcid, fn_lookup_insert. by rewrite <- app_assoc.
  - intros cid Hne. rewrite Hframe by done. by rewrite fn_lookup_insert_ne.
Qed.

Lemma fill_update_outer ub riu ids idxs columns final i0 cid0 :
  foldlM (fun columns i => foldlM (fill_update_cell' ub riu i) idxs columns)
         ids columns = Some final ->
  (forall i, i ∈ ids -> is_Some (update !! i)) ->
  update !! i0 = Some cid0 ->
  NoDup ids ->
  (forall i, i ∈ ids -> i <> i0 -> update !! i <> Some cid0) ->
  (i0 ∈ ids ->
   exists cells,
     Forall2 (fun idx c => update_cell ub riu i0 idx = Some c) idxs cells
     /\ final cid0 = columns cid0 ++ cells)
  /\ (i0 ∉ ids -> final cid0 = columns cid0).
Proof.
  intros Hfold Hsome Hi0. revert columns Hfold.
  induction ids as [|i rest IH]; intros columns Hfold Hnodup Hother.
  { simpl in Hfold. injection Hfold as <-. split; [|done]. intros H.
    by apply elem_of_nil in H. }
  simpl in Hfold.
  destruct (foldlM (fill_update_cell' ub riu i) idxs columns) as [columns1|]
    eqn:Hinner; simpl in Hfold; [|done].
  apply list.NoDup_cons in Hnodup as [Hnotin Hnodup].
  destruct (Hsome i) as [cid Hcid]; [by left|].
  destruct (fill_update_inner _ _ _ _ _ _ _ Hcid Hinner) as (cells & Hall & Hsame & Hframe).
  destruct (IH (fun j Hj => Hsome j (list_elem_of_further _ _ _ Hj)) columns1 Hfold Hnodup)
    as [IHin IHout].
  { intros j Hj. apply Hother. by right. }
  destruct (decide (i = i0)) as [->|Hne].
  - assert (cid = cid0) as -> by congruence. split.
    + intros _. exists cells. split; [done|]. rewrite (IHout Hnotin). done.
    + intros Hout. exfalso. apply Hout. by left.
  - assert (cid <> cid0) as Hcne.
    { intros ->. by apply (Hother i); [left | |]. }
    split.
    + intros Hin. apply elem_of_cons in Hin as [->|Hin]; [done|].
      destruct (IHin Hin) as (cells0 & Hall0 & Hfinal). exists cells0. split; [done|].
      rewrite Hfinal, Hframe; done.
    + intros Hout. rewrite IHout; [by apply Hframe|]. intros Hin. apply Hout. by right.
Qed.

(** X17: [generate_new_block_for_partial_update] leaves every column that
    is neither an update column nor a missing column as it was, whatever
    status it returns; when it returns OK, update column number [i] has
    gained, row by row, the cells that the index [read_index_update] selects
    from column [i] of the block read from the current rowset. *)
Theorem partial_update_update_columns
    (read_plan_ori read_plan_update : list (RowLocation * N))
    (full_mutable_columns out : nat -> list Cell) (s : Status) :
  generate_new_block_for_partial_update from_string read_columns_by_plan rowset_schema
    partial_update_info read_plan_ori read_plan_update full_mutable_columns
    = Some (s, out) ->
  (forall cid, cid ∉ update -> cid ∉ missing -> out cid = full_mutable_columns cid)
  /\ (s = OK -> NoDup update -> (forall cid, cid ∈ update -> cid ∉ missing) ->
      exists update_block read_index_update,
        read_columns_by_plan read_plan_update update false None
          = (OK, update_block, read_index_update)
        /\ forall i cid, update !! i = Some cid ->
             exists cells,
               out cid = full_mutable_columns cid ++ cells
               /\ List.length cells = size read_index_update
               /\ forall idx, (idx < size read_index_update)%nat ->
                    exists c, cells !! idx = Some c
                              /\ update_cell update_block read_index_update i idx = Some c).
Proof.
  intros Hgen. unfold generate_new_block_for_partial_update in Hgen.
  destruct (read_columns_by_plan read_plan_update update false None)
    as [[su update_block] read_index_update] eqn:Hru.
  unfold ok in Hgen at 1.
  destruct (bool_decide_reflect (su = OK)) as [->|Hsu]; cbn [negb] in Hgen.
  2: { injection Hgen as <- <-. split; [done|]. done. }
  destruct (foldlM _ (seq 0 (List.length update)) full_mutable_columns) as [columns1|]
    eqn:Hupdate; cbn [mbind option_bind] in Hgen; [|done].
  assert (Hframe1 : forall cid, cid ∉ update -> columns1 cid = full_mutable_columns cid).
  { intros cid Hcid. by apply (fill_update_frame partial_update_info _ _ _ _ _ _ _ Hupdate). }
  set (new_signs := if has_sequence_col rowset_schema then None
                    else get_delete_sign_column_data update_block (size read_index_update))
    in *.
  destruct (read_columns_by_plan read_plan_ori missing true new_signs)
    as [[so old_block] read_index_old] eqn:Hro.
  unfold ok in Hgen at 1.
  destruct (bool_decide_reflect (so = OK)) as [->|Hso]; cbn [negb] in Hgen.
  2: { injection Hgen as <- <-. split; [by auto|]. done. }
  destruct (generate_default_value_block from_string rowset_schema partial_update_info
              missing 0) as [[sd dvb]|] eqn:Hdvb; cbn [mbind option_bind] in Hgen; [|done].
  unfold ok in Hgen at 1.
  destruct (bool_decide_reflect (sd = OK)) as [->|Hsd]; cbn [negb] in Hgen.
  2: { injection Hgen as <- <-. split; [by auto|]. done. }
  destruct (bool_decide (size read_index_old <= size read_index_update)%nat);
    cbn [negb] in Hgen; [|done].
  destruct (foldlM _ (seq 0 (List.length missing)) columns1) as [columns2|] eqn:Hmissing;
    cbn [mbind option_bind] in Hgen; [|done].
  injection Hgen as <- <-.
  assert (Hframe2 : forall cid, cid ∉ missing -> columns2 cid = columns1 cid).
  { intros cid Hcid. by apply (fill_missing_frame _ _ _ _ _ _ _ _ _ _ Hmissing). }
  split.
  { intros cid Hu Hm. by rewrite Hframe2, Hframe1. }
  intros _ Hnodup Hdisjoint. exists update_block, read_index_update. split; [done|].
  intros i cid Hi.
  destruct (fill_update_outer _ _ _ _ _ _ i cid Hupdate) as [Hin _].
  - intros j Hj. apply elem_of_seq in Hj. apply lookup_lt_is_Some_2. lia.
  - done.
  - apply NoDup_seq.
  - intros j _ Hne Hj. apply Hne. by eapply NoDup_lookup.
  - destruct Hin as (cells & Hcells & Hout).
    { apply elem_of_seq. apply lookup_lt_Some in Hi. lia. }
    exists cells. split.
    { rewrite Hframe2; [done|]. apply Hdisjoint. by eapply list_elem_of_lookup_2. }
    pose proof Hcells as Hlen. apply Forall2_length in Hlen. rewrite length_seq in Hlen.
    split; [done|]. intros idx Hidx.
    destruct (Forall2_lookup_l _ _ _ idx idx Hcells) as (c & Hc & Hcell).
    { apply lookup_seq. lia. }
    by exists c.
Qed.

(** X18: the block that [generate_new_block_for_partial_update] returns
    with OK is rectangular: every update column and every missing column
    has gained exactly as many cells as there are rows to rebuild. *)
Theorem partial_update_block_is_rectangular
    (read_plan_ori read_plan_update : list (RowLocation * N))
    (full_mutable_columns out : nat -> list Cell) :
  generate_new_block_for_partial_update from_string read_columns_by_plan rowset_schema
    partial_update_info read_plan_ori read_plan_update full_mutable_columns
    = Some (OK, out) ->
  NoDup (update ++ missing) ->
  exists update_rows,
    update_rows = size (read_columns_by_plan read_plan_update update false None).2
    /\ forall cid, cid ∈ update ++ missing ->
         List.length (out cid) = (List.length (full_mutable_columns cid) + update_rows)%nat.
Proof.
  intros Hgen Hnodup.
  apply list.NoDup_app in Hnodup as (Hnu & Hdisjoint & Hnm).
  unfold generate_new_block_for_partial_update in Hgen.
  destruct (read_columns_by_plan read_plan_update update false None)
    as [[su update_block] read_index_update] eqn:Hru.
  unfold ok in Hgen at 1.
  destruct (bool_decide_reflect (su = OK)) as [->|Hsu]; cbn [negb] in Hgen.
  2: { by injection Hgen as -> _. }
  destruct (foldlM _ (seq 0 (List.length update)) full_mutable_columns) as [columns1|]
    eqn:Hupdate; cbn [mbind option_bind] in Hgen; [|done].
  set (new_signs := if has_sequence_col rowset_schema then None
                    else get_delete_sign_column_data update_block (size read_index_update))
    in *.
  destruct (read_columns_by_plan read_plan_ori missing true new_signs)
    as [[so old_block] read_index_old] eqn:Hro.
  unfold ok in Hgen at 1.
  destruct (bool_decide_reflect (so = OK)) as [->|Hso]; cbn [negb] in Hgen.
  2: { by injection Hgen as -> _. }
  destruct (generate_default_value_block from_string rowset_schema partial_update_info
              missing 0) as [[sd dvb]|] eqn:Hdvb; cbn [mbind option_bind] in Hgen; [|done].
  unfold ok in Hgen at 1.
  destruct (bool_decide_reflect (sd = OK)) as [->|Hsd]; cbn [negb] in Hgen.
  2: { by injection Hgen as -> _. }
  destruct (bool_decide (size read_index_old <= size read_index_update)%nat);
    cbn [negb] in Hgen; [|done].
  destruct (foldlM _ (seq 0 (List.length missing)) columns1) as [columns2|] eqn:Hmissing;
    cbn [mbind option_bind] in Hgen; [|done].
  injection Hgen as <-.
  exists (size read_index_update). split; [done|].
  intros cid Hcid. apply elem_of_app in Hcid as [Hcid|Hcid].
  - (* an update column *)
    apply list_elem_of_lookup_1 in Hcid as [i Hi].
    destruct (fill_update_outer _ _ _ _ _ _ i cid Hupdate) as [Hin _].
    + intros j Hj. apply elem_of_seq in Hj. apply lookup_lt_is_Some_2. lia.
    + done.
    + apply NoDup_seq.
    + intros j _ Hne Hj. apply Hne. by eapply (NoDup_lookup update).
    + destruct Hin as (cells & Hcells & Hout).
      { apply elem_of_seq. apply lookup_lt_Some in Hi. lia. }
      rewrite (fill_missing_frame _ _ _ _ _ _ _ _ _ _ Hmissing).
      2: { apply Hdisjoint. by eapply list_elem_of_lookup_2. }
      rewrite Hout, length_app. apply Forall2_length in Hcells.
      rewrite length_seq in Hcells. lia.
  - (* a missing column *)
    apply list_elem_of_lookup_1 in Hcid as [i Hi].
    destruct (fill_missing_outer rowset_schema partial_update_info _ _ _ _ _ _ _ _ _ i cid
                Hmissing) as [Hin _].
    + intros j Hj. apply elem_of_seq in Hj. apply lookup_lt_is_Some_2. lia.
    + done.
    + apply NoDup_seq.
    + intros j _ Hne Hj. apply Hne. by eapply (NoDup_lookup missing).
    + destruct Hin as (cells & Hcells & Hout).
      { apply elem_of_seq. apply lookup_lt_Some in Hi. lia. }
      rewrite Hout, length_app.
      rewrite (fill_update_frame partial_update_info _ _ _ _ _ _ _ Hupdate).
      2: { intros Hu. by apply (Hdisjoint cid Hu), (list_elem_of_lookup_2 _ i). }
      apply Forall2_length in Hcells. rewrite length_seq in Hcells. lia.
Qed.

End PartialUpdateColumns.

(** X17 at the worked instance: column 7 is neither updated nor missing,
    and stays empty. *)
Lemma partial_update_update_columns_witness :
  exists out,
    generate_new_block_for_partial_update Ex.parse_default
      (Ex.reader Ex.update_block Ex.old_block) Ex.schema Ex.update_info
      Ex.read_plan_old Ex.read_plan_new Ex.empty_columns = Some (OK, out)
    /\ out 7%nat = [].
Proof.
  assert (Hok : match generate_new_block_for_partial_update Ex.parse_default
                        (Ex.reader Ex.update_block Ex.old_block) Ex.schema Ex.update_info
                        Ex.read_plan_old Ex.read_plan_new Ex.empty_columns
                with Some (OK, _) => true | _ => false end = true)
    by (vm_compute; reflexivity).
  destruct (generate_new_block_for_partial_update Ex.parse_default
              (Ex.reader Ex.update_block Ex.old_block) Ex.schema Ex.update_info
              Ex.read_plan_old Ex.read_plan_new Ex.empty_columns)
    as [[st out]|] eqn:Hgen; [|discriminate Hok].
  destruct st; try discriminate Hok.
  exists out. split; [reflexivity|].
  rewrite (proj1 (partial_update_update_columns Ex.parse_default
                    (Ex.reader Ex.update_block Ex.old_block) Ex.schema Ex.update_info
                    Ex.read_plan_old Ex.read_plan_new Ex.empty_columns out OK Hgen) 7%nat).
  - reflexivity.
  - simpl. set_solver.
  - simpl. set_solver.
Defined.

(** X18 at the worked instance: one row is rebuilt, and the missing column
    c1 of the returned block has one cell. *)
Lemma partial_update_block_is_rectangular_witness :
  exists out,
    generate_new_block_for_partial_update Ex.parse_default
      (Ex.reader Ex.update_block Ex.old_block) Ex.schema Ex.update_info
      Ex.read_plan_old Ex.read_plan_new Ex.empty_columns = Some (OK, out)
    /\ List.length (out 1%nat) = 1%nat.
Proof.
  assert (Hok : match generate_new_block_for_partial_update Ex.parse_default
                        (Ex.reader Ex.update_block Ex.old_block) Ex.schema Ex.update_info
                        Ex.read_plan_old Ex.read_plan_new Ex.empty_columns
                with Some (OK, _) => true | _ => false end = true)
    by (vm_compute; reflexivity).
  destruct (generate_new_block_for_partial_update Ex.parse_default
              (Ex.reader Ex.update_block Ex.old_block) Ex.schema Ex.update_info
              Ex.read_plan_old Ex.read_plan_new Ex.empty_columns)
    as [[st out]|] eqn:Hgen; [|discriminate Hok].
  destruct st; try discriminate Hok.
  exists out. split; [reflexivity|].
  destruct (partial_update_block_is_rectangular Ex.parse_default
              (Ex.reader Ex.update_block Ex.old_block) Ex.schema Ex.update_info
              Ex.read_plan_old Ex.read_plan_new Ex.empty_columns out Hgen)
    as (update_rows & -> & Hlen).
  - apply NoDup_ListNoDup. repeat constructor; set_solver.
  - rewrite (Hlen 1%nat); [vm_compute; reflexivity | simpl; set_solver].
Defined.

(** ** The version maps *)

Section VersionMapFacts.

Variable maps : RowsetMaps.
Variable capture_consistent_versions : Z * Z -> Status * list (Z * Z).

Local Abbreviation capture := (BaseTablet._capture_consistent_rowsets_unlocked maps).
Local Abbreviation by_version := (BaseTablet.get_rowset_by_version maps).

Lemma capture_consistent_rowsets_spec version_path rowsets :
  capture version_path rowsets
  = match list_find (fun version => by_version version true = None) version_path with
    | None => (OK, rowsets ++ omap (fun version => by_version version true) version_path)
    | Some (n, _) =>
        (CAPTURE_ROWSET_ERROR,
         rowsets ++ omap (fun version => by_version version true) (take n version_path))
    end.
Proof.
  revert rowsets. induction version_path as [|version rest IH]; intros rowsets.
  { simpl. by rewrite app_nil_r. }
  assert (Hstep : capture (version :: rest) rowsets
                  = match by_version version true with
                    | Some rowset => capture rest (rowsets ++ [rowset])
                    | None => (CAPTURE_ROWSET_ERROR, rowsets)
                    end).
  { cbn [BaseTablet._capture_consistent_rowsets_unlocked].
    unfold BaseTablet.get_rowset_by_version, BaseTablet.get_stale_rowset_by_version.
    by destruct (_rs_version_map maps !! version). }
  rewrite Hstep. clear Hstep. cbn [list_find omap].
  destruct (by_version version true) as [rs|] eqn:Hbv.
  - rewrite decide_False by done. rewrite IH.
    destruct (list_find _ rest) as [[n v]|]; simpl.
    + rewrite Hbv. simpl. by rewrite <- app_assoc.
    + rewrite Hbv. by rewrite <- app_assoc.
  - rewrite decide_True by done. simpl. by rewrite app_nil_r.
Qed.

(** X19: [_capture_consistent_rowsets_unlocked] returns OK exactly when
    every version of the path is in the visible map or in the stale map;
    it then appends one rowset per version, in path order, each the one
    [get_rowset_by_version] finds with the stale map allowed.  Otherwise it
    returns CAPTURE_ROWSET_ERROR, and the rowsets of the versions before the
    first missing one stay appended. *)
Theorem capture_consistent_rowsets_by_version (version_path : list (Z * Z))
    (rowsets : list Rowset) :
  let r := capture version_path rowsets in
  (r.1 = OK <-> forall version, version ∈ version_path -> is_Some (by_version version true))
  /\ (r.1 = OK ->
      r.2 = rowsets ++ omap (fun version => by_version version true) version_path
      /\ List.length r.2 = (List.length rowsets + List.length version_path)%nat)
  /\ (r.1 <> OK ->
      r.1 = CAPTURE_ROWSET_ERROR
      /\ exists found version rest,
           version_path = found ++ version :: rest
           /\ by_version version true = None
           /\ (forall v, v ∈ found -> is_Some (by_version v true))
           /\ r.2 = rowsets ++ omap (fun version => by_version version true) found
           /\ List.length r.2 = (List.length rowsets + List.length found)%nat).
Proof.
  cbv zeta. rewrite capture_consistent_rowsets_spec.
  assert (Hlen : forall l : list (Z * Z),
             (forall v, v ∈ l -> is_Some (by_version v true)) ->
             List.length (omap (fun version => by_version version true) l) = List.length l).
  { induction l as [|v l IHl]; intros Hall; [done|]. simpl.
    destruct (Hall v) as [rs Hrs]; [by left|]. rewrite Hrs. simpl. f_equal.
    apply IHl. intros v' Hv'. apply Hall. by right. }
  destruct (list_find _ version_path) as [[n v]|] eqn:Hfind; simpl.
  - apply list_find_Some in Hfind as (Hn & Hnone & Hbefore).
    split; [|split; [done|]].
    + split; [done|]. intros Hall. destruct (Hall v) as [rs Hrs]; [|congruence].
      by eapply list_elem_of_lookup_2.
    + intros _. split; [done|]. exists (take n version_path), v, (drop (S n) version_path).
      assert (Hfound : forall v', v' ∈ take n version_path -> is_Some (by_version v' true)).
      { intros v' Hv'. apply list_elem_of_lookup_1 in Hv' as [j Hj].
        pose proof (lookup_lt_Some _ _ _ Hj) as Hlt. rewrite length_take in Hlt.
        rewrite lookup_take_lt in Hj by lia.
        specialize (Hbefore j v' Hj ltac:(lia)).
        destruct (by_version v' true); [by eexists | done]. }
      split; [by rewrite take_drop_middle|]. split; [done|]. split; [done|].
      split; [done|]. by rewrite length_app, Hlen.
  - assert (Hall : forall version, version ∈ version_path ->
               is_Some (by_version version true)).
    { intros version Hin. apply list_find_None in Hfind.
      rewrite list.Forall_forall in Hfind. specialize (Hfind version Hin).
      destruct (by_version version true); [by eexists | done]. }
    split; [done|]. split; [|done]. intros _. split; [done|].
    by rewrite length_app, Hlen.
Qed.

Lemma collect_rs_ids_spec version_path rowset_ids :
  ((BaseTablet.collect_rs_ids maps version_path rowset_ids).1 = OK <->
   forall ver, ver ∈ version_path -> ver.2 <> 1%Z -> is_Some (_rs_version_map maps !! ver))
  /\ ((BaseTablet.collect_rs_ids maps version_path rowset_ids).1 = OK ->
      forall id,
        id ∈ (BaseTablet.collect_rs_ids maps version_path rowset_ids).2 <->
        id ∈ rowset_ids
        \/ exists ver rowset,
             ver ∈ version_path /\ ver.2 <> 1%Z
             /\ _rs_version_map maps !! ver = Some rowset /\ rowset_id rowset = id)
  /\ ((BaseTablet.collect_rs_ids maps version_path rowset_ids).1 <> OK ->
      (BaseTablet.collect_rs_ids maps version_path rowset_ids).1 = CAPTURE_ROWSET_ERROR).
Proof.
  revert rowset_ids. induction version_path as [|ver rest IH]; intros rowset_ids.
  { simpl. split; [|split; [|done]].
    - split; [|done]. intros _ ver H. by apply elem_of_nil in H.
    - intros _ id. split; [by left|]. intros [?|(ver & rs & H & _)]; [done|].
      by apply elem_of_nil in H. }
  cbn [BaseTablet.collect_rs_ids].
  destruct (Z.eqb_spec ver.2 1) as [Hone|Hone].
  - destruct (IH rowset_ids) as (IHok & IHids & IHerr). split; [|split; [|done]].
    + rewrite IHok. split.
      * intros H v Hv Hne. apply elem_of_cons in Hv as [->|Hv]; [done | by apply H].
      * intros H v Hv Hne. apply H; [by right | done].
    + intros Hok id. rewrite (IHids Hok id). split.
      * intros [?|(v & rs & Hv & H)]; [by left|]. right. exists v, rs. split; [by right|done].
      * intros [?|(v & rs & Hv & Hne & H)]; [by left|].
        apply elem_of_cons in Hv as [->|Hv]; [done|]. right. by exists v, rs.
  - destruct (_rs_version_map maps !! ver) as [rowset|] eqn:Hver.
    + destruct (IH ({[rowset_id rowset]} ∪ rowset_ids)) as (IHok & IHids & IHerr).
      split; [|split; [|done]].
      * rewrite IHok. split.
        -- intros H v Hv Hne. apply elem_of_cons in Hv as [->|Hv]; [by eexists | by apply H].
        -- intros H v Hv Hne. apply H; [by right | done].
      * intros Hok id. rewrite (IHids Hok id). rewrite elem_of_union, elem_of_singleton.
        split.
        -- intros [[->|?]|(v & rs & Hv & H)].
           ++ right. exists ver, rowset. split; [by left | done].
           ++ by left.
           ++ right. exists v, rs. split; [by right | done].
        -- intros [?|(v & rs & Hv & Hne & Hlook & Hid)]; [by left; right|].
           apply elem_of_cons in Hv as [->|Hv].
           ++ left. left. congruence.
           ++ right. by exists v, rs.
    + simpl. split; [|split; [done|done]]. split; [done|].
      intros H. destruct (H ver) as [rs Hrs]; [by left | done | congruence].
Qed.

(** X20: [get_all_rs_id_unlocked] passes on a failure of the version tracker
    without touching the set.  On a path from the tracker it returns OK
    exactly when every version of the path that does not end at 1 is in
    the visible map - the stale map is not consulted - and then the set has
    gained exactly the ids of the rowsets of those versions; otherwise it
    returns CAPTURE_ROWSET_ERROR. *)
Theorem get_all_rs_id_unlocked_collects_visible (max_version : Z) (rowset_ids : gset N) :
  let r := BaseTablet.get_all_rs_id_unlocked maps capture_consistent_versions max_version
             rowset_ids in
  let tracked := capture_consistent_versions (0%Z, max_version) in
  (tracked.1 <> OK -> r = (tracked.1, rowset_ids))
  /\ (tracked.1 = OK ->
      (r.1 = OK <->
       forall ver, ver ∈ tracked.2 -> ver.2 <> 1%Z -> is_Some (_rs_version_map maps !! ver))
      /\ (r.1 = OK ->
          forall id,
            id ∈ r.2 <->
            id ∈ rowset_ids
            \/ exists ver rowset,
                 ver ∈ tracked.2 /\ ver.2 <> 1%Z
                 /\ _rs_version_map maps !! ver = Some rowset /\ rowset_id rowset = id)
      /\ (r.1 <> OK -> r.1 = CAPTURE_ROWSET_ERROR)).
Proof.
  cbv zeta. unfold BaseTablet.get_all_rs_id_unlocked.
  destruct (capture_consistent_versions (0%Z, max_version)) as [st version_path]. simpl.
  unfold ok. destruct (bool_decide_reflect (st = OK)) as [->|Hst]; simpl.
  - split; [done|]. intros _. apply collect_rs_ids_spec.
  - split; [done|]. done.
Qed.

(** X21: in the commit phase of a tablet whose rowset ids are collected by
    [get_all_rs_id_unlocked] from its visible map, every rowset id to add
    is the id of one of the base rowsets handed to the calculation, and
    the base rowsets have no other ids. *)
Theorem commit_phase_base_rowsets_cover_ids_to_add
    (in_key_range : N * N * N -> N * N * N -> N * N * N -> bool) (meta : TabletMeta)
    (max_version : Z) (cur_rowset_ids pre_rowset_ids : gset N)
    (delete_bitmap : gmap (N * N * N) (gset N)) :
  let tablet := BaseTablet.tablet_view maps capture_consistent_versions meta max_version in
  get_all_rs_id_unlocked tablet (max_version_unlocked tablet) = (OK, cur_rowset_ids) ->
  let c := commit_phase_reconcile in_key_range tablet cur_rowset_ids pre_rowset_ids
             delete_bitmap in
  forall id, id ∈ rowset_ids_to_add c <-> exists rs, rs ∈ base_rowsets c /\ rowset_id rs = id.
Proof.
  cbv zeta. intros Hcur id.
  unfold commit_phase_reconcile. rewrite rowset_ids_difference_spec.
  cbn [rowset_ids_to_add base_rowsets]. cbn [max_version_unlocked BaseTablet.tablet_view] in Hcur.
  change (BaseTablet.get_all_rs_id_unlocked maps capture_consistent_versions max_version ∅
          = (OK, cur_rowset_ids)) in Hcur.
  split.
  - intros Hid.
    assert (id ∈ cur_rowset_ids) as Hin by set_solver.
    unfold BaseTablet.get_all_rs_id_unlocked in Hcur.
    destruct (capture_consistent_versions (0%Z, max_version)) as [st version_path].
    unfold ok in Hcur. destruct (bool_decide_reflect (st = OK)) as [->|Hst];
      cbn [negb] in Hcur; [|congruence].
    destruct (collect_rs_ids_spec version_path ∅) as (_ & Hids & _).
    rewrite Hcur in Hids. apply (Hids eq_refl) in Hin.
    destruct Hin as [Hin|(ver & rs & _ & _ & Hver & <-)]; [set_solver|].
    exists rs. split; [|done]. apply elem_of_get_rowset_by_ids. split; [|done].
    simpl. apply list_elem_of_fmap. exists (ver, rs). split; [done|].
    by apply elem_of_map_to_list.
  - intros (rs & Hrs & <-). by apply elem_of_get_rowset_by_ids in Hrs as [_ ?].
Qed.

(** X22: [get_rowset] finds a rowset with the id asked for exactly when one
    of the snapshot of all rowsets, stale ones included, has that id; the
    rowset it returns has the id and is in that snapshot, and a visible
    rowset with the id is preferred to a stale one. *)
Theorem get_rowset_finds_id (id : N) :
  (forall rs, BaseTablet.get_rowset maps id = Some rs ->
     rowset_id rs = id /\ rs ∈ BaseTablet.get_snapshot_rowset maps true)
  /\ (BaseTablet.get_rowset maps id = None <->
      forall rs, rs ∈ BaseTablet.get_snapshot_rowset maps true -> rowset_id rs <> id)
  /\ (forall rs, BaseTablet.get_rowset maps id = Some rs ->
        (exists rs', rs' ∈ BaseTablet.get_snapshot_rowset maps false /\ rowset_id rs' = id) ->
        rs ∈ BaseTablet.get_snapshot_rowset maps false).
Proof.
  unfold BaseTablet.get_rowset, BaseTablet.get_snapshot_rowset.
  set (visible := snd <$> map_to_list (_rs_version_map maps)).
  set (stale := snd <$> map_to_list (_stale_rs_version_map maps)).
  set (has_id := fun rs : Rowset => bool_decide (rowset_id rs = id)).
  assert (Hfound : forall l rs, List.find has_id l = Some rs -> rowset_id rs = id /\ rs ∈ l).
  { intros l rs H. apply List.find_some in H as [Hin Hid].
    split; [by apply bool_decide_eq_true in Hid | by apply list_elem_of_In]. }
  assert (Hnone : forall l, List.find has_id l = None <->
                            forall rs, rs ∈ l -> rowset_id rs <> id).
  { intros l. rewrite find_none_iff. unfold has_id. split.
    - intros H rs Hrs. specialize (H rs Hrs). by apply bool_decide_eq_false in H.
    - intros H rs Hrs. apply bool_decide_eq_false. by apply H. }
  rewrite app_nil_r. split; [|split].
  - intros rs. destruct (List.find has_id visible) as [rs0|] eqn:Hv.
    + intros [= <-]. destruct (Hfound _ _ Hv). split; [done|]. apply elem_of_app. by left.
    + intros Hs. destruct (Hfound _ _ Hs). split; [done|]. apply elem_of_app. by right.
  - destruct (List.find has_id visible) as [rs0|] eqn:Hv.
    + split; [done|]. intros H. destruct (Hfound _ _ Hv) as [Hid Hin].
      exfalso. apply (H rs0); [|done]. apply elem_of_app. by left.
    + rewrite Hnone. pose proof (proj1 (Hnone _) Hv) as Hv'. split.
      * intros H rs Hrs. apply elem_of_app in Hrs as [Hrs|Hrs]; [by apply Hv' | by apply H].
      * intros H rs Hrs. apply H. apply elem_of_app. by right.
  - intros rs. destruct (List.find has_id visible) as [rs0|] eqn:Hv.
    + intros [= <-] _. by destruct (Hfound _ _ Hv).
    + intros _ (rs' & Hin & Hid). pose proof (proj1 (Hnone _) Hv) as Hv'.
      by destruct (Hv' rs' Hin).
Qed.

End VersionMapFacts.

(** X21 at the worked instance: the tablet built from the version maps
    that hold the base rowset 7 at [2-2] hands rowset 7 to the calculation. *)
Lemma commit_phase_base_rowsets_cover_ids_to_add_witness :
  exists rs,
    rs ∈ base_rowsets
           (commit_phase_reconcile DeleteBitmap.half_open_range
              (BaseTablet.tablet_view Ex.maps Ex.tracker Ex.meta 2) {[7]} ∅ ∅)
    /\ rowset_id rs = 7.
Proof.
  assert (get_all_rs_id_unlocked (BaseTablet.tablet_view Ex.maps Ex.tracker Ex.meta 2)
            (max_version_unlocked (BaseTablet.tablet_view Ex.maps Ex.tracker Ex.meta 2))
          = (OK, {[7]})) as Hcur by (vm_compute; reflexivity).
  apply (proj1 (commit_phase_base_rowsets_cover_ids_to_add Ex.maps Ex.tracker
                  DeleteBitmap.half_open_range Ex.meta 2 {[7]} ∅ ∅ Hcur 7)).
  vm_compute. reflexivity.
Defined.

(** ** Runs of empty rowsets *)

Section EmptyRowsetsFacts.

Variable start_version : Rowset -> Z.
Variable has_delete_predicate : Rowset -> bool.

Local Abbreviation continues_run' := (continues_run start_version has_delete_predicate).
Local Abbreviation keep_searching' := (keep_searching start_version has_delete_predicate).
Local Abbreviation search_from' := (search_from start_version has_delete_predicate).
Local Abbreviation is_empty' := (is_empty_rowset has_delete_predicate).
Local Abbreviation consecutive' := (versions_consecutive start_version).

(** The run that the inner loop appends: the longest stretch of [rest] in
    which every rowset continues the one before it. *)
Lemma keep_searching_spec rowset rest empty_rowsets next_index :
  exists run tail,
    rest = run ++ tail
    /\ keep_searching' rowset rest empty_rowsets next_index
       = (empty_rowsets ++ run, (next_index + List.length run)%nat)
    /\ Forall (fun rs => is_empty' rs = true) run
    /\ consecutive' (rowset :: run)
    /\ (forall candidate, tail !! 0%nat = Some candidate ->
          continues_run' (default rowset (list.last run)) candidate = false).
Proof.
  revert rowset empty_rowsets next_index.
  induction rest as [|candidate rest IH]; intros rowset empty_rowsets next_index.
  { exists [], []. simpl. rewrite app_nil_r, Nat.add_0_r. done. }
  cbn [keep_searching].
  destruct (continues_run' rowset candidate) eqn:Hcont.
  - destruct (IH candidate (empty_rowsets ++ [candidate]) (S next_index))
      as (run & tail & -> & Hrun & Hempty & Hcons & Htail).
    exists (candidate :: run), tail. split; [done|]. split.
    { rewrite Hrun. rewrite <- app_assoc. simpl. f_equal. lia. }
    unfold continues_run in Hcont. apply andb_prop in Hcont as [Hcont Hver].
    apply bool_decide_eq_true in Hver.
    split; [constructor; done|]. split; [done|].
    intros c Hc. specialize (Htail c Hc).
    destruct run as [|r run'] using rev_ind; [done|].
    rewrite last_cons, last_snoc. by rewrite last_snoc in Htail.
  - exists [], (candidate :: rest). simpl. rewrite app_nil_r, Nat.add_0_r.
    split; [done|]. split; [done|]. split; [done|]. split; [done|].
    by intros c [= <-].
Qed.

Lemma consecutive_app_two rowset next_rowset run :
  end_version rowset = (start_version next_rowset - 1)%Z ->
  consecutive' (next_rowset :: run) -> consecutive' (rowset :: next_rowset :: run).
Proof. done. Qed.

(** What the outer loop returns, started at index [i] with [empty_rowsets]:
    the vector as it was, or cleared, or - possibly after what it held - a
    run of the candidates. *)
Lemma search_from_spec fuel candidate_rowsets limit i empty_rowsets :
  (List.length candidate_rowsets - i <= fuel + 1)%nat ->
  exists res,
    search_from' fuel candidate_rowsets limit i empty_rowsets = Some res
    /\ (res = empty_rowsets \/ res = []
        \/ exists before j run,
             (before = empty_rowsets \/ before = [])
             /\ res = before ++ run
             /\ (i <= j)%nat
             /\ run = take (List.length run) (drop j candidate_rowsets)
             /\ (2 <= List.length run)%nat
             /\ (limit mod 2 ^ 64 <= Z.of_nat (List.length res))%Z
             /\ (j + List.length run < List.length candidate_rowsets)%nat
             /\ Forall (fun rs => is_empty' rs = true) run
             /\ consecutive' run
             /\ (forall rowset candidate,
                   list.last run = Some rowset ->
                   candidate_rowsets !! (j + List.length run)%nat = Some candidate ->
                   continues_run' rowset candidate = false)).
Proof.
  revert i empty_rowsets. induction fuel as [|fuel IH]; intros i empty_rowsets Hfuel.
  { cbn [search_from]. destruct (Z.ltb_spec (Z.of_nat i)
                                   (Z.of_nat (List.length candidate_rowsets) - 1)) as [Hlt|Hge].
    - lia.
    - simpl. exists empty_rowsets. split; [done | by left]. }
  cbn [search_from].
  destruct (Z.ltb_spec (Z.of_nat i) (Z.of_nat (List.length candidate_rowsets) - 1))
    as [Hlt|Hge]; cbn [negb].
  2: { exists empty_rowsets. split; [done | by left]. }
  destruct (lookup_lt_is_Some_2 candidate_rowsets i ltac:(lia)) as [rowset Hrowset].
  destruct (lookup_lt_is_Some_2 candidate_rowsets (i + 1) ltac:(lia)) as [next_rowset Hnext].
  rewrite Hrowset, Hnext. cbn [mbind option_bind].
  destruct (bool_decide (num_segments rowset = 0%nat) && _ && _ && _ && _) eqn:Hpair.
  - (* two consecutive empty rowsets *)
    cbv zeta.
    destruct (keep_searching_spec next_rowset (drop (i + 2) candidate_rowsets)
                (empty_rowsets ++ [rowset; next_rowset]) (i + 2))
      as (run & tail & Hsplit & -> & Hempty & Hcons & Htail).
    repeat (apply andb_prop in Hpair as [Hpair ?]).
    repeat match goal with
           | H : bool_decide _ = true |- _ => apply bool_decide_eq_true in H
           | H : negb _ = true |- _ => apply negb_true_iff in H
           end.
    set (found := rowset :: next_rowset :: run).
    assert (Hdrop : drop i candidate_rowsets = found ++ tail).
    { rewrite (drop_S _ _ _ Hrowset).
      replace (S i) with (i + 1)%nat by lia. rewrite (drop_S _ _ _ Hnext).
      replace (S (i + 1)) with (i + 2)%nat by lia. by rewrite Hsplit. }
    assert (Hres : (empty_rowsets ++ [rowset; next_rowset]) ++ run = empty_rowsets ++ found).
    { by rewrite <- app_assoc. }
    rewrite Hres.
    assert (Hlen : (i + 2 + List.length run = i + List.length found)%nat).
    { unfold found. simpl. lia. }
    rewrite Hlen.
    destruct (Z.leb_spec (limit mod 2 ^ 64) (Z.of_nat (List.length (empty_rowsets ++ found))))
      as [Hlimit|Hlimit]; cbn [andb].
    + destruct (Nat.ltb_spec (i + List.length found) (List.length candidate_rowsets))
        as [Hmore|Hend].
      * exists (empty_rowsets ++ found). split; [done|]. right. right.
        exists empty_rowsets, i, found. split; [by left|]. split; [done|]. split; [done|].
        split; [by rewrite Hdrop, take_app_length|].
        split; [unfold found; simpl; lia|]. split; [done|]. split; [done|].
        split.
        { unfold found. constructor; [|constructor; [|done]];
            unfold is_empty_rowset; apply andb_true_intro;
            (split; [by apply bool_decide_eq_true | by apply negb_true_iff]). }
        split; [by apply consecutive_app_two|].
        intros r c Hlast Hc.
        assert (r = default next_rowset (list.last run)) as ->.
        { unfold found in Hlast. rewrite !last_cons in Hlast.
          destruct (list.last run); by simplify_eq. }
        apply Htail.
        rewrite <- (lookup_drop candidate_rowsets i) in Hc.
        rewrite Hdrop, lookup_app_r in Hc by lia.
        by rewrite Nat.sub_diag in Hc.
      * destruct (IH (i + List.length found)%nat []) as (res & Hsearch & Hcases).
        { unfold found. simpl. lia. }
        exists res. split; [done|]. right.
        destruct Hcases as [->|[->|(before & j & run' & Hb & -> & Hj & Hrun)]]; [by left..|].
        right. exists [], j, run'.
        assert (before = []) as -> by (by destruct Hb).
        split; [by right|]. split; [done|]. split; [lia | done].
    + destruct (IH (i + List.length found)%nat []) as (res & Hsearch & Hcases).
      { unfold found. simpl. lia. }
      exists res. split; [done|]. right.
      destruct Hcases as [->|[->|(before & j & run' & Hb & -> & Hj & Hrun)]]; [by left..|].
      right. exists [], j, run'.
      assert (before = []) as -> by (by destruct Hb).
      split; [by right|]. split; [done|]. split; [lia | done].
  - destruct (IH (i + 1)%nat empty_rowsets) as (res & Hsearch & Hcases); [lia|].
    exists res. split; [done|].
    destruct Hcases as [->|[->|(before & j & run' & Hb & -> & Hj & Hrun)]];
      [by left | by right; left |].
    right. right. exists before, j, run'. split; [done|]. split; [done|]. split; [lia | done].
Qed.

(** X23: [calc_consecutive_empty_rowsets], called with an empty vector,
    always returns, and leaves the vector empty or holding a stretch of
    consecutive candidates - at least two and at least [limit] of them -
    that are all without segments and without delete predicate, each
    starting where the one before it ends, that is followed by a further
    candidate, and that this candidate does not continue. *)
Theorem calc_consecutive_empty_rowsets_finds_run (candidate_rowsets : list Rowset)
    (limit : Z) :
  exists res,
    calc_consecutive_empty_rowsets start_version has_delete_predicate [] candidate_rowsets
      limit = Some res
    /\ (res = []
        \/ exists j,
             res = take (List.length res) (drop j candidate_rowsets)
             /\ (2 <= List.length res)%nat
             /\ (limit mod 2 ^ 64 <= Z.of_nat (List.length res))%Z
             /\ (j + List.length res < List.length candidate_rowsets)%nat
             /\ Forall (fun rs => is_empty' rs = true) res
             /\ consecutive' res
             /\ (forall rowset candidate,
                   list.last res = Some rowset ->
                   candidate_rowsets !! (j + List.length res)%nat = Some candidate ->
                   continues_run' rowset candidate = false)).
Proof.
  unfold calc_consecutive_empty_rowsets.
  destruct (search_from_spec (List.length candidate_rowsets) candidate_rowsets limit 0 [])
    as (res & Hsearch & Hcases); [lia|].
  exists res. split; [done|].
  destruct Hcases as [->|[->|(before & j & run & Hb & -> & _ & H)]]; [by left..|].
  assert (before = []) as -> by (by destruct Hb). right. by exists j.
Qed.

End EmptyRowsetsFacts.

(** ** The schema of the highest version *)

Section MaxVersionSchemaFacts.

Variable schema_version : TabletSchema -> Z.
Variable num_variant_columns : TabletSchema -> nat.
Variable get_least_common_schema : list (option TabletSchema) -> TabletSchema -> TabletSchema.

Local Abbreviation less := (schema_version_less schema_version).

(** The running maximum of [max_element] under the comparator: as soon as
    a schema has been seen, it is a schema of the highest version seen. *)
Lemma max_element_schema_version largest rest :
  (forall s, largest = Some s \/ Some s ∈ rest ->
     exists t, max_element less largest rest = Some t
               /\ (largest = Some t \/ Some t ∈ rest))
  /\ (forall t, max_element less largest rest = Some t ->
        (largest = Some t \/ Some t ∈ rest)
        /\ forall s, largest = Some s \/ Some s ∈ rest ->
             (schema_version s <= schema_version t)%Z).
Proof.
  revert largest. induction rest as [|x rest IH]; intros largest; cbn [max_element].
  { split.
    - intros s [-> |H]; [by exists s; split; [|left] | by apply elem_of_nil in H].
    - intros t ->. split; [by left|].
      intros s [Hs|H]; [injection Hs as ->; lia | by apply elem_of_nil in H]. }
  destruct (IH (if less largest x then x else largest)) as [IHsome IHmax].
  assert (Hstep : forall s, largest = Some s \/ x = Some s ->
            exists t, (if less largest x then x else largest) = Some t
                      /\ (schema_version s <= schema_version t)%Z
                      /\ (largest = Some t \/ x = Some t)).
  { intros s. unfold schema_version_less.
    destruct largest as [l|], x as [y|];
      try destruct (Z.ltb_spec (schema_version l) (schema_version y));
      intros [Hs|Hs]; simplify_eq;
      eexists; (split; [reflexivity|]); (split; [lia|]); auto. }
  assert (Hkeep : forall t, (if less largest x then x else largest) = Some t ->
            largest = Some t \/ x = Some t).
  { intros t. destruct (less largest x); auto. }
  split.
  - intros s Hs.
    assert (exists s', (if less largest x then x else largest) = Some s' \/ Some s' ∈ rest)
      as [s' Hs'].
    { destruct Hs as [Hs|Hs].
      - destruct (Hstep s (or_introl Hs)) as (t & Ht & _). exists t. by left.
      - apply elem_of_cons in Hs as [Hs|Hs].
        + destruct (Hstep s (or_intror (eq_sym Hs))) as (t & Ht & _). exists t. by left.
        + exists s. by right. }
    destruct (IHsome s' Hs') as (t & Ht & Hin). exists t. split; [done|].
    destruct Hin as [Hin|Hin]; [|right; by right].
    destruct (Hkeep t Hin) as [?| ->]; [by left | right; by left].
  - intros t Ht. destruct (IHmax t Ht) as [Hin Hle]. split.
    + destruct Hin as [Hin|Hin]; [|right; by right].
      destruct (Hkeep t Hin) as [?| ->]; [by left | right; by left].
    + intros s Hs.
      assert (largest = Some s \/ x = Some s \/ Some s ∈ rest) as [Hs'|[Hs'|Hs']].
      { destruct Hs as [?|Hs]; [by left|]. apply elem_of_cons in Hs as [-> |?]; auto. }
      * destruct (Hstep s (or_introl Hs')) as (t' & Ht' & Hle' & _).
        specialize (Hle t' (or_introl Ht')). lia.
      * destruct (Hstep s (or_intror Hs')) as (t' & Ht' & Hle' & _).
        specialize (Hle t' (or_introl Ht')). lia.
      * by apply Hle; right.
Qed.

(** X24: [tablet_schema_with_merged_max_schema_version] is defined exactly
    when some rowset meta carries a schema; the schema it starts from is
    then one of the rowset metas' schemas, of a version that none of them
    exceeds, and it is returned as it is unless it has variant columns, in
    which case the merged schema is returned. *)
Theorem merged_max_schema_version_is_highest (rowset_metas : list (option TabletSchema)) :
  (is_Some (tablet_schema_with_merged_max_schema_version schema_version
              num_variant_columns get_least_common_schema rowset_metas)
   <-> exists s, Some s ∈ rowset_metas)
  /\ (forall result,
        tablet_schema_with_merged_max_schema_version schema_version num_variant_columns
          get_least_common_schema rowset_metas = Some result ->
        exists target_schema,
          Some target_schema ∈ rowset_metas
          /\ (forall s, Some s ∈ rowset_metas ->
                (schema_version s <= schema_version target_schema)%Z)
          /\ result = if (0 <? num_variant_columns target_schema)%nat
                      then get_least_common_schema rowset_metas target_schema
                      else target_schema).
Proof.
  unfold tablet_schema_with_merged_max_schema_version.
  destruct rowset_metas as [|first rest].
  { split.
    - split; [by intros [? ?] | intros [s H]; by apply elem_of_nil in H].
    - done. }
  destruct (max_element_schema_version first rest) as [Hsome Hmax].
  assert (Hcons : forall s, first = Some s \/ Some s ∈ rest <-> Some s ∈ first :: rest).
  { intros s. rewrite elem_of_cons. split; (intros [?|?]; [by left | by right]). }
  split.
  - split.
    + intros [result Hres].
      destruct (max_element less first rest) as [t|] eqn:Ht; [|done].
      exists t. apply Hcons. by apply Hmax.
    + intros [s Hs]. apply Hcons in Hs. destruct (Hsome s Hs) as (t & -> & _). simpl.
      destruct (0 <? num_variant_columns t)%nat; by eexists.
  - intros result.
    destruct (max_element less first rest) as [t|] eqn:Ht; cbn [mbind option_bind]; [|done].
    intros Hres. exists t. destruct (Hmax t eq_refl) as [Hin Hle].
    split; [by apply Hcons|]. split.
    + intros s Hs. apply Hle. by apply Hcons.
    + destruct (0 <? num_variant_columns t)%nat; by simplify_eq.
Qed.

(** X25: for a tablet meta that carries a schema, the constructor always
    finds a schema for [_max_version_schema]: the null-pointer case of
    [tablet_schema_with_merged_max_schema_version] is not reached from it.
    Over any sequence of [update_max_version_schema] calls that follows,
    the schema is never absent and its version is at least that of every
    schema passed in; it changes only for a schema of a strictly higher
    version. *)
Theorem max_version_schema_never_absent (meta_schema : TabletSchema)
    (all_rs_metas : list (option TabletSchema)) (updates : list TabletSchema) :
  let initial :=
    constructor_max_version_schema schema_version num_variant_columns
      get_least_common_schema meta_schema all_rs_metas in
  let final := foldl (update_max_version_schema schema_version) initial updates in
  exists first last,
    initial = Some first /\ final = Some last
    /\ (schema_version first <= schema_version last)%Z
    /\ (forall s, s ∈ updates -> (schema_version s <= schema_version last)%Z)
    /\ (last = first \/ (last ∈ updates
                         /\ (schema_version first < schema_version last)%Z)).
Proof.
  cbv zeta.
  assert (exists first,
             constructor_max_version_schema schema_version num_variant_columns
               get_least_common_schema meta_schema all_rs_metas = Some first) as [first ->].
  { unfold constructor_max_version_schema.
    destruct all_rs_metas as [|[s|] rest]; [by eexists | | by eexists].
    unfold tablet_schema_with_merged_max_schema_version.
    destruct (max_element_schema_version (Some s) rest) as [Hsome _].
    destruct (Hsome s (or_introl eq_refl)) as (t & -> & _). simpl.
    destruct (0 <? num_variant_columns t)%nat; by eexists. }
  exists first. revert first.
  induction updates as [|u rest IH]; intros first; simpl.
  { exists first. split; [done|]. split; [done|]. split; [lia|].
    split; [|by left]. intros s H. by apply elem_of_nil in H. }
  destruct (Z.ltb_spec (schema_version first) (schema_version u)) as [Hlt|Hge].
  - destruct (IH u) as (last & _ & Hfinal & Hle & Hall & Hlast).
    exists last. split; [done|]. split; [done|]. split; [lia|]. split.
    + intros s Hs. apply elem_of_cons in Hs as [-> |Hs]; [done | by apply Hall].
    + right. destruct Hlast as [-> |[Hin Hlt']]; [split; [by left | done]|].
      split; [by right | lia].
  - destruct (IH first) as (last & _ & Hfinal & Hle & Hall & Hlast).
    exists last. split; [done|]. split; [done|]. split; [done|]. split.
    + intros s Hs. apply elem_of_cons in Hs as [-> |Hs]; [lia | by apply Hall].
    + destruct Hlast as [-> |[Hin Hlt']]; [by left|]. right. split; [by right | done].
Qed.

End MaxVersionSchemaFacts.

(** ** Thread-pool sizes *)

(** X26: [get_num_threads] divides by zero only when neither the configured
    minimum nor the number of cores is positive.  Otherwise the sizes it
    returns never exceed the configured ones (the number of cores standing
    in for a configured 0), the minimum never exceeds the maximum, and the
    maximum is the minimum times the ratio of the configured sizes - so that
    both are 0 when the configured maximum is below the configured minimum.
    None of this depends on the product with the number of cores staying
    below 2^64. *)
Theorem get_num_threads_bounds (num_cores min_num max_num : Z) :
  (0 <= min_num < 2 ^ 64)%Z -> (0 <= max_num < 2 ^ 64)%Z ->
  let cores := (num_cores mod 2 ^ 64)%Z in
  let min_config := if (min_num =? 0)%Z then cores else min_num in
  let max_config := if (max_num =? 0)%Z then cores else max_num in
  (get_num_threads num_cores min_num max_num = None <-> min_num = 0%Z /\ cores = 0%Z)
  /\ forall min_threads max_threads,
       get_num_threads num_cores min_num max_num = Some (min_threads, max_threads) ->
       (0 <= min_threads <= min_config)%Z
       /\ (min_threads <= max_threads <= max_config)%Z
       /\ max_threads = (min_threads * (max_config / min_config))%Z
       /\ ((max_config < min_config)%Z -> min_threads = 0%Z /\ max_threads = 0%Z).
Proof.
  intros Hmin Hmax. cbv zeta. unfold get_num_threads.
  set (cores := (num_cores mod 2 ^ 64)%Z).
  assert (0 <= cores < 2 ^ 64)%Z as Hcores by (apply Z.mod_pos_bound; lia).
  set (min_config := if (min_num =? 0)%Z then cores else min_num).
  set (max_config := if (max_num =? 0)%Z then cores else max_num).
  assert (0 <= min_config < 2 ^ 64)%Z as Hminc.
  { unfold min_config. destruct (min_num =? 0)%Z; lia. }
  assert (0 <= max_config < 2 ^ 64)%Z as Hmaxc.
  { unfold max_config. destruct (max_num =? 0)%Z; lia. }
  destruct (Z.eqb_spec min_config 0) as [Hzero|Hpos].
  - split; [|done]. split; [|done]. intros _. unfold min_config in Hzero.
    destruct (Z.eqb_spec min_num 0); [done | lia].
  - split.
    { split; [done|]. intros [-> Hc]. unfold min_config in Hpos. simpl in Hpos. lia. }
    intros min_threads max_threads [= <- <-].
    set (factor := (max_config / min_config)%Z).
    assert (0 <= factor)%Z as Hfactor by (apply Z.div_pos; lia).
    assert (factor * min_config <= max_config)%Z as Hfm.
    { unfold factor. rewrite Z.mul_comm. apply Z.mul_div_le. lia. }
    set (min_threads := Z.min ((cores * factor) mod 2 ^ 64) min_config).
    assert (0 <= (cores * factor) mod 2 ^ 64 < 2 ^ 64)%Z as Hwrap
      by (apply Z.mod_pos_bound; lia).
    assert (0 <= min_threads <= min_config)%Z as Hmt by (unfold min_threads; lia).
    assert (0 <= min_threads * factor <= max_config)%Z as Hprod by nia.
    rewrite (Z.mod_small (min_threads * factor)) by lia.
    rewrite Z.min_l by lia.
    split; [done|]. split.
    + split; [|lia]. destruct (Z.eq_dec factor 0) as [Hf0|Hf0].
      * assert (min_threads = 0)%Z; [|nia].
        unfold min_threads. rewrite Hf0, Z.mul_0_r, Z.mod_0_l by lia. lia.
      * nia.
    + split; [done|]. intros Hlt.
      assert (factor = 0)%Z as Hf0 by (apply Z.div_small; lia).
      assert (min_threads = 0)%Z.
      { unfold min_threads. rewrite Hf0, Z.mul_0_r, Z.mod_0_l by lia. lia. }
      split; [done | nia].
Qed.

(** X26 at an instance: with no configured minimum and no core reported,
    the sizes are not computed. *)
Lemma get_num_threads_bounds_witness : get_num_threads 0 0 48 = None.
Proof.
  apply (proj1 (get_num_threads_bounds 0 0 48 ltac:(lia) ltac:(lia))).
  split; reflexivity.
Defined.
